(** * Two Brush Sliders: a shallow embedding of [two_brush_sliders.py]

    The plugin keeps two sliders in step with the active brush of the host
    painting application.  This development embeds the parts of the source
    that compute something (number conversions, the clamp of the hardness,
    the search in the brush-definition XML, the bookkeeping of the maximal
    brush size, the debounced save of the configuration) and proves what the
    specification says about them. *)

From Stdlib Require Import ZArith QArith Qround Qminmax Bool List Ascii String.
From Stdlib Require Import Lia Lqa.
From Stdlib Require Import Floats.SpecFloat.
Import ListNotations.

Set Default Proof Using "Type".

Local Open Scope Z_scope.

(** ** Python floats

    A Python [float] is an IEEE 754 binary64 number.  It is modelled by
    [spec_float] with precision 53 and maximal exponent 1024; the arithmetic
    is the correctly rounded one of [SpecFloat]. *)
Module PyFloat.

Definition prec : Z := 53.
Definition emax : Z := 1024.

Definition float := spec_float.

(** [float(n)] for a Python int: the nearest binary64 number. *)
Definition of_int (n : Z) : float := binary_normalize prec emax n 0 false.

Definition truediv (x y : float) : float := SFdiv prec emax x y.
Definition mul (x y : float) : float := SFmul prec emax x y.
Definition add (x y : float) : float := SFadd prec emax x y.
Definition sub (x y : float) : float := SFsub prec emax x y.

Definition ltb (x y : float) : bool := SFltb x y.
Definition leb (x y : float) : bool := SFleb x y.

(** Python's built-in [min(a, b)] and [max(a, b)] on two arguments: the
    first argument is kept unless the second is strictly smaller (larger).
    A comparison with NaN is false, so a NaN second argument is dropped. *)
Definition py_min (a b : float) : float := if ltb b a then b else a.
Definition py_max (a b : float) : float := if ltb a b then b else a.

(** What [int(x)] does on a float. *)
Inductive int_result : Type :=
| IntOk (n : Z)
| IntValueError       (* int(nan) *)
| IntOverflowError.   (* int(inf) *)

(** [int(x)]: truncation towards zero. *)
Definition to_int (x : float) : int_result :=
  match x with
  | S754_nan => IntValueError
  | S754_infinity _ => IntOverflowError
  | S754_zero _ => IntOk 0
  | S754_finite s m e =>
      let a := match e with
               | Zneg p => Z.shiftr (Zpos m) (Zpos p)
               | _ => Z.shiftl (Zpos m) e
               end in
      IntOk (if s then - a else a)
  end.

Definition zero : float := S754_zero false.
Definition one : float := of_int 1.
Definition hundred : float := of_int 100.

End PyFloat.

Local Open Scope string_scope.

(** ** Python values used by the code *)

(** [s.endswith(suffix)] *)
Definition endswith (s suffix : string) : bool :=
  let n := String.length s in
  let k := String.length suffix in
  (k <=? n)%nat && String.eqb (substring (n - k) k s) suffix.

(** A call either returns or raises; the exceptions are the ones the code
    under study can meet. *)
Inductive exn : Type :=
| ParseError      (* xml.etree.ElementTree.ParseError *)
| ValueError
| OverflowError
| TypeError
| AttributeError
| ZeroDivisionError
| JSONDecodeError
| IOError.

Inductive result (A : Type) : Type :=
| Ok (a : A)
| Raise (e : exn).
Arguments Ok {A} a.
Arguments Raise {A} e.

Definition bind {A B : Type} (r : result A) (k : A -> result B) : result B :=
  match r with
  | Ok a => k a
  | Raise e => Raise e
  end.

Notation "'let*' x ':=' r 'in' k" := (bind r (fun x => k))
  (at level 10, x name, r at level 100, k at level 200).

(** ** ElementTree *)
Module ET.

(** An [xml.etree.ElementTree.Element]: tag, attribute dictionary (in
    insertion order), text and children.  [text] is the empty string where
    Python has [None] or [''] (the code only tests [not param.text]); the
    tail of an element is never read by the code and is left out. *)
#[warnings="-register-all"]
Inductive Element : Type :=
| Elem (tag : string) (attrib : list (string * string)) (text : string)
       (children : list Element).

Definition tag (e : Element) : string := let 'Elem t _ _ _ := e in t.
Definition attrib (e : Element) := let 'Elem _ a _ _ := e in a.
Definition text (e : Element) : string := let 'Elem _ _ x _ := e in x.
Definition children (e : Element) : list Element := let 'Elem _ _ _ c := e in c.

(** [dict.get(key)] on the attribute dictionary. *)
Fixpoint dict_get (key : string) (d : list (string * string)) : option string :=
  match d with
  | [] => None
  | (k, v) :: r => if String.eqb k key then Some v else dict_get key r
  end.

(** [d[key] = value]: an existing key keeps its place, a new one goes last. *)
Fixpoint dict_set (key value : string) (d : list (string * string))
  : list (string * string) :=
  match d with
  | [] => [(key, value)]
  | (k, v) :: r =>
      if String.eqb k key then (k, value) :: r else (k, v) :: dict_set key value r
  end.

(** [elem.get(key)] and [elem.set(key, value)] *)
Definition get (e : Element) (key : string) : option string :=
  dict_get key (attrib e).

Definition set (key value : string) (e : Element) : Element :=
  let 'Elem t a x c := e in Elem t (dict_set key value a) x c.

Definition set_text (x : string) (e : Element) : Element :=
  let 'Elem t a _ c := e in Elem t a x c.

(** A node of a tree is named by the child indices that lead to it: Python
    hands out the node object itself, and the mutation of that object is a
    replacement at this place. *)
Definition path := list nat.

Fixpoint number_from {A : Type} (i : nat) (l : list A) : list (nat * A) :=
  match l with
  | [] => []
  | a :: r => (i, a) :: number_from (S i) r
  end.

Definition under (i : nat) (n : path * Element) : path * Element :=
  (i :: fst n, snd n).

(** [elem.iter()]: the element itself, then its descendants, in document
    order. *)
Fixpoint iter (e : Element) : list (path * Element) :=
  match e with
  | Elem _ _ _ cs =>
      ([], e) ::
      (fix iter_forest (i : nat) (l : list Element) : list (path * Element) :=
         match l with
         | [] => []
         | c :: r => (List.map (under i) (iter c) ++ iter_forest (S i) r)%list
         end) 0%nat cs
  end.

Fixpoint iter_forest (i : nat) (l : list Element) : list (path * Element) :=
  match l with
  | [] => []
  | c :: r => (List.map (under i) (iter c) ++ iter_forest (S i) r)%list
  end.

(** The direct children, each with its place. *)
Definition child_nodes (e : Element) : list (path * Element) :=
  List.map (fun ic => ([fst ic], snd ic)) (number_from 0 (children e)).

Definition has_tag (t : string) (n : path * Element) : bool :=
  String.eqb (tag (snd n)) t.

(** [elem.find(t)] for a plain tag [t]: the first direct child with that tag. *)
Definition find (t : string) (e : Element) : option (path * Element) :=
  List.find (has_tag t) (child_nodes e).

(** [elem.find('.//' + t)]: the first proper descendant with that tag. *)
Definition find_descendant (t : string) (e : Element) : option (path * Element) :=
  List.find (has_tag t) (List.tl (iter e)).

(** [elem.findall(t)] for a plain tag: all direct children with that tag. *)
Definition findall (t : string) (e : Element) : list (nat * Element) :=
  List.filter (fun ic => String.eqb (tag (snd ic)) t) (number_from 0 (children e)).

(** The node at a place, and the tree where the node at a place is replaced
    by its image under [f]. *)
Fixpoint subtree (p : path) (e : Element) : option Element :=
  match p with
  | [] => Some e
  | i :: q =>
      match nth_error (children e) i with
      | Some c => subtree q c
      | None => None
      end
  end.

Fixpoint update_nth {A : Type} (i : nat) (f : A -> A) (l : list A) : list A :=
  match l, i with
  | [], _ => []
  | a :: r, O => f a :: r
  | a :: r, S j => a :: update_nth j f r
  end.

Fixpoint update (p : path) (f : Element -> Element) (e : Element) : Element :=
  match p with
  | [] => f e
  | i :: q =>
      let 'Elem t a x cs := e in Elem t a x (update_nth i (update q f) cs)
  end.

(** Induction on a tree whose children are a list. *)
Fixpoint Element_forall (P : Element -> Prop)
    (step : forall t a x cs, Forall P cs -> P (Elem t a x cs))
    (e : Element) : P e :=
  match e with
  | Elem t a x cs =>
      step t a x cs
        ((fix all (l : list Element) : Forall P l :=
            match l with
            | [] => Forall_nil P
            | c :: r => Forall_cons c (Element_forall P step c) (all r)
            end) cs)
  end.

(** An entry of a numbered list of children, after the child at [i] has been
    replaced by its image under [g]. *)
Definition replace_at (i : nat) (g : Element -> Element) (jc : nat * Element)
  : nat * Element :=
  if Nat.eqb (fst jc) i then (fst jc, g (snd jc)) else jc.

(** The place and the tag of a node: all that the searches look at. *)
Definition key (n : path * Element) : path * string := (fst n, tag (snd n)).

End ET.

(** ** The host application

    Of the host only what the hardness code touches is kept: the active view
    (if any) and its current brush preset, which is the XML text that
    [Preset.toXML] hands out and [Preset.fromXML] replaces.  The calls of
    [fromXML] are recorded, newest first. *)
Record View : Type := mkView {
  preset_xml : string;
  fromXML_calls : list string
}.

Definition toXML (v : View) : string := preset_xml v.

Definition fromXML (xml : string) (v : View) : View :=
  {| preset_xml := xml; fromXML_calls := xml :: fromXML_calls v |}.

(** ** Reading and writing the hardness *)
Section Hardness.

Import PyFloat.

(** The library functions the code calls.  [ET.fromstring] raises
    [ParseError] on text that is not well-formed XML, [float(s)] raises
    [ValueError] on text that is not a number: these are the [None] results. *)
Variable fromstring : string -> option ET.Element.
Variable tostring : ET.Element -> string.
Variable str : float -> string.
Variable float_of_str : string -> option float.

Definition ends_with_MaskGenerator (n : ET.path * ET.Element) : bool :=
  endswith (ET.tag (snd n)) "MaskGenerator".

Definition _find_mask_generator (brushdef : ET.Element)
  : option (ET.path * ET.Element) :=
  match ET.find "MaskGenerator" brushdef with
  | Some brushopt => Some brushopt
  | None =>
      match ET.find_descendant "MaskGenerator" brushdef with
      | Some brushopt => Some brushopt
      | None => List.find ends_with_MaskGenerator (ET.iter brushdef)
      end
  end.

Definition opt_eqb (o : option string) (s : string) : bool :=
  match o with
  | Some x => String.eqb x s
  | None => false
  end.

(** [hfade = brushopt.get('hfade')], then [vfade] when that is [None]. *)
Definition hfade_of (brushopt : ET.Element) : option string :=
  match ET.get brushopt "hfade" with
  | None => ET.get brushopt "vfade"
  | Some h => Some h
  end.

(** The loop of [_get_brush_hardness] over [preset_tree.findall('param')]. *)
Fixpoint get_loop (params : list (nat * ET.Element)) : result (option float) :=
  match params with
  | [] => Ok None
  | (_, param) :: rest =>
      if opt_eqb (ET.get param "name") "brush_definition" then
        if String.eqb (ET.text param) "" then get_loop rest
        else
          match fromstring (ET.text param) with
          | None => Raise ParseError
          | Some brushdef =>
              if negb (opt_eqb (ET.get brushdef "type") "auto_brush")
              then get_loop rest
              else
                match _find_mask_generator brushdef with
                | None => get_loop rest
                | Some (_, brushopt) =>
                    let hfade :=
                      match ET.get brushopt "hfade" with
                      | None => ET.get brushopt "vfade"
                      | Some h => Some h
                      end in
                    match hfade with
                    | None => get_loop rest
                    | Some h =>
                        match float_of_str h with
                        | None => Raise ValueError
                        | Some x => Ok (Some x)
                        end
                    end
                end
          end
      else get_loop rest
  end.

(** The body of the [try] of [_get_brush_hardness]. *)
Definition get_body (view : View) : result (option float) :=
  match fromstring (toXML view) with
  | None => Raise ParseError
  | Some preset_tree => get_loop (ET.findall "param" preset_tree)
  end.

Definition _get_brush_hardness (active_view : option View)
  : result (option float) :=
  match active_view with
  | None => Ok None
  | Some view =>
      match get_body view with
      | Ok (Some x) => Ok (Some x)
      | Ok None => Ok None
      | Raise _ => Ok None       (* except Exception: pass; return None *)
      end
  end.

Definition clamp01 (value : float) : float := py_max zero (py_min one value).

Definition set_fades (clamped_value : float) (brushopt : ET.Element) : ET.Element :=
  ET.set "vfade" (str clamped_value) (ET.set "hfade" (str clamped_value) brushopt).

(** The loop of [_set_brush_hardness]: the result is the preset tree after
    the loop and the flag [updated]. *)
Fixpoint set_loop (value : float) (preset_tree : ET.Element)
    (params : list (nat * ET.Element)) : result (ET.Element * bool) :=
  match params with
  | [] => Ok (preset_tree, false)
  | (i, param) :: rest =>
      if opt_eqb (ET.get param "name") "brush_definition" then
        if String.eqb (ET.text param) "" then set_loop value preset_tree rest
        else
          match fromstring (ET.text param) with
          | None => Raise ParseError
          | Some brushdef =>
              if negb (opt_eqb (ET.get brushdef "type") "auto_brush")
              then set_loop value preset_tree rest
              else
                match _find_mask_generator brushdef with
                | None => set_loop value preset_tree rest
                | Some (p, _) =>
                    let clamped_value := clamp01 value in
                    let brushdef' :=
                      ET.update p (set_fades clamped_value) brushdef in
                    let xmlbrushdef := tostring brushdef' in
                    Ok (ET.update [i] (ET.set_text xmlbrushdef) preset_tree, true)
                end
          end
      else set_loop value preset_tree rest
  end.

Definition set_body (value : float) (view : View) : result View :=
  match fromstring (toXML view) with
  | None => Raise ParseError
  | Some preset_tree =>
      let* r := set_loop value preset_tree (ET.findall "param" preset_tree) in
      if snd r then Ok (fromXML (tostring (fst r)) view) else Ok view
  end.

(** [_set_brush_hardness]: the view after the call.  An exception is caught
    and reported on the console; the view is then as it was. *)
Definition _set_brush_hardness (value : float) (active_view : option View)
  : option View :=
  match active_view with
  | None => None
  | Some view =>
      match set_body value view with
      | Ok view' => Some view'
      | Raise _ => Some view
      end
  end.

(** What the guards at the head of both loops make of one param: the loop
    goes on to the next param, [ET.fromstring] raises, or the mask generator
    of the brush definition is at hand. *)
Inductive guard : Type :=
| Skip
| Malformed
| Located (brushdef : ET.Element) (p : ET.path) (brushopt : ET.Element).

Definition locate (param : ET.Element) : guard :=
  if opt_eqb (ET.get param "name") "brush_definition" then
    if String.eqb (ET.text param) "" then Skip
    else
      match fromstring (ET.text param) with
      | None => Malformed
      | Some brushdef =>
          if negb (opt_eqb (ET.get brushdef "type") "auto_brush") then Skip
          else
            match _find_mask_generator brushdef with
            | None => Skip
            | Some (p, brushopt) => Located brushdef p brushopt
            end
      end
  else Skip.

(** The words of the specification.  A param holds the hardness when it is
    named [brush_definition] and its text is the definition of an auto brush
    with a mask generator node in it. *)
Definition mask_generator_node (brushdef : ET.Element) (p : ET.path)
    (x : ET.Element) : Prop :=
  ET.subtree p brushdef = Some x /\ endswith (ET.tag x) "MaskGenerator" = true.

Definition holds_hardness (param : ET.Element) : Prop :=
  ET.get param "name" = Some "brush_definition" /\
  ET.text param <> "" /\
  exists brushdef,
    fromstring (ET.text param) = Some brushdef /\
    ET.get brushdef "type" = Some "auto_brush" /\
    exists p x, mask_generator_node brushdef p x.

(** A param named [brush_definition] whose text is not well-formed XML. *)
Definition unparsable (param : ET.Element) : Prop :=
  ET.get param "name" = Some "brush_definition" /\
  ET.text param <> "" /\
  fromstring (ET.text param) = None.

(** The hardness cannot be located in a param: it is not named
    [brush_definition], or it has no definition, or the definition is not of
    an auto brush, or there is no mask generator node in it. *)
Definition lacks_hardness (param : ET.Element) : Prop :=
  ET.get param "name" <> Some "brush_definition" \/
  ET.text param = "" \/
  fromstring (ET.text param) = None \/
  exists brushdef,
    fromstring (ET.text param) = Some brushdef /\
    (ET.get brushdef "type" <> Some "auto_brush" \/
     forall p x, ET.subtree p brushdef = Some x ->
                 endswith (ET.tag x) "MaskGenerator" = false).

(** The reader goes past a param, to the next one: the guards skip it, or
    its mask generator node has neither an [hfade] nor a [vfade]. *)
Definition passed_over (param : ET.Element) : Prop :=
  locate param = Skip \/
  exists brushdef p brushopt,
    locate param = Located brushdef p brushopt /\
    ET.get brushopt "hfade" = None /\ ET.get brushopt "vfade" = None.

End Hardness.

(** ** Python numbers without rounding

    Where the code only compares, truncates and selects numbers (brush sizes,
    the maximal brush size, the whole numbers the sliders are set to), a
    Python int or finite float is modelled by its exact rational value. *)
Module PyNum.

Local Open Scope Q_scope.

Definition ltb (a b : Q) : bool :=
  match Qcompare a b with Lt => true | _ => false end.

(** Built-in [min(a, b)], [max(a, b)]: see [PyFloat.py_min]. *)
Definition py_min (a b : Q) : Q := if ltb b a then b else a.
Definition py_max (a b : Q) : Q := if ltb a b then b else a.

(** [int(x)]: truncation towards zero. *)
Definition int (x : Q) : Z :=
  if ltb x 0 then Qceiling x else Qfloor x.

(** [round(x)] with one argument: the nearest int, a tie goes to the even
    one. *)
Definition round (x : Q) : Z :=
  let f := Qfloor x in
  match Qcompare (x - inject_Z f) (1 # 2) with
  | Lt => f
  | Gt => (f + 1)%Z
  | Eq => if Z.even f then f else (f + 1)%Z
  end.

End PyNum.

(** ** The slider widget, as the docker uses it

    The docker only sets its sliders to whole numbers and moves their range;
    these operations compare and select, so the numbers are exact rationals.
    The arithmetic the widget does on its own, in [_updateValueFromMouse], is
    embedded in binary64 in [Widget] below. *)
Module Slider.

Local Open Scope Q_scope.

(** The state of a [QDoubleSpinBox] that the code reads or writes. *)
Record SliderSpinBox : Type := mkSlider {
  minimum : Q;
  maximum : Q;
  singleStep : Q;
  value : Q
}.

Section Qt.

(** How the spin box rounds a number to its [decimals] (two, which the
    plugin never changes).  Nothing proved here depends on the way ties are
    broken, so the rounding is left open. *)
Variable qt_round : Q -> Q.

(** [QAbstractSpinBoxPrivate::bound] without wrapping. *)
Definition bound (s : SliderSpinBox) (v : Q) : Q :=
  let v1 := if PyNum.ltb v (minimum s) then minimum s else v in
  if PyNum.ltb (maximum s) v1 then maximum s else v1.

(** [QDoubleSpinBox::setValue]: round to the decimals, then bound. *)
Definition setValue (v : Q) (s : SliderSpinBox) : SliderSpinBox :=
  {| minimum := minimum s; maximum := maximum s; singleStep := singleStep s;
     value := bound s (qt_round v) |}.

(** [QDoubleSpinBox::setMaximum]: the minimum gives way to a smaller
    maximum, and the value is bound again. *)
Definition setMaximum (m : Q) (s : SliderSpinBox) : SliderSpinBox :=
  let m' := qt_round m in
  let s' := {| minimum := PyNum.py_min (minimum s) m'; maximum := m';
               singleStep := singleStep s; value := value s |} in
  {| minimum := minimum s'; maximum := maximum s'; singleStep := singleStep s;
     value := bound s' (value s) |}.

End Qt.

End Slider.

(** ** The slider widget, its own arithmetic

    [_updateValueFromMouse] divides, multiplies and rounds Python floats, so
    here the fields of the spin box are binary64 numbers and every operation
    is the correctly rounded one. *)
Module Widget.

Import PyFloat.

Record SliderSpinBox : Type := mkSlider {
  minimum : float;
  maximum : float;
  singleStep : float;
  value : float
}.

(** The exact value of a finite float. *)
Definition to_Q (x : float) : Q :=
  match x with
  | S754_finite s m e =>
      ((if s then inject_Z (Zneg m) else inject_Z (Zpos m)) * Qpower 2 e)%Q
  | _ => 0%Q
  end.

(** [round(x)] on a float, one argument: the int nearest the exact value of
    [x], a tie going to the even one; NaN and the infinities raise. *)
Definition round (x : float) : result Z :=
  match x with
  | S754_nan => Raise ValueError
  | S754_infinity _ => Raise OverflowError
  | _ => Ok (PyNum.round (to_Q x))
  end.

Definition is_zero (x : float) : bool :=
  match x with
  | S754_zero _ => true
  | _ => false
  end.

(** [a / b] on floats: a zero divisor raises, an overflow gives an
    infinity. *)
Definition float_truediv (a b : float) : result float :=
  if is_zero b then Raise ZeroDivisionError else Ok (truediv a b).

Section Qt.

(** How the spin box rounds a number to its [decimals]. *)
Variable qt_round : float -> float.

(** [QAbstractSpinBoxPrivate::bound] without wrapping; a comparison with
    NaN is false. *)
Definition bound (s : SliderSpinBox) (v : float) : float :=
  let v1 := if ltb v (minimum s) then minimum s else v in
  if ltb (maximum s) v1 then maximum s else v1.

(** [QDoubleSpinBox::setValue]: round to the decimals, then bound. *)
Definition setValue (v : float) (s : SliderSpinBox) : SliderSpinBox :=
  {| minimum := minimum s; maximum := maximum s; singleStep := singleStep s;
     value := bound s (qt_round v) |}.

(** The number [_updateValueFromMouse] hands to [setValue], for the mouse at
    [x] in a widget of width [width].  [x] and [width] are C ints, which
    [float] represents exactly, so that the quotient of the two floats is
    the quotient Python computes for the two ints. *)
Definition new_value_from_mouse (s : SliderSpinBox) (x width : Z) : result float :=
  if (width =? 0)%Z then Raise ZeroDivisionError
  else
    let ratio := py_max zero (py_min one (truediv (of_int x) (of_int width))) in
    let value_range := sub (maximum s) (minimum s) in
    let new_value := add (minimum s) (mul ratio value_range) in
    let* quotient := float_truediv new_value (singleStep s) in
    let* steps := round quotient in
    Ok (mul (of_int steps) (singleStep s)).

Definition _updateValueFromMouse (x width : Z) (s : SliderSpinBox)
  : result SliderSpinBox :=
  let* new_value := new_value_from_mouse s x width in
  Ok (setValue new_value s).

End Qt.

(** The interpolation [_updateValueFromMouse] starts from, and its quotient
    by the step. *)
Definition interpolation (s : SliderSpinBox) (x width : Z) : float :=
  add (minimum s)
      (mul (py_max zero (py_min one (truediv (of_int x) (of_int width))))
           (sub (maximum s) (minimum s))).

Definition step_quotient (s : SliderSpinBox) (x width : Z) : float :=
  truediv (interpolation s x width) (singleStep s).

End Widget.

(** ** The docker *)
Module Docker.

Import Slider.
Local Open Scope Q_scope.

(** What [QTimer.singleShot] can be asked to call later. *)
Inductive callback : Type :=
| Do_save_config
| Validate_max_brush_size.

(** The docker, with the part of the host it talks to about the brush size:
    [brushSize] is the size of the brush of the active view, [None] when
    there is no active view.  [timers] are the pending single shots, oldest
    first; [config_writes] are the values [_do_save_config] has written (or
    tried to write), newest first. *)
Record Docker : Type := mkDocker {
  max_brush_size : Q;
  last_brush_size : option Q;
  _pending_config_save : bool;
  size_slider : SliderSpinBox;
  timers : list callback;
  config_writes : list Q;
  brushSize : option Q
}.

Definition with_max (m : Q) (d : Docker) : Docker :=
  mkDocker m (last_brush_size d) (_pending_config_save d) (size_slider d)
           (timers d) (config_writes d) (brushSize d).

Definition with_last (l : option Q) (d : Docker) : Docker :=
  mkDocker (max_brush_size d) l (_pending_config_save d) (size_slider d)
           (timers d) (config_writes d) (brushSize d).

Definition with_pending (b : bool) (d : Docker) : Docker :=
  mkDocker (max_brush_size d) (last_brush_size d) b (size_slider d)
           (timers d) (config_writes d) (brushSize d).

Definition with_slider (s : SliderSpinBox) (d : Docker) : Docker :=
  mkDocker (max_brush_size d) (last_brush_size d) (_pending_config_save d) s
           (timers d) (config_writes d) (brushSize d).

Definition with_timers (t : list callback) (d : Docker) : Docker :=
  mkDocker (max_brush_size d) (last_brush_size d) (_pending_config_save d)
           (size_slider d) t (config_writes d) (brushSize d).

Definition with_writes (w : list Q) (d : Docker) : Docker :=
  mkDocker (max_brush_size d) (last_brush_size d) (_pending_config_save d)
           (size_slider d) (timers d) w (brushSize d).

Definition with_brushSize (b : option Q) (d : Docker) : Docker :=
  mkDocker (max_brush_size d) (last_brush_size d) (_pending_config_save d)
           (size_slider d) (timers d) (config_writes d) b.

(** [QTimer.singleShot(_, cb)] *)
Definition singleShot (cb : callback) (d : Docker) : Docker :=
  with_timers (timers d ++ [cb]) d.

Definition save_config (d : Docker) : Docker :=
  if negb (_pending_config_save d)
  then singleShot Do_save_config (with_pending true d)
  else d.

(** The write itself may fail with [IOError], which is caught; the attempt is
    recorded either way. *)
Definition _do_save_config (d : Docker) : Docker :=
  let d := with_pending false d in
  with_writes (max_brush_size d :: config_writes d) d.

(** *** Loading the configuration *)

(** A value that [json.load] can put under a key. *)
Inductive pyval : Type :=
| VNone
| VBool (b : bool)
| VNum (q : Q)
| VNaN
| VInf (negative : bool)
| VStr (s : string)
| VList
| VDict.

(** What [json.load] gives for the whole file. *)
Inductive json : Type :=
| JObject (d : list (string * pyval))
| JOther.

(** What is on disk: no file, a file that cannot be read or decoded, or a
    decoded file. *)
Inductive config_file : Type :=
| NoFile
| Unreadable (e : exn)          (* [open] or [json.load] raises [e] *)
| Loaded (j : json).

Fixpoint dict_get_default (key : string) (default : pyval)
    (d : list (string * pyval)) : pyval :=
  match d with
  | [] => default
  | (k, v) :: r =>
      if String.eqb k key then v else dict_get_default key default r
  end.

(** [max(100, min(10000, loaded_max))] on a loaded value.  A bool counts as
    0 or 1; NaN compares false with everything, so [min] keeps 10000; a
    value that is not a number makes the comparison raise [TypeError]. *)
Definition clamp_loaded (loaded_max : pyval) : result Q :=
  match loaded_max with
  | VNum q => Ok (PyNum.py_max 100 (PyNum.py_min 10000 q))
  | VBool b => Ok (PyNum.py_max 100 (PyNum.py_min 10000 (if b then 1 else 0)))
  | VNaN => Ok (PyNum.py_max 100 10000)
  | VInf false => Ok (PyNum.py_max 100 10000)
  | VInf true => Ok 100
  | VNone | VStr _ | VList | VDict => Raise TypeError
  end.

Definition load_config (file : config_file) (d : Docker) : result Docker :=
  let* d1 := match file with
        | NoFile => Ok d
        | Unreadable IOError | Unreadable JSONDecodeError => Ok (with_max 1000 d)
        | Unreadable e => Raise e
        | Loaded JOther => Raise AttributeError
        | Loaded (JObject config) =>
            let loaded_max := dict_get_default "max_brush_size" (VNum 1000) config in
            let* m := clamp_loaded loaded_max in
            Ok (with_max m d)
        end in
  Ok (singleShot Validate_max_brush_size d1).

(** *** Brush size *)
Section Size.

Variable qt_round : Q -> Q.

(** The slot of [size_slider.valueChanged]. *)
Definition on_size_slider_changed (value : Q) (d : Docker) : Docker :=
  match brushSize d with
  | Some _ => with_last (Some value) (with_brushSize (Some value) d)
  | None => d
  end.

(** [self.size_slider.setMaximum(m)], signals not blocked: when the bound
    moves the value, [valueChanged] runs its slot. *)
Definition size_slider_setMaximum (m : Q) (d : Docker) : Docker :=
  let s' := setMaximum qt_round m (size_slider d) in
  let d' := with_slider s' d in
  if Qeq_bool (value s') (value (size_slider d)) then d'
  else on_size_slider_changed (value s') d'.

Definition _validate_max_brush_size (d : Docker) : Docker :=
  match brushSize d with
  | None => d
  | Some current_size =>
      if negb (PyNum.ltb 1000 current_size) && PyNum.ltb 1000 (max_brush_size d)
      then
        save_config (size_slider_setMaximum 1000 (with_max 1000 d))
      else if PyNum.ltb (max_brush_size d) current_size then
        let new_max :=
          PyNum.py_min 10000 (PyNum.py_max 1000 (inject_Z (PyNum.int current_size))) in
        save_config (size_slider_setMaximum new_max (with_max new_max d))
      else d
  end.

Definition option_Q_neqb (o : option Q) (q : Q) : bool :=
  match o with
  | None => true
  | Some x => negb (Qeq_bool x q)
  end.

(** The first half of [_update_size_slider]: the maximum grows when needed. *)
Definition expand_max (size : Q) (d : Docker) : Docker :=
  if PyNum.ltb (max_brush_size d) size then
    let new_max :=
      PyNum.py_min 10000 (PyNum.py_max 100 (inject_Z (PyNum.int size))) in
    if negb (Qeq_bool new_max (max_brush_size d))
    then save_config (size_slider_setMaximum new_max (with_max new_max d))
    else d
  else d.

Definition clamp_size (d : Docker) (size : Q) : Q :=
  PyNum.py_max 1 (PyNum.py_min (max_brush_size d) size).

Definition _update_size_slider (size : option Q) (d : Docker) : Docker :=
  match size with
  | None => d
  | Some size =>
      let d1 := expand_max size d in
      let clamped_size := clamp_size d1 size in
      if option_Q_neqb (last_brush_size d1) clamped_size then
        (* signals blocked around setValue *)
        with_slider
          (setValue qt_round (inject_Z (PyNum.int clamped_size)) (size_slider d1))
          (with_last (Some clamped_size) d1)
      else d1
  end.

(** [_update_size_from_action], and the size half of
    [update_from_current_brush]. *)
Definition _update_size_from_action (d : Docker) : Docker :=
  match brushSize d with
  | None => d
  | Some size => _update_size_slider (Some size) d
  end.

(** [SliderSpinBox()] followed by [setRange(1, max_brush_size)] and
    [setSingleStep(1)], starting from Qt's defaults (range 0 to 99.99,
    value 0). *)
Definition new_size_slider (max_brush_size : Q) : SliderSpinBox :=
  let lo := qt_round 1 in
  let hi := qt_round max_brush_size in
  let s := {| minimum := lo; maximum := if PyNum.ltb lo hi then hi else lo;
              singleStep := 1; value := 0 |} in
  {| minimum := minimum s; maximum := maximum s; singleStep := 1;
     value := bound s 0 |}.

(** [__init__], as far as the brush size goes. *)
Definition init (file : config_file) (size : option Q) : result Docker :=
  let d0 := mkDocker 1000 None false (mkSlider 0 (9999 # 100) 1 0) [] [] size in
  let* d1 := load_config file d0 in
  let d2 := with_slider (new_size_slider (max_brush_size d1)) d1 in
  Ok (_update_size_from_action d2).

(** What can happen to a docker once it is built: a timer runs
    [_validate_max_brush_size] or [_do_save_config], the host reports a brush
    size, the slider is moved, the host changes the view or its brush. *)
Inductive op : Type :=
| Op_validate
| Op_update_size (size : option Q)
| Op_update_from_action
| Op_save_config
| Op_do_save_config
| Op_slider_changed (value : Q)
| Op_host (brush : option Q).

Definition apply_op (d : Docker) (o : op) : Docker :=
  match o with
  | Op_validate => _validate_max_brush_size d
  | Op_update_size size => _update_size_slider size d
  | Op_update_from_action => _update_size_from_action d
  | Op_save_config => save_config d
  | Op_do_save_config => _do_save_config d
  | Op_slider_changed v => on_size_slider_changed v d
  | Op_host b => with_brushSize b d
  end.

End Size.

(** *** The debounced save, as seen from the event loop *)

(** [save_config] is called, or the event loop lets the pending single shot
    of [_do_save_config] time out. *)
Inductive event : Type :=
| Save
| Timeout.

Definition is_save_timer (cb : callback) : bool :=
  match cb with
  | Do_save_config => true
  | Validate_max_brush_size => false
  end.

Definition scheduled_saves (d : Docker) : nat :=
  List.length (List.filter is_save_timer (timers d)).

Fixpoint remove_save_timer (t : list callback) : list callback :=
  match t with
  | [] => []
  | Do_save_config :: r => r
  | cb :: r => cb :: remove_save_timer r
  end.

(** The oldest pending [_do_save_config] runs; without one nothing happens. *)
Definition timeout (d : Docker) : Docker :=
  if (0 <? scheduled_saves d)%nat
  then _do_save_config (with_timers (remove_save_timer (timers d)) d)
  else d.

Definition step (d : Docker) (e : event) : Docker :=
  match e with
  | Save => save_config d
  | Timeout => timeout d
  end.

Definition run (trace : list event) (d : Docker) : Docker :=
  List.fold_left step trace d.

Definition is_Save (e : event) : bool :=
  match e with Save => true | Timeout => false end.

Definition saves (trace : list event) : nat :=
  List.length (List.filter is_Save trace).

Definition writes (d : Docker) : nat := List.length (config_writes d).

(** At most one [_do_save_config] is pending, and exactly when the flag is
    set. *)
Definition debounced (d : Docker) : Prop :=
  scheduled_saves d = if _pending_config_save d then 1%nat else 0%nat.

(** The docker and its size slider are in step: the maximum is the whole
    number [M], the slider runs from 1 to [M] and stands at the whole number
    [k], and the size remembered in [last_brush_size], if any, is one that
    the slider shows as [k]. *)
Definition in_step (d : Docker) (M k : Z) : Prop :=
  max_brush_size d = inject_Z M /\ (100 <= M <= 10000)%Z /\
  minimum (size_slider d) = 1 /\ maximum (size_slider d) = inject_Z M /\
  value (size_slider d) = inject_Z k /\ (1 <= k <= M)%Z /\
  (forall c, last_brush_size d = Some c -> k = PyNum.int c).

(** The maximum after [_update_size_slider(size)], from the maximum [M]
    before. *)
Definition expanded (M : Z) (size : Q) : Z :=
  if PyNum.ltb (inject_Z M) size
  then Z.min 10000 (Z.max 100 (PyNum.int size))
  else M.

(** Docker and slider agree, whatever the maximum: the maximal brush size
    is between 100 and 10000, the slider runs from 1 to that maximum as the
    spin box rounds it, its value is between 1 and the maximum, and it is
    the whole part of the size remembered, if one is. *)
Definition agrees (qt_round : Q -> Q) (d : Docker) : Prop :=
  100 <= max_brush_size d /\ max_brush_size d <= 10000 /\
  minimum (size_slider d) = 1 /\
  maximum (size_slider d) = qt_round (max_brush_size d) /\
  1 <= value (size_slider d) /\ value (size_slider d) <= max_brush_size d /\
  (forall c, last_brush_size d = Some c ->
             value (size_slider d) = inject_Z (PyNum.int c)).

(** The maximal brush size is where it should be. *)
Definition max_in_range (d : Docker) : Prop :=
  100 <= max_brush_size d /\ max_brush_size d <= 10000.

End Docker.

(** ** Hardness on the display scale *)
Module Display.

Import PyFloat.

(** [on_hardness_slider_changed]: [value / 100.0], for the slider at [value]. *)
Definition internal_value (value : float) : float := truediv value hundred.

(** [_update_hardness_slider]: [int(hardness_value * 100.0)]. *)
Definition display_value (hardness_value : float) : int_result :=
  to_int (mul hardness_value hundred).

(** From the slider to the brush and back. *)
Definition mirror (n : Z) : int_result :=
  display_value (internal_value (of_int n)).

Definition mirrored (n : Z) : bool :=
  match mirror n with
  | IntOk m => Z.eqb m n
  | _ => false
  end.

Definition percentages : list Z := List.map Z.of_nat (List.seq 0 101).

End Display.

(** ** A reference serialisation

    The theorems on the hardness assume of [ET.tostring] / [ET.fromstring]
    and of [str] / [float] only that reading back what was written gives the
    value written.  The functions below form one concrete pair with that
    property (a length-prefixed notation, not XML): they show that the
    assumption can be met and let the theorems be run on concrete presets. *)
Module RefCodec.

Import ET.

Definition reader (A : Type) : Type := string -> option (A * string).

Fixpoint write_nat (n : nat) : string :=
  match n with
  | O => "."
  | S k => String "a" (write_nat k)
  end.

Fixpoint read_nat (s : string) : option (nat * string) :=
  match s with
  | String c r =>
      if Ascii.eqb c "." then Some (O, r)
      else if Ascii.eqb c "a" then
        match read_nat r with
        | Some (n, t) => Some (S n, t)
        | None => None
        end
      else None
  | EmptyString => None
  end.

Fixpoint take (n : nat) (s : string) : option (string * string) :=
  match n with
  | O => Some ("", s)
  | S k =>
      match s with
      | String c r =>
          match take k r with
          | Some (a, b) => Some (String c a, b)
          | None => None
          end
      | EmptyString => None
      end
  end.

Definition write_str (x : string) : string :=
  write_nat (String.length x) ++ x.

Definition read_str : reader string :=
  fun s =>
    match read_nat s with
    | Some (n, r) => take n r
    | None => None
    end.

Fixpoint write_many {A : Type} (wr : A -> string) (l : list A) : string :=
  match l with
  | [] => ""
  | a :: r => wr a ++ write_many wr r
  end.

Fixpoint read_many {A : Type} (rd : reader A) (n : nat) (s : string)
  : option (list A * string) :=
  match n with
  | O => Some ([], s)
  | S k =>
      match rd s with
      | Some (a, s1) =>
          match read_many rd k s1 with
          | Some (l, s2) => Some (a :: l, s2)
          | None => None
          end
      | None => None
      end
  end.

Definition write_attr (kv : string * string) : string :=
  write_str (fst kv) ++ write_str (snd kv).

Definition read_attr : reader (string * string) :=
  fun s =>
    match read_str s with
    | Some (k, s1) =>
        match read_str s1 with
        | Some (v, s2) => Some ((k, v), s2)
        | None => None
        end
    | None => None
    end.

Fixpoint write_elem (e : Element) : string :=
  match e with
  | Elem t a x cs =>
      write_str t ++ write_nat (List.length a) ++ write_many write_attr a
      ++ write_str x ++ write_nat (List.length cs)
      ++ (fix go (l : list Element) : string :=
            match l with
            | [] => ""
            | c :: r => write_elem c ++ go r
            end) cs
  end.

Fixpoint read_elem (fuel : nat) (s : string) : option (Element * string) :=
  match fuel with
  | O => None
  | S f =>
      match read_str s with
      | Some (t, s1) =>
      match read_nat s1 with
      | Some (n, s2) =>
      match read_many read_attr n s2 with
      | Some (a, s3) =>
      match read_str s3 with
      | Some (x, s4) =>
      match read_nat s4 with
      | Some (k, s5) =>
      match read_many (read_elem f) k s5 with
      | Some (cs, s6) => Some (Elem t a x cs, s6)
      | None => None end
      | None => None end
      | None => None end
      | None => None end
      | None => None end
      | None => None end
  end.

Fixpoint depth (e : Element) : nat :=
  match e with
  | Elem _ _ _ cs => S (list_max (List.map depth cs))
  end.

(** The text starts with the nesting depth of the tree, which the reader
    uses as the bound of its recursion. *)
Definition tostring (e : Element) : string :=
  write_nat (depth e) ++ write_elem e.

Definition fromstring (s : string) : option Element :=
  match read_nat s with
  | Some (d, r) =>
      match read_elem d r with
      | Some (e, EmptyString) => Some e
      | _ => None
      end
  | None => None
  end.

(** Floats: a letter for the class, the sign, and the binary digits of the
    mantissa and of the exponent. *)
Fixpoint write_pos (p : positive) : string :=
  match p with
  | xH => "."
  | xO q => String "0" (write_pos q)
  | xI q => String "1" (write_pos q)
  end.

Fixpoint read_pos (s : string) : option (positive * string) :=
  match s with
  | String c r =>
      if Ascii.eqb c "." then Some (xH, r)
      else if Ascii.eqb c "0" then
        match read_pos r with Some (p, t) => Some (xO p, t) | None => None end
      else if Ascii.eqb c "1" then
        match read_pos r with Some (p, t) => Some (xI p, t) | None => None end
      else None
  | EmptyString => None
  end.

Definition write_bool (b : bool) : string := if b then "-" else "+".

Definition read_bool (s : string) : option (bool * string) :=
  match s with
  | String c r =>
      if Ascii.eqb c "-" then Some (true, r)
      else if Ascii.eqb c "+" then Some (false, r)
      else None
  | EmptyString => None
  end.

Definition write_Z (z : Z) : string :=
  match z with
  | Z0 => "z"
  | Zpos p => String "p" (write_pos p)
  | Zneg p => String "n" (write_pos p)
  end.

Definition read_Z (s : string) : option (Z * string) :=
  match s with
  | String c r =>
      if Ascii.eqb c "z" then Some (Z0, r)
      else if Ascii.eqb c "p" then
        match read_pos r with Some (p, t) => Some (Zpos p, t) | None => None end
      else if Ascii.eqb c "n" then
        match read_pos r with Some (p, t) => Some (Zneg p, t) | None => None end
      else None
  | EmptyString => None
  end.

Definition str (x : PyFloat.float) : string :=
  match x with
  | S754_nan => "N"
  | S754_infinity s => String "I" (write_bool s)
  | S754_zero s => String "Z" (write_bool s)
  | S754_finite s m e => String "F" (write_bool s ++ write_pos m ++ write_Z e)
  end.

Definition float_of_str (s : string) : option PyFloat.float :=
  match s with
  | String c r =>
      if Ascii.eqb c "N" then
        match r with EmptyString => Some S754_nan | _ => None end
      else if Ascii.eqb c "I" then
        match read_bool r with
        | Some (b, EmptyString) => Some (S754_infinity b)
        | _ => None
        end
      else if Ascii.eqb c "Z" then
        match read_bool r with
        | Some (b, EmptyString) => Some (S754_zero b)
        | _ => None
        end
      else if Ascii.eqb c "F" then
        match read_bool r with
        | Some (b, r1) =>
            match read_pos r1 with
            | Some (m, r2) =>
                match read_Z r2 with
                | Some (e, EmptyString) => Some (S754_finite b m e)
                | _ => None
                end
            | None => None
            end
        | None => None
        end
      else None
  | EmptyString => None
  end.

End RefCodec.

(** ** Sample presets

    Small presets in the reference serialisation, on which the functions are
    run. *)
Module Sample.

Import ET.

Definition mask : Element :=
  Elem "MaskGenerator" [("type", "circle"); ("hfade", "old")] "" [].

Definition brushdef : Element :=
  Elem "Brush" [("type", "auto_brush"); ("spacing", "0.1")] "" [mask].

Definition paintop_param : Element :=
  Elem "param" [("name", "paintop")] "paintbrush" [].

Definition brush_param : Element :=
  Elem "param" [("name", "brush_definition")] (RefCodec.tostring brushdef) [].

(** A [brush_definition] whose text is not a document of the reference
    serialisation. *)
Definition broken_param : Element :=
  Elem "param" [("name", "brush_definition")] "<Brush" [].

Definition preset : Element :=
  Elem "Preset" [("name", "b) Basic-1")] "" [paintop_param; brush_param].

Definition broken_preset : Element :=
  Elem "Preset" [("name", "b) Basic-1")] "" [broken_param; brush_param].

Definition plain_preset : Element :=
  Elem "Preset" [("name", "pixel")] "" [paintop_param].

Definition view : View := mkView (RefCodec.tostring preset) [].
Definition broken_view : View := mkView (RefCodec.tostring broken_preset) [].
Definition plain_view : View := mkView (RefCodec.tostring plain_preset) [].

(** A brush definition with no [MaskGenerator] element: its only other
    element has a longer tag.  And a preset with that definition. *)
Definition other_node : Element := Elem "NotAMaskGenerator" [] "" [].

Definition other_brushdef : Element :=
  Elem "Brush" [("type", "auto_brush")] "" [other_node].

Definition other_param : Element :=
  Elem "param" [("name", "brush_definition")]
       (RefCodec.tostring other_brushdef) [].

Definition other_preset : Element :=
  Elem "Preset" [("name", "c) Pencil-1")] "" [other_param].

Definition other_view : View := mkView (RefCodec.tostring other_preset) [].

(** The hardness slider as [__init__] sets it up, and a docker for a brush
    of 40 px with the default maximum. *)
Definition hardness_slider : Slider.SliderSpinBox :=
  Slider.mkSlider (0 # 1) (100 # 1) (1 # 1) (0 # 1).

Definition exact (q : Q) : Q := q.

(** The same slider with its binary64 fields, a slider whose range is wider
    than the largest float, and a spin box rounding that leaves its argument
    as it is (the case for the numbers with at most two decimals). *)
Definition hardness_widget : Widget.SliderSpinBox :=
  Widget.mkSlider PyFloat.zero PyFloat.hundred PyFloat.one PyFloat.zero.

Definition wide_widget : Widget.SliderSpinBox :=
  Widget.mkSlider (PyFloat.of_int (- 2 ^ 1023)) (PyFloat.of_int (2 ^ 1023))
                  PyFloat.one PyFloat.zero.

Definition same (v : PyFloat.float) : PyFloat.float := v.

Definition docker : Docker.Docker :=
  Docker.mkDocker (1000 # 1) (Some (40 # 1)) false
    (Slider.mkSlider (1 # 1) (1000 # 1) (1 # 1) (40 # 1)) [] []
    (Some (40 # 1)).

(** The same docker when the configuration file gave 2500.5 as the maximal
    brush size. *)
Definition fractional_docker : Docker.Docker :=
  Docker.mkDocker (5001 # 2) (Some (40 # 1)) false
    (Slider.mkSlider (1 # 1) (5001 # 2) (1 # 1) (40 # 1)) [] []
    (Some (40 # 1)).

(** A configuration left by a session with a very large brush, a brush of
    2500.5 px, and the docker that [__init__] builds from them. *)
Definition big_config : Docker.config_file :=
  Docker.Loaded (Docker.JObject [("max_brush_size", Docker.VNum (50000 # 1))]).

Definition started : Docker.Docker :=
  match Docker.init exact big_config (Some (5001 # 2)) with
  | Ok d => d
  | Raise _ => docker
  end.

Definition session : list Docker.op :=
  [Docker.Op_validate; Docker.Op_update_size (Some (20000 # 1));
   Docker.Op_host (Some (3 # 1)); Docker.Op_validate;
   Docker.Op_do_save_config].

Definition saving : list Docker.event :=
  [Docker.Save; Docker.Save; Docker.Timeout; Docker.Timeout; Docker.Save].

(** 7.0, which the clamp brings down to 1.0. *)
Definition seven : PyFloat.float := PyFloat.of_int 7.

End Sample.

(** ** The hardness slider and the brush

    The hardness slider runs from 0 to 100 in steps of 1, so that the value
    its [valueChanged] signal carries is a whole number. *)
Module HardnessSync.

Import PyFloat Slider.

Record HardnessDocker : Type := mkHardness {
  last_hardness : option Z;
  hardness_slider : SliderSpinBox;
  active_view : option View
}.

Section Sync.

Variable fromstring : string -> option ET.Element.
Variable tostring : ET.Element -> string.
Variable str : float -> string.
Variable float_of_str : string -> option float.
Variable qt_round : Q -> Q.

(** The slot of [hardness_slider.valueChanged]. *)
Definition on_hardness_slider_changed (value : Z) (h : HardnessDocker)
  : HardnessDocker :=
  let internal_value := Display.internal_value (of_int value) in
  {| last_hardness := Some value;
     hardness_slider := hardness_slider h;
     active_view :=
       _set_brush_hardness fromstring tostring str internal_value
         (active_view h) |}.

Definition option_Z_neqb (o : option Z) (n : Z) : bool :=
  match o with
  | None => true
  | Some m => negb (Z.eqb m n)
  end.

(** [_update_hardness_slider]; [int] raises on NaN and on the infinities,
    and nothing catches that. *)
Definition _update_hardness_slider (hardness_value : option float)
    (h : HardnessDocker) : result HardnessDocker :=
  match hardness_value with
  | None => Ok h
  | Some x =>
      match Display.display_value x with
      | IntValueError => Raise ValueError
      | IntOverflowError => Raise OverflowError
      | IntOk display_value =>
          if option_Z_neqb (last_hardness h) display_value then
            (* signals blocked around setValue *)
            Ok {| last_hardness := Some display_value;
                  hardness_slider :=
                    setValue qt_round (inject_Z display_value)
                      (hardness_slider h);
                  active_view := active_view h |}
          else Ok h
      end
  end.

(** The hardness half of [update_from_current_brush]. *)
Definition update_hardness_from_brush (h : HardnessDocker)
  : result HardnessDocker :=
  match active_view h with
  | None => Ok h
  | Some _ =>
      let* hardness_value :=
        _get_brush_hardness fromstring float_of_str (active_view h) in
      match hardness_value with
      | Some x => _update_hardness_slider (Some x) h
      | None => Ok h
      end
  end.

End Sync.

End HardnessSync.

(** ** The debounce of the brush size actions *)
Module ActionDebounce.

Import Docker.

(** The docker with its [_action_debounce_timer]: [None] before the
    attribute exists, then whether the timer is active.  [updates] counts
    the runs of [_update_size_from_action]. *)
Record ActionDocker : Type := mkAction {
  docker : Docker;
  _action_debounce_timer : option bool;
  updates : nat
}.

Section Actions.

Variable qt_round : Q -> Q.

Definition stop_if_active (t : option bool) : option bool :=
  match t with
  | Some true => Some false
  | _ => t
  end.

Definition create_if_missing (t : option bool) : option bool :=
  match t with
  | None => Some false
  | _ => t
  end.

Definition start (t : option bool) : option bool :=
  match t with
  | Some _ => Some true
  | None => None
  end.

(** [_on_brush_size_action_triggered]: an active timer is stopped, a missing
    one is created, and the timer is started. *)
Definition _on_brush_size_action_triggered (a : ActionDocker) : ActionDocker :=
  {| docker := docker a;
     _action_debounce_timer :=
       start (create_if_missing (stop_if_active (_action_debounce_timer a)));
     updates := updates a |}.

(** The timer runs out: a single shot timer that is active stops and calls
    [_update_size_from_action]. *)
Definition timer_elapsed (a : ActionDocker) : ActionDocker :=
  match _action_debounce_timer a with
  | Some true =>
      {| docker := _update_size_from_action qt_round (docker a);
         _action_debounce_timer := Some false;
         updates := S (updates a) |}
  | _ => a
  end.

Inductive action_event : Type :=
| Triggered
| Elapsed.

Definition action_step (a : ActionDocker) (e : action_event) : ActionDocker :=
  match e with
  | Triggered => _on_brush_size_action_triggered a
  | Elapsed => timer_elapsed a
  end.

Definition action_run (trace : list action_event) (a : ActionDocker)
  : ActionDocker :=
  List.fold_left action_step trace a.

Definition is_Triggered (e : action_event) : bool :=
  match e with Triggered => true | Elapsed => false end.

(** 1 when the timer is active, so that an update is still to come. *)
Definition may_fire (a : ActionDocker) : nat :=
  match _action_debounce_timer a with
  | Some true => 1
  | _ => 0
  end.

End Actions.

End ActionDebounce.

(** ** The configuration on disk *)
Module Persist.

Import Docker.

(** What [json.load] reads from the file that [_do_save_config] wrote for
    the maximum [m]. *)
Definition config_of (m : Q) : config_file :=
  Loaded (JObject [("max_brush_size", VNum m)]).

(** Every maximum written so far is where it should be. *)
Definition written_in_range (d : Docker) : Prop :=
  Forall (fun m => (100 <= m /\ m <= 10000)%Q) (config_writes d).

(** A loaded value that the comparisons of [load_config] accept. *)
Definition is_number (v : pyval) : bool :=
  match v with
  | VBool _ | VNum _ | VNaN | VInf _ => true
  | VNone | VStr _ | VList | VDict => false
  end.

End Persist.

(** ** More samples *)
Module MoreSamples.

Import ET.

Definition inner_mask : Element :=
  Elem "MaskGenerator" [("hfade", "0.25")] "" [].

Definition outer_mask : Element :=
  Elem "MaskGenerator" [("hfade", "0.75")] "" [].

Definition shape : Element := Elem "Shape" [] "" [inner_mask].

(** The first child holds a mask generator deeper down, the second child
    is one. *)
Definition nested_brushdef : Element :=
  Elem "Brush" [("type", "auto_brush")] "" [shape; outer_mask].

(** Only a grandchild is a mask generator. *)
Definition deep_brushdef : Element :=
  Elem "Brush" [("type", "auto_brush")] "" [shape; Elem "Texture" [] "" []].

(** The root carries the qualified tag itself. *)
Definition root_brushdef : Element :=
  Elem "ns0:MaskGenerator" [("type", "auto_brush"); ("hfade", "0.5")] ""
       [Elem "Curve" [] "" []].

(** A preset whose hardness is the text that the reference [float_of_str]
    reads as NaN. *)
Definition nan_mask : Element := Elem "MaskGenerator" [("hfade", "N")] "" [].

Definition nan_brushdef : Element :=
  Elem "Brush" [("type", "auto_brush")] "" [nan_mask].

Definition nan_param : Element :=
  Elem "param" [("name", "brush_definition")]
       (RefCodec.tostring nan_brushdef) [].

Definition nan_preset : Element := Elem "Preset" [] "" [nan_param].

Definition nan_view : View := mkView (RefCodec.tostring nan_preset) [].

Definition hardness_docker : HardnessSync.HardnessDocker :=
  HardnessSync.mkHardness None Sample.hardness_slider (Some Sample.view).

Definition nan_docker : HardnessSync.HardnessDocker :=
  HardnessSync.mkHardness None Sample.hardness_slider (Some nan_view).

(** The sample preset after the write of [Sample.seven]. *)
Definition written_preset : Element :=
  update [1%nat]
    (set_text
       (RefCodec.tostring
          (update [0%nat] (set_fades RefCodec.str (clamp01 Sample.seven))
             Sample.brushdef)))
    Sample.preset.

End MoreSamples.

(** * Theorems *)

(** ** The display conversion *)

(** C9 (as the code runs): at 29 percent the conversion to the internal scale
    and back gives 28, because [29 / 100.0 * 100.0] is the float just below
    29 and [int] truncates. *)
Theorem display_mirror_29 : Display.mirror 29 = PyFloat.IntOk 28.
Proof. vm_compute. reflexivity. Qed.

(** The percentages between 0 and 100 that do not come back are exactly 29,
    57 and 58. *)
Lemma display_not_mirrored :
  List.filter (fun n => negb (Display.mirrored n)) Display.percentages
  = [29; 57; 58]%Z.
Proof. vm_compute. reflexivity. Qed.

(** ** The element tree *)
Module ETFacts.

Import ET.

Lemma iter_unfold (e : Element) :
  iter e = ([], e) :: iter_forest 0 (children e).
Proof. destruct e; reflexivity. Qed.

Lemma in_iter_forest (k : nat) (cs : list Element) (n : path * Element) :
  In n (iter_forest k cs) <->
  exists i c q, nth_error cs i = Some c /\ In (q, snd n) (iter c)
                /\ fst n = (k + i)%nat :: q.
Proof.
  revert k. induction cs as [|c r IH]; intro k; simpl.
  - split; [tauto|]. intros (i & c & q & H & _). destruct i; discriminate.
  - rewrite in_app_iff, in_map_iff, IH. split.
    + intros [((q, y) & <- & Hin) | (i & c' & q & Hn & Hin & Hp)].
      * exists 0%nat, c, q. simpl. rewrite Nat.add_0_r. auto.
      * exists (S i), c', q. simpl. rewrite Hp.
        repeat split; auto. f_equal. lia.
    + intros (i & c' & q & Hn & Hin & Hp). destruct i as [|i]; simpl in Hn.
      * injection Hn as <-. left. exists (q, snd n). split; auto.
        unfold under. simpl. destruct n as [p y]. simpl in *.
        rewrite Hp, Nat.add_0_r. reflexivity.
      * right. exists i, c', q. repeat split; auto. rewrite Hp. f_equal. lia.
Qed.

(** [iter] lists exactly the nodes of the tree, each with its place. *)
Lemma in_iter_subtree (e : Element) :
  forall p x, In (p, x) (iter e) <-> subtree p e = Some x.
Proof.
  induction e as [t a x cs IH] using Element_forall. intros p y.
  rewrite iter_unfold. simpl children. simpl In. rewrite in_iter_forest. simpl.
  split.
  - intros [H | (i & c & q & Hn & Hin & Hp)].
    + injection H as <- <-. reflexivity.
    + subst p. simpl. rewrite Hn.
      rewrite Forall_forall in IH. apply (IH c); eauto using nth_error_In.
  - destruct p as [|i q]; simpl.
    + intros H. injection H as <-. left. reflexivity.
    + destruct (nth_error cs i) as [c|] eqn:Hn; [|discriminate].
      intros H. right. exists i, c, q. repeat split; auto.
      rewrite Forall_forall in IH. apply (IH c); eauto using nth_error_In.
Qed.

Lemma in_number_from {A : Type} (l : list A) :
  forall k i a, In (i, a) (number_from k l) <->
                (k <= i)%nat /\ nth_error l (i - k) = Some a.
Proof.
  induction l as [|b r IH]; intros k i a; simpl.
  - split; [tauto|]. intros [_ H]. destruct (i - k)%nat; discriminate.
  - rewrite IH. split.
    + intros [H | [Hle Hn]].
      * injection H as <- <-. rewrite Nat.sub_diag. auto.
      * split; [lia|]. replace (i - k)%nat with (S (i - S k)) by lia. exact Hn.
    + intros [Hle Hn]. destruct (i - k)%nat as [|j] eqn:Hj; simpl in Hn.
      * left. injection Hn as <-. f_equal. lia.
      * right. split; [lia|]. replace (i - S k)%nat with j by lia. exact Hn.
Qed.

(** A direct child is a node of the tree, and not its root. *)
Lemma in_child_nodes (e : Element) (n : path * Element) :
  In n (child_nodes e) ->
  exists i, fst n = [i] /\ nth_error (children e) i = Some (snd n).
Proof.
  unfold child_nodes. rewrite in_map_iff.
  intros ((i, c) & <- & Hin). apply in_number_from in Hin as [_ Hn].
  rewrite Nat.sub_0_r in Hn. exists i. auto.
Qed.

Lemma child_nodes_subtree (e : Element) (n : path * Element) :
  In n (child_nodes e) -> subtree (fst n) e = Some (snd n) /\ fst n <> [].
Proof.
  intros H. apply in_child_nodes in H as (i & Hp & Hn).
  rewrite Hp. simpl. rewrite Hn. split; [reflexivity | discriminate].
Qed.

Lemma in_tl_iter (e : Element) (p : path) (x : Element) :
  In (p, x) (List.tl (iter e)) <-> subtree p e = Some x /\ p <> [].
Proof.
  rewrite iter_unfold. simpl List.tl. rewrite in_iter_forest. simpl. split.
  - intros (i & c & q & Hn & Hin & ->). simpl. rewrite Hn.
    apply in_iter_subtree in Hin. split; [assumption | discriminate].
  - intros [H Hp]. destruct p as [|i q]; [congruence|]. simpl in H.
    destruct (nth_error (children e) i) as [c|] eqn:Hn; [|discriminate].
    exists i, c, q. rewrite in_iter_subtree. auto.
Qed.

End ETFacts.

(** ** Finding the mask generator *)
Section FindMaskGenerator.

Import ET ETFacts.

Lemma has_tag_ends_with (n : path * Element) :
  has_tag "MaskGenerator" n = true -> ends_with_MaskGenerator n = true.
Proof.
  unfold has_tag, ends_with_MaskGenerator. intros H.
  apply String.eqb_eq in H. rewrite H. reflexivity.
Qed.

Lemma find_mask_generator_sound (brushdef : Element) (p : path) (x : Element) :
  _find_mask_generator brushdef = Some (p, x) ->
  subtree p brushdef = Some x /\ endswith (tag x) "MaskGenerator" = true.
Proof.
  unfold _find_mask_generator.
  destruct (find "MaskGenerator" brushdef) as [n|] eqn:H1.
  - intros H. injection H as ->. apply find_some in H1 as [Hin Ht].
    apply child_nodes_subtree in Hin as [Hs _].
    split; [exact Hs | exact (has_tag_ends_with _ Ht)].
  - destruct (find_descendant "MaskGenerator" brushdef) as [n|] eqn:H2.
    + intros H. injection H as ->. apply find_some in H2 as [Hin Ht].
      apply in_tl_iter in Hin as [Hs _].
      split; [exact Hs | exact (has_tag_ends_with _ Ht)].
    + intros H. apply find_some in H as [Hin Ht].
      apply in_iter_subtree in Hin. split; assumption.
Qed.

Lemma find_mask_generator_none (brushdef : Element) :
  _find_mask_generator brushdef = None <->
  forall p x, subtree p brushdef = Some x ->
              endswith (tag x) "MaskGenerator" = false.
Proof.
  split.
  - unfold _find_mask_generator.
    destruct (find "MaskGenerator" brushdef); [discriminate|].
    destruct (find_descendant "MaskGenerator" brushdef); [discriminate|].
    intros H p x Hs. apply in_iter_subtree in Hs.
    exact (find_none _ _ H _ Hs).
  - intros Hall. destruct (_find_mask_generator brushdef) as [[p x]|] eqn:H;
      [|reflexivity].
    apply find_mask_generator_sound in H as [Hs Ht].
    rewrite (Hall _ _ Hs) in Ht. discriminate.
Qed.

Lemma find_mask_generator_exact (brushdef : Element) (p : path) (x : Element) :
  p <> [] -> subtree p brushdef = Some x -> tag x = "MaskGenerator" ->
  exists q y, _find_mask_generator brushdef = Some (q, y) /\ q <> []
              /\ subtree q brushdef = Some y /\ tag y = "MaskGenerator".
Proof.
  intros Hp Hs Ht. unfold _find_mask_generator.
  destruct (find "MaskGenerator" brushdef) as [[q y]|] eqn:H1.
  - apply find_some in H1 as [Hin Htag].
    apply child_nodes_subtree in Hin as [Hsub Hne].
    exists q, y. repeat split; auto. apply String.eqb_eq. exact Htag.
  - destruct (find_descendant "MaskGenerator" brushdef) as [[q y]|] eqn:H2.
    + apply find_some in H2 as [Hin Htag].
      apply in_tl_iter in Hin as [Hsub Hne].
      exists q, y. repeat split; auto. apply String.eqb_eq. exact Htag.
    + exfalso.
      assert (Hin : In (p, x) (List.tl (iter brushdef)))
        by (apply in_tl_iter; auto).
      pose proof (find_none _ _ H2 _ Hin) as Hf.
      unfold has_tag in Hf. simpl in Hf. rewrite Ht in Hf. discriminate.
Qed.

(** C3 (amended).  [_find_mask_generator] is a total function (it cannot raise: every
    tag is a string).  What it returns is a node of the tree whose tag ends
    with [MaskGenerator]; it returns [None] exactly when the tree, root
    included, has no such node; and when some proper descendant, at whatever
    depth, is tagged [MaskGenerator] exactly, the node returned is a proper
    descendant tagged [MaskGenerator] exactly. *)
Theorem find_mask_generator_spec :
  forall brushdef : Element,
    (forall p x, _find_mask_generator brushdef = Some (p, x) ->
       subtree p brushdef = Some x /\ endswith (tag x) "MaskGenerator" = true)
    /\ (_find_mask_generator brushdef = None <->
        forall p x, subtree p brushdef = Some x ->
                    endswith (tag x) "MaskGenerator" = false)
    /\ (forall p x, p <> [] -> subtree p brushdef = Some x ->
                    tag x = "MaskGenerator" ->
        exists q y, _find_mask_generator brushdef = Some (q, y) /\ q <> []
                    /\ subtree q brushdef = Some y /\ tag y = "MaskGenerator").
Proof.
  intros brushdef. split; [|split].
  - apply find_mask_generator_sound.
  - apply find_mask_generator_none.
  - apply find_mask_generator_exact.
Qed.

End FindMaskGenerator.

(** ** Replacing a node *)
Module UpdateFacts.

Import ET ETFacts.

Lemma dict_get_set_same (k v : string) (d : list (string * string)) :
  dict_get k (dict_set k v d) = Some v.
Proof.
  induction d as [|[k' v'] r IH]; simpl.
  - rewrite String.eqb_refl. reflexivity.
  - destruct (String.eqb k' k) eqn:E; simpl; rewrite E; auto.
Qed.

Lemma dict_get_set_other (k k' v : string) (d : list (string * string)) :
  k <> k' -> dict_get k' (dict_set k v d) = dict_get k' d.
Proof.
  intros Hne. induction d as [|[k0 v0] r IH]; simpl.
  - destruct (String.eqb k k') eqn:E; [|reflexivity].
    apply String.eqb_eq in E. contradiction.
  - destruct (String.eqb k0 k) eqn:E; simpl.
    + apply String.eqb_eq in E. subst k0.
      destruct (String.eqb k k') eqn:E'; [|reflexivity].
      apply String.eqb_eq in E'. contradiction.
    + rewrite IH. reflexivity.
Qed.

Lemma get_set_same (k v : string) (e : Element) : get (set k v e) k = Some v.
Proof. destruct e. apply dict_get_set_same. Qed.

Lemma get_set_other (k k' v : string) (e : Element) :
  k <> k' -> get (set k v e) k' = get e k'.
Proof. destruct e. apply dict_get_set_other. Qed.

Lemma tag_set (k v : string) (e : Element) : tag (set k v e) = tag e.
Proof. destruct e; reflexivity. Qed.

Lemma children_set (k v : string) (e : Element) :
  children (set k v e) = children e.
Proof. destruct e; reflexivity. Qed.

Lemma nth_error_update_nth {A : Type} (g : A -> A) (l : list A) :
  forall i, nth_error (update_nth i g l) i = option_map g (nth_error l i).
Proof.
  induction l as [|a r IH]; intros [|i]; simpl; auto.
Qed.

Lemma nth_error_update_nth_other {A : Type} (g : A -> A) (l : list A) :
  forall i j, i <> j -> nth_error (update_nth i g l) j = nth_error l j.
Proof.
  induction l as [|a r IH]; intros [|i] [|j] H; simpl; auto; congruence.
Qed.

Lemma subtree_update (f : Element -> Element) (p : path) :
  forall e x, subtree p e = Some x -> subtree p (update p f e) = Some (f x).
Proof.
  induction p as [|i q IH]; intros e x H; simpl in *.
  - congruence.
  - destruct e as [t a y cs]. simpl in *. rewrite nth_error_update_nth.
    destruct (nth_error cs i) as [c|]; [|discriminate]. simpl. auto.
Qed.

Section Shape.

(** [f] changes neither the tag nor the children of a node. *)
Variable f : Element -> Element.
Hypothesis f_tag : forall x, tag (f x) = tag x.
Hypothesis f_children : forall x, children (f x) = children x.

Set Default Proof Using "f_tag f_children".

Lemma tag_update (p : path) (e : Element) : tag (update p f e) = tag e.
Proof. destruct p, e; simpl; auto. Qed.

Lemma key_under (k : nat) (l l' : list (path * Element)) :
  List.map key l = List.map key l' ->
  List.map key (List.map (under k) l) = List.map key (List.map (under k) l').
Proof.
  revert l'. induction l as [|n r IH]; intros [|n' r'] H; simpl in *;
    try discriminate; auto.
  assert (Hk : key n = key n') by congruence.
  assert (Hr : List.map key r = List.map key r') by congruence.
  f_equal; [|auto].
  unfold key, under in *. simpl. destruct n, n'; simpl in *. congruence.
Qed.

Lemma key_iter_forest (g : Element -> Element) (cs : list Element) :
  (forall c, List.map key (iter (g c)) = List.map key (iter c)) ->
  forall i k, List.map key (iter_forest k (update_nth i g cs))
              = List.map key (iter_forest k cs).
Proof.
  intros Hg. induction cs as [|c r IH]; intros [|i] k; simpl; auto.
  - rewrite !map_app. f_equal. apply key_under, Hg.
  - rewrite !map_app. f_equal. apply IH.
Qed.

Lemma key_iter_update (p : path) :
  forall e, List.map key (iter (update p f e)) = List.map key (iter e).
Proof.
  induction p as [|i q IH]; intros e.
  - simpl update. rewrite !iter_unfold. simpl. unfold key at 1 3. simpl.
    rewrite f_tag, f_children. reflexivity.
  - destruct e as [t a x cs]. simpl update. rewrite !iter_unfold. simpl.
    f_equal. apply key_iter_forest. exact IH.
Qed.

Lemma key_number_from (g : Element -> Element) (cs : list Element) :
  (forall c, tag (g c) = tag c) ->
  forall i k,
    List.map (fun ic => (fst ic, tag (snd ic))) (number_from k (update_nth i g cs))
    = List.map (fun ic => (fst ic, tag (snd ic))) (number_from k cs).
Proof.
  intros Hg. induction cs as [|c r IH]; intros [|i] k; simpl; auto.
  - rewrite Hg. reflexivity.
  - f_equal. apply IH.
Qed.

Lemma key_child_nodes_update (p : path) (e : Element) :
  List.map key (child_nodes (update p f e)) = List.map key (child_nodes e).
Proof.
  unfold child_nodes. rewrite !map_map. unfold key. simpl.
  destruct p as [|i q].
  - simpl. rewrite f_children. reflexivity.
  - destruct e as [t a x cs]. simpl.
    pose proof (key_number_from (update q f) cs (tag_update q) i 0) as H.
    apply (f_equal (List.map (fun it : nat * string => ([fst it], snd it)))) in H.
    rewrite !map_map in H. exact H.
Qed.

(** A search that looks only at places and tags finds the same place in
    two lists that agree on places and tags. *)
Lemma find_key (pred : path * Element -> bool) (pk : path * string -> bool)
    (l l' : list (path * Element)) :
  (forall n, pred n = pk (key n)) ->
  List.map key l = List.map key l' ->
  option_map key (List.find pred l) = option_map key (List.find pred l').
Proof.
  intros Hpred. revert l'.
  induction l as [|n r IH]; intros [|n' r'] H; try discriminate; auto.
  cbn [List.map] in H.
  assert (Hk : key n = key n') by congruence.
  assert (Hr : List.map key r = List.map key r') by congruence.
  cbn [List.find]. rewrite !Hpred, Hk.
  destruct (pk (key n')); cbn [option_map]; auto.
  f_equal. exact Hk.
Qed.

Lemma find_mask_generator_update_key (p : path) (e : Element) :
  option_map key (_find_mask_generator (update p f e))
  = option_map key (_find_mask_generator e).
Proof.
  unfold _find_mask_generator, find, find_descendant.
  pose proof (find_key (has_tag "MaskGenerator")
                (fun k => String.eqb (snd k) "MaskGenerator") _ _
                (fun n => eq_refl) (key_child_nodes_update p e)) as H1.
  assert (Htl : List.map key (List.tl (iter (update p f e)))
                = List.map key (List.tl (iter e))).
  { pose proof (key_iter_update p e) as Hi.
    destruct (iter (update p f e)), (iter e); cbn [List.map List.tl] in *;
      congruence. }
  pose proof (find_key (has_tag "MaskGenerator")
                (fun k => String.eqb (snd k) "MaskGenerator") _ _
                (fun n => eq_refl) Htl) as H2.
  pose proof (find_key ends_with_MaskGenerator
                (fun k => endswith (snd k) "MaskGenerator") _ _
                (fun n => eq_refl) (key_iter_update p e)) as H3.
  destruct (List.find (has_tag "MaskGenerator") (child_nodes (update p f e)));
    destruct (List.find (has_tag "MaskGenerator") (child_nodes e));
    cbn [option_map] in *; try discriminate; try assumption.
  destruct (List.find (has_tag "MaskGenerator") (List.tl (iter (update p f e))));
    destruct (List.find (has_tag "MaskGenerator") (List.tl (iter e)));
    cbn [option_map] in *; try discriminate; try assumption.
Qed.

(** After the node that the search finds has been replaced by its image
    under [f], the search finds the new node, at the same place. *)
Lemma find_mask_generator_update (e : Element) (p : path) (x : Element) :
  _find_mask_generator e = Some (p, x) ->
  _find_mask_generator (update p f e) = Some (p, f x).
Proof.
  intros H. pose proof (find_mask_generator_update_key p e) as Hk.
  rewrite H in Hk. simpl in Hk.
  destruct (_find_mask_generator (update p f e)) as [[q y]|] eqn:H';
    [|discriminate].
  simpl in Hk. unfold key in Hk. simpl in Hk. injection Hk as -> _.
  apply find_mask_generator_sound in H as [Hs _].
  apply find_mask_generator_sound in H' as [Hs' _].
  rewrite (subtree_update f p e x Hs) in Hs'. congruence.
Qed.

End Shape.

Set Default Proof Using "Type".

End UpdateFacts.

(** ** The hardness of the preset *)

Ltac unfold_locate := unfold locate.
Ltac unfold_unparsable := unfold unparsable.

Section HardnessFacts.

Import PyFloat ET ETFacts UpdateFacts.

Variable fromstring : string -> option Element.
Variable tostring : Element -> string.
Variable str : float -> string.
Variable float_of_str : string -> option float.

Local Abbreviation locate := (locate fromstring).
Local Abbreviation holds_hardness := (holds_hardness fromstring).
Local Abbreviation lacks_hardness := (lacks_hardness fromstring).
Local Abbreviation unparsable := (unparsable fromstring).
Local Abbreviation passed_over := (passed_over fromstring).
Local Abbreviation get_loop := (get_loop fromstring float_of_str).
Local Abbreviation set_loop := (set_loop fromstring tostring str).

Lemma opt_eqb_true (o : option string) (s : string) :
  opt_eqb o s = true <-> o = Some s.
Proof.
  destruct o as [x|]; simpl.
  - rewrite String.eqb_eq. split; congruence.
  - split; discriminate.
Qed.

Lemma opt_eqb_false (o : option string) (s : string) :
  opt_eqb o s = false <-> o <> Some s.
Proof.
  rewrite <- opt_eqb_true. destruct (opt_eqb o s); split; congruence.
Qed.

Lemma locate_located (param brushdef : Element) (p : path) (x : Element) :
  locate param = Located brushdef p x <->
  get param "name" = Some "brush_definition" /\ text param <> "" /\
  fromstring (text param) = Some brushdef /\
  get brushdef "type" = Some "auto_brush" /\
  _find_mask_generator brushdef = Some (p, x).
Proof.
  unfold_locate.
  destruct (opt_eqb (get param "name") "brush_definition") eqn:Hn.
  2:{ apply opt_eqb_false in Hn. split; [discriminate|].
      intros (H & _). contradiction. }
  apply opt_eqb_true in Hn.
  destruct (String.eqb (text param) "") eqn:Ht.
  { apply String.eqb_eq in Ht. split; [discriminate|].
    intros (_ & H & _). contradiction. }
  apply String.eqb_neq in Ht.
  destruct (fromstring (text param)) as [bd|].
  2:{ split; [discriminate | intros (_ & _ & H & _); discriminate]. }
  destruct (opt_eqb (get bd "type") "auto_brush") eqn:Ha; simpl.
  2:{ apply opt_eqb_false in Ha. split; [discriminate|].
      intros (_ & _ & H & H' & _). congruence. }
  apply opt_eqb_true in Ha.
  destruct (_find_mask_generator bd) as [[q y]|] eqn:Hf.
  - split.
    + intros H. injection H as <- <- <-. auto.
    + intros (_ & _ & H & _ & H'). congruence.
  - split; [discriminate|]. intros (_ & _ & H & _ & H'). congruence.
Qed.

Lemma locate_malformed (param : Element) :
  locate param = Malformed <-> unparsable param.
Proof.
  unfold_locate. unfold_unparsable.
  destruct (opt_eqb (get param "name") "brush_definition") eqn:Hn.
  2:{ apply opt_eqb_false in Hn. split; [discriminate|].
      intros (H & _). contradiction. }
  apply opt_eqb_true in Hn.
  destruct (String.eqb (text param) "") eqn:Ht.
  { apply String.eqb_eq in Ht. split; [discriminate|].
    intros (_ & H & _). contradiction. }
  apply String.eqb_neq in Ht.
  destruct (fromstring (text param)) as [bd|].
  2:{ split; auto. }
  split.
  - destruct (negb _); [discriminate|].
    destruct (_find_mask_generator bd) as [[q y]|]; discriminate.
  - intros (_ & _ & H). discriminate.
Qed.

Lemma holds_hardness_located (param : Element) :
  holds_hardness param <-> exists brushdef p x, locate param = Located brushdef p x.
Proof.
  split.
  - intros (Hn & Ht & bd & Hp & Ha & p & x & Hs & He).
    destruct (_find_mask_generator bd) as [[q y]|] eqn:Hf.
    + exists bd, q, y. apply locate_located. auto.
    + exfalso. rewrite find_mask_generator_none in Hf.
      rewrite (Hf _ _ Hs) in He. discriminate.
  - intros (bd & p & x & H). apply locate_located in H
      as (Hn & Ht & Hp & Ha & Hf).
    repeat split; auto. exists bd. repeat split; auto.
    exists p, x. apply find_mask_generator_sound. exact Hf.
Qed.

Lemma lacks_hardness_not_located (param : Element) :
  lacks_hardness param ->
  forall brushdef p x, locate param <> Located brushdef p x.
Proof.
  intros H bd p x HL. apply locate_located in HL as (Hn & Ht & Hp & Ha & Hf).
  destruct H as [H | [H | [H | (bd' & Hp' & H)]]]; try congruence.
  rewrite Hp in Hp'. injection Hp' as <-. destruct H as [H | H]; [congruence|].
  apply find_mask_generator_sound in Hf as [Hs He].
  rewrite (H _ _ Hs) in He. discriminate.
Qed.

(** One turn of each loop, by what the guards make of the param. *)
Lemma set_loop_step (value : float) (preset_tree : Element) (i : nat)
    (param : Element) (rest : list (nat * Element)) :
  set_loop value preset_tree ((i, param) :: rest) =
  match locate param with
  | Skip => set_loop value preset_tree rest
  | Malformed => Raise ParseError
  | Located brushdef p _ =>
      Ok (update [i]
            (set_text (tostring (update p (set_fades str (clamp01 value)) brushdef)))
            preset_tree, true)
  end.
Proof.
  unfold_locate. simpl.
  destruct (opt_eqb (get param "name") "brush_definition"); [|reflexivity].
  destruct (String.eqb (text param) ""); [reflexivity|].
  destruct (fromstring (text param)) as [bd|]; [|reflexivity].
  destruct (negb (opt_eqb (get bd "type") "auto_brush")); [reflexivity|].
  destruct (_find_mask_generator bd) as [[q y]|]; reflexivity.
Qed.

Lemma get_loop_step (i : nat) (param : Element) (rest : list (nat * Element)) :
  get_loop ((i, param) :: rest) =
  match locate param with
  | Skip => get_loop rest
  | Malformed => Raise ParseError
  | Located _ _ brushopt =>
      match hfade_of brushopt with
      | None => get_loop rest
      | Some h =>
          match float_of_str h with
          | None => Raise ValueError
          | Some x => Ok (Some x)
          end
      end
  end.
Proof.
  unfold_locate. unfold hfade_of. simpl.
  destruct (opt_eqb (get param "name") "brush_definition"); [|reflexivity].
  destruct (String.eqb (text param) ""); [reflexivity|].
  destruct (fromstring (text param)) as [bd|]; [|reflexivity].
  destruct (negb (opt_eqb (get bd "type") "auto_brush")); [reflexivity|].
  destruct (_find_mask_generator bd) as [[q y]|]; reflexivity.
Qed.


Lemma set_fades_hfade (c : float) (brushopt : Element) :
  get (set_fades str c brushopt) "hfade" = Some (str c).
Proof.
  unfold set_fades. rewrite get_set_other by discriminate.
  apply get_set_same.
Qed.

Lemma set_fades_vfade (c : float) (brushopt : Element) :
  get (set_fades str c brushopt) "vfade" = Some (str c).
Proof. unfold set_fades. apply get_set_same. Qed.

Lemma set_loop_skips (value : float) (preset_tree : Element)
    (pre rest : list (nat * Element)) :
  Forall (fun jc => locate (snd jc) = Skip) pre ->
  set_loop value preset_tree (pre ++ rest)%list
  = set_loop value preset_tree rest.
Proof.
  induction 1 as [|[j c] r Hc Hr IH]; [reflexivity|].
  simpl app. rewrite set_loop_step. simpl in Hc. rewrite Hc. exact IH.
Qed.


Lemma set_loop_not_located (value : float) (preset_tree : Element)
    (params : list (nat * Element)) :
  Forall (fun jc => forall bd p x, locate (snd jc) <> Located bd p x) params ->
  set_loop value preset_tree params = Ok (preset_tree, false)
  \/ exists e, set_loop value preset_tree params = Raise e.
Proof.
  induction 1 as [|[j c] r Hc Hr IH]; [left; reflexivity|].
  rewrite set_loop_step. simpl in Hc.
  destruct (locate c) as [| |bd p x] eqn:E.
  - exact IH.
  - right. eauto.
  - exfalso. exact (Hc bd p x eq_refl).
Qed.

(** C5 (amended).  When the hardness cannot be located in any param of the
    preset (no param is named [brush_definition], or the definition is not
    of an auto brush, or no node of it has a tag that ends with
    [MaskGenerator]), and also when the XML of the preset does not parse, [_set_brush_hardness] leaves the view as it was:
    the preset text is the same and no call of [fromXML] was added. *)
Theorem set_brush_hardness_frame :
  forall (value : float) (view : View),
    (forall preset_tree, fromstring (toXML view) = Some preset_tree ->
       forall i param, In (i, param) (findall "param" preset_tree) ->
                       lacks_hardness param) ->
    _set_brush_hardness fromstring tostring str value (Some view) = Some view.
Proof.
  intros value view H. unfold _set_brush_hardness, set_body.
  destruct (fromstring (toXML view)) as [tree|] eqn:Htree; [|reflexivity].
  assert (HF : Forall (fun jc => forall bd p x,
                         locate (snd jc) <> Located bd p x)
                      (findall "param" tree)).
  { apply Forall_forall. intros [j c] Hin. simpl.
    apply lacks_hardness_not_located. exact (H tree eq_refl j c Hin). }
  destruct (set_loop_not_located value tree _ HF) as [E | [e E]];
    rewrite E; reflexivity.
Qed.

Lemma get_loop_sound (params : list (nat * Element)) (x : float) :
  get_loop params = Ok (Some x) ->
  exists i param brushdef p brushopt h,
    In (i, param) params /\ locate param = Located brushdef p brushopt /\
    hfade_of brushopt = Some h /\ float_of_str h = Some x.
Proof.
  induction params as [|[j c] r IH]; [discriminate|].
  rewrite get_loop_step.
  assert (Hrest : get_loop r = Ok (Some x) ->
                  exists i param brushdef p brushopt h,
                    In (i, param) ((j, c) :: r) /\
                    locate param = Located brushdef p brushopt /\
                    hfade_of brushopt = Some h /\ float_of_str h = Some x).
  { intros H. destruct (IH H) as (i & pa & bd & p & o & h & Hin & Hrest).
    exists i, pa, bd, p, o, h. split; [right; exact Hin | exact Hrest]. }
  destruct (locate c) as [| |bd p o] eqn:E; [exact Hrest | discriminate |].
  destruct (hfade_of o) as [h|] eqn:Hh; [|exact Hrest].
  destruct (float_of_str h) as [y|] eqn:Hy; [|discriminate].
  intros H. injection H as <-.
  exists j, c, bd, p, o, h. split; [left; reflexivity | auto].
Qed.

Lemma get_loop_nothing (params : list (nat * Element)) :
  Forall (fun jc =>
            lacks_hardness (snd jc) \/
            exists bd p o, locate (snd jc) = Located bd p o /\
                           get o "hfade" = None /\ get o "vfade" = None)
         params ->
  get_loop params = Ok None \/ exists e, get_loop params = Raise e.
Proof.
  induction 1 as [|[j c] r Hc Hr IH]; [left; reflexivity|].
  rewrite get_loop_step. simpl in Hc.
  destruct (locate c) as [| |bd p o] eqn:E.
  - exact IH.
  - right. eauto.
  - destruct Hc as [Hc | (bd' & p' & o' & HL & Hh & Hv)].
    + exfalso. exact (lacks_hardness_not_located _ Hc bd p o E).
    + injection HL as <- <- <-. unfold hfade_of. rewrite Hh, Hv. exact IH.
Qed.

Lemma hfade_of_cases (o : Element) (h : string) :
  hfade_of o = Some h <->
  (get o "hfade" = Some h \/ get o "hfade" = None /\ get o "vfade" = Some h).
Proof.
  unfold hfade_of. destruct (get o "hfade") as [h'|]; split.
  - intros H. left. exact H.
  - intros [H | [H _]]; [exact H | discriminate].
  - intros H. right. split; [reflexivity | exact H].
  - intros [H | [_ H]]; [discriminate | exact H].
Qed.

(** The reader goes on after the params it passes over. *)
Lemma get_loop_passes (pre rest : list (nat * Element)) :
  Forall (fun jc => passed_over (snd jc)) pre ->
  get_loop (pre ++ rest)%list = get_loop rest.
Proof.
  induction 1 as [|[j c] r Hc Hr IH]; [reflexivity|].
  simpl app. rewrite get_loop_step. simpl in Hc.
  destruct Hc as [Hc | (bd & p & o & Hc & Hh & Hv)]; rewrite Hc.
  - exact IH.
  - unfold hfade_of. rewrite Hh, Hv. exact IH.
Qed.

(** A number comes from the first param that is not passed over. *)
Lemma get_loop_first (params : list (nat * Element)) (x : float) :
  get_loop params = Ok (Some x) ->
  exists pre i param post brushdef p brushopt h,
    params = (pre ++ (i, param) :: post)%list /\
    Forall (fun jc => passed_over (snd jc)) pre /\
    locate param = Located brushdef p brushopt /\
    hfade_of brushopt = Some h /\ float_of_str h = Some x.
Proof.
  induction params as [|[j c] r IH]; [discriminate|].
  rewrite get_loop_step.
  assert (Hrest : passed_over c -> get_loop r = Ok (Some x) ->
                  exists pre i param post brushdef p brushopt h,
                    (j, c) :: r = (pre ++ (i, param) :: post)%list /\
                    Forall (fun jc => passed_over (snd jc)) pre /\
                    locate param = Located brushdef p brushopt /\
                    hfade_of brushopt = Some h /\ float_of_str h = Some x).
  { intros Hc H.
    destruct (IH H) as (pre & i & pa & post & bd & p & o & h & -> & Hpre & Hr).
    exists ((j, c) :: pre), i, pa, post, bd, p, o, h.
    split; [reflexivity|]. split; [|exact Hr].
    constructor; [exact Hc | exact Hpre]. }
  destruct (locate c) as [| |bd p o] eqn:E.
  - apply Hrest. left. exact E.
  - discriminate.
  - destruct (hfade_of o) as [h|] eqn:Hh.
    + destruct (float_of_str h) as [y|] eqn:Hy; [|discriminate].
      intros H. injection H as <-.
      exists [], j, c, r, bd, p, o, h. simpl. auto.
    + apply Hrest. right. exists bd, p, o.
      unfold hfade_of in Hh. destruct (get o "hfade"); [discriminate|].
      auto.
Qed.

(** The reader finds [x] exactly when the first param it does not pass over
    has a mask generator node whose fade reads as [x]. *)
Lemma get_loop_found (params : list (nat * Element)) (x : float) :
  get_loop params = Ok (Some x) <->
  exists pre i param post brushdef p brushopt h,
    params = (pre ++ (i, param) :: post)%list /\
    Forall (fun jc => passed_over (snd jc)) pre /\
    locate param = Located brushdef p brushopt /\
    (get brushopt "hfade" = Some h \/
     get brushopt "hfade" = None /\ get brushopt "vfade" = Some h) /\
    float_of_str h = Some x.
Proof.
  split.
  - intros H.
    destruct (get_loop_first _ _ H)
      as (pre & i & pa & post & bd & p & o & h & Hp & Hpre & HL & Hh & Hx).
    exists pre, i, pa, post, bd, p, o, h.
    apply hfade_of_cases in Hh. auto.
  - intros (pre & i & pa & post & bd & p & o & h & -> & Hpre & HL & Hh & Hx).
    rewrite (get_loop_passes _ _ Hpre), get_loop_step, HL.
    apply hfade_of_cases in Hh. rewrite Hh, Hx. reflexivity.
Qed.

(** C4.  [_get_brush_hardness] returns on every input: a preset that does
    not parse, a definition that does not parse, a fade that is not a number
    all end in the [except] branch.  A number returned is the float read
    from the [hfade] (or from the [vfade] when there is no [hfade]) of the
    mask generator node of a [brush_definition] param.  The number [x] is
    returned exactly when the preset parses and the first param that the
    reader does not pass over has a mask generator node whose [hfade] (or
    [vfade] when there is no [hfade]) reads as [x].  And the result is
    [None] when no param gives such a text (the preset does not parse, no
    param is named [brush_definition], the definition is not of an auto
    brush, it has no mask generator node, or the node has neither
    attribute). *)
Theorem get_brush_hardness_never_raises :
  forall active_view : option View,
  exists r : option float,
    _get_brush_hardness fromstring float_of_str active_view = Ok r
    /\ (forall x, r = Some x ->
        exists view preset_tree i param brushdef p brushopt h,
          active_view = Some view /\
          fromstring (toXML view) = Some preset_tree /\
          In (i, param) (findall "param" preset_tree) /\
          locate param = Located brushdef p brushopt /\
          (get brushopt "hfade" = Some h \/
           get brushopt "hfade" = None /\ get brushopt "vfade" = Some h) /\
          float_of_str h = Some x)
    /\ (forall x,
          r = Some x <->
          exists view preset_tree pre i param post brushdef p brushopt h,
            active_view = Some view /\
            fromstring (toXML view) = Some preset_tree /\
            findall "param" preset_tree = (pre ++ (i, param) :: post)%list /\
            Forall (fun jc => passed_over (snd jc)) pre /\
            locate param = Located brushdef p brushopt /\
            (get brushopt "hfade" = Some h \/
             get brushopt "hfade" = None /\ get brushopt "vfade" = Some h) /\
            float_of_str h = Some x)
    /\ ((forall view preset_tree,
           active_view = Some view ->
           fromstring (toXML view) = Some preset_tree ->
           forall i param, In (i, param) (findall "param" preset_tree) ->
             lacks_hardness param \/
             exists bd p o, locate param = Located bd p o /\
                            get o "hfade" = None /\ get o "vfade" = None) ->
        r = None).
Proof.
  intros [view|]; simpl.
  2:{ exists None. split; [reflexivity|]. split; [discriminate|].
      split; [|reflexivity]. intros x. split; [discriminate|].
      intros (v & t & pre & i & pa & post & bd & p & o & h & Hv & _).
      discriminate. }
  unfold get_body.
  destruct (fromstring (toXML view)) as [tree|] eqn:Htree.
  2:{ exists None. split; [reflexivity|]. split; [discriminate|].
      split; [|reflexivity]. intros x. split; [discriminate|].
      intros (v & t & pre & i & pa & post & bd & p & o & h & Hv & Ht & _).
      injection Hv as <-. congruence. }
  assert (Hfound : forall (r : option float) (x : float),
            (get_loop (findall "param" tree) = Ok (Some x) <-> r = Some x) ->
            r = Some x <->
            exists view0 preset_tree pre i param post brushdef p brushopt h,
              Some view = Some view0 /\
              fromstring (toXML view0) = Some preset_tree /\
              findall "param" preset_tree = (pre ++ (i, param) :: post)%list /\
              Forall (fun jc => passed_over (snd jc)) pre /\
              locate param = Located brushdef p brushopt /\
              (get brushopt "hfade" = Some h \/
               get brushopt "hfade" = None /\ get brushopt "vfade" = Some h) /\
              float_of_str h = Some x).
  { intros r x Hr. rewrite <- Hr, get_loop_found. split.
    - intros (pre & i & pa & post & bd & p & o & h & H).
      exists view, tree, pre, i, pa, post, bd, p, o, h. auto.
    - intros (v & t & pre & i & pa & post & bd & p & o & h & Hv & Ht & H).
      injection Hv as <-. rewrite Htree in Ht. injection Ht as <-.
      exists pre, i, pa, post, bd, p, o, h. exact H. }
  destruct (get_loop (findall "param" tree)) as [[x|]|e] eqn:Hloop.
  - exists (Some x). split; [reflexivity|]. split; [|split].
    + intros y Hy. injection Hy as <-.
      apply get_loop_sound in Hloop
        as (i & pa & bd & p & o & h & Hin & HL & Hh & Hx).
      exists view, tree, i, pa, bd, p, o, h. repeat split; auto.
      unfold hfade_of in Hh. destruct (get o "hfade") as [h'|].
      * left. exact Hh.
      * right. auto.
    + intros y. apply Hfound. split; congruence.
    + intros Hall. exfalso.
      assert (HF : Forall (fun jc =>
                lacks_hardness (snd jc) \/
                exists bd p o, locate (snd jc) = Located bd p o /\
                               get o "hfade" = None /\ get o "vfade" = None)
                (findall "param" tree)).
      { apply Forall_forall. intros [j c] Hin. exact (Hall view tree eq_refl Htree j c Hin). }
      destruct (get_loop_nothing _ HF) as [E | [e E]]; congruence.
  - exists None. split; [reflexivity|]. split; [discriminate|].
    split; [|reflexivity]. intros y. apply Hfound. split; congruence.
  - exists None. split; [reflexivity|]. split; [discriminate|].
    split; [|reflexivity]. intros y. apply Hfound. split; congruence.
Qed.

(** *** The params after the write *)

Lemma number_from_update_nth (g : Element -> Element) (cs : list Element) :
  forall i k,
    number_from k (update_nth i g cs)
    = List.map (replace_at (k + i) g) (number_from k cs).
Proof.
  induction cs as [|c r IH]; intros [|i] k; simpl; auto.
  - unfold replace_at at 1. simpl. rewrite Nat.add_0_r, Nat.eqb_refl.
    f_equal. rewrite <- (map_id (number_from (S k) r)) at 1.
    apply map_ext_in. intros [j d] Hin.
    apply in_number_from in Hin as [Hle _]. unfold replace_at. simpl.
    destruct (Nat.eqb_spec j k); [lia | reflexivity].
  - unfold replace_at at 1. simpl.
    destruct (Nat.eqb_spec k (k + S i)); [lia|].
    f_equal. rewrite IH. replace (S k + i)%nat with (k + S i)%nat by lia.
    reflexivity.
Qed.

Lemma findall_update (t : string) (g : Element -> Element) (i : nat)
    (e : Element) :
  (forall c, tag (g c) = tag c) ->
  findall t (update [i] g e) = List.map (replace_at i g) (findall t e).
Proof.
  intros Hg. destruct e as [t0 a x cs]. unfold findall. simpl.
  change (update_nth i (fun e0 : Element => g e0) cs) with (update_nth i g cs).
  rewrite (number_from_update_nth g cs i 0). simpl.
  induction (number_from 0 cs) as [|[j c] r IH]; [reflexivity|].
  simpl. unfold replace_at at 1. simpl.
  destruct (Nat.eqb j i); simpl; rewrite ?Hg;
    destruct (String.eqb (tag c) t); simpl; rewrite IH; try reflexivity.
Qed.

Lemma NoDup_fst_number_from {A : Type} (l : list A) :
  forall k, NoDup (List.map fst (number_from k l)).
Proof.
  induction l as [|a r IH]; intros k; simpl; constructor; auto.
  rewrite in_map_iff. intros ([j b] & Hj & Hin). simpl in Hj. subst j.
  apply in_number_from in Hin as [Hle _]. lia.
Qed.

Lemma NoDup_fst_filter {A : Type} (P : nat * A -> bool) (l : list (nat * A)) :
  NoDup (List.map fst l) -> NoDup (List.map fst (List.filter P l)).
Proof.
  induction l as [|a r IH]; simpl; intros H; [constructor|].
  inversion H as [|? ? Hnot Hr]; subst.
  destruct (P a); simpl; auto. constructor; auto.
  rewrite in_map_iff. intros (b & Hb & Hin). apply Hnot.
  rewrite in_map_iff. exists b. split; auto.
  apply filter_In in Hin. exact (proj1 Hin).
Qed.

Lemma map_replace_at_other (i : nat) (g : Element -> Element)
    (l : list (nat * Element)) :
  ~ In i (List.map fst l) -> List.map (replace_at i g) l = l.
Proof.
  induction l as [|[j c] r IH]; simpl; intros H; [reflexivity|].
  unfold replace_at at 1. simpl.
  destruct (Nat.eqb_spec j i) as [E|E]; [exfalso; auto|].
  f_equal. apply IH. auto.
Qed.

(** The params of the tree after the text of the param at [i] is replaced. *)
Lemma findall_param_update (preset_tree : Element)
    (pre post : list (nat * Element)) (i : nat) (param : Element)
    (xml : string) :
  findall "param" preset_tree = (pre ++ (i, param) :: post)%list ->
  findall "param" (update [i] (set_text xml) preset_tree)
  = (pre ++ (i, set_text xml param) :: post)%list.
Proof.
  intros H. rewrite findall_update by (intros []; reflexivity).
  assert (HN : NoDup (List.map fst (findall "param" preset_tree))).
  { apply NoDup_fst_filter, NoDup_fst_number_from. }
  rewrite H in *. rewrite map_app in HN.
  simpl in HN. pose proof (NoDup_remove_2 _ _ _ HN) as Hnot.
  rewrite in_app_iff in Hnot.
  rewrite map_app. simpl. unfold replace_at at 2. simpl.
  rewrite Nat.eqb_refl.
  rewrite !map_replace_at_other by auto. reflexivity.
Qed.

Lemma get_loop_skips (pre rest : list (nat * Element)) :
  Forall (fun jc => locate (snd jc) = Skip) pre ->
  get_loop (pre ++ rest)%list = get_loop rest.
Proof.
  induction 1 as [|[j c] r Hc Hr IH]; [reflexivity|].
  simpl app. rewrite get_loop_step. simpl in Hc. rewrite Hc. exact IH.
Qed.

(** The first param at which the loops stop, when none before it raises. *)
Lemma first_located (pre post : list (nat * Element)) (i : nat)
    (param : Element) :
  holds_hardness param ->
  Forall (fun jc => ~ unparsable (snd jc)) pre ->
  exists pre' i' param' post' brushdef p brushopt,
    (pre ++ (i, param) :: post)%list = (pre' ++ (i', param') :: post')%list /\
    Forall (fun jc => locate (snd jc) = Skip) pre' /\
    locate param' = Located brushdef p brushopt.
Proof.
  intros Hh. induction 1 as [|[j c] r Hc Hr IH].
  - apply holds_hardness_located in Hh as (bd & p & o & HL).
    exists [], i, param, post, bd, p, o. simpl. auto.
  - destruct (locate c) as [| |bd p o] eqn:E.
    + destruct IH as (pre' & i' & pa & post' & bd & p & o & Heq & Hs & HL).
      exists ((j, c) :: pre'), i', pa, post', bd, p, o.
      simpl. rewrite Heq. split; [reflexivity|]. split; [|exact HL].
      constructor; assumption.
    + exfalso. apply Hc. apply locate_malformed. exact E.
    + exists [], j, c, (r ++ (i, param) :: post)%list, bd, p, o. simpl. auto.
Qed.

Lemma get_set_text (xml k : string) (e : Element) :
  get (set_text xml e) k = get e k.
Proof. destruct e; reflexivity. Qed.

Lemma text_set_text (xml : string) (e : Element) : text (set_text xml e) = xml.
Proof. destruct e; reflexivity. Qed.

Lemma get_update (g : Element -> Element) (k : string) (p : path) (e : Element) :
  (forall x, get (g x) k = get x k) -> get (update p g e) k = get e k.
Proof. intros Hg. destruct p, e; simpl; auto. Qed.

Lemma get_set_fades_type (c : float) (x : Element) :
  get (set_fades str c x) "type" = get x "type".
Proof. unfold set_fades. rewrite !get_set_other by discriminate. reflexivity. Qed.

Lemma tag_set_fades (c : float) (x : Element) : tag (set_fades str c x) = tag x.
Proof. unfold set_fades. rewrite !tag_set. reflexivity. Qed.

Lemma children_set_fades (c : float) (x : Element) :
  children (set_fades str c x) = children x.
Proof. unfold set_fades. rewrite !children_set. reflexivity. Qed.

Section RoundTrip.

(** What is assumed of the libraries: a tree written by [ET.tostring] reads
    back as the same tree and is never the empty text, and the text that
    [str] gives for a float reads back as that float. *)
Hypothesis fromstring_tostring : forall e, fromstring (tostring e) = Some e.
Hypothesis tostring_not_empty : forall e, tostring e <> "".
Hypothesis float_of_str_str : forall x, float_of_str (str x) = Some x.

(** C1 (amended).  Let the preset parse, let one of the [param] children of
    its root be named [brush_definition] and hold the definition of an auto
    brush with a mask generator node, and let no [brush_definition] param
    before it have a text that fails to parse.  Then reading the hardness
    after writing [value] gives [max(0.0, min(1.0, value))]. *)
Theorem hardness_round_trip :
  forall (value : float) (view : View) (preset_tree : Element)
         (pre post : list (nat * Element)) (i : nat) (param : Element),
    fromstring (toXML view) = Some preset_tree ->
    findall "param" preset_tree = (pre ++ (i, param) :: post)%list ->
    holds_hardness param ->
    Forall (fun jc => ~ unparsable (snd jc)) pre ->
    _get_brush_hardness fromstring float_of_str
      (_set_brush_hardness fromstring tostring str value (Some view))
    = Ok (Some (clamp01 value)).
Proof using fromstring_tostring tostring_not_empty float_of_str_str.
  intros value view tree pre post i param Htree Hparams Hh Hpre.
  destruct (first_located pre post i param Hh Hpre)
    as (pre' & i' & pa & post' & bd & p & o & Heq & Hskip & HL).
  rewrite Heq in Hparams. clear Heq Hh Hpre pre post i param.
  set (c := clamp01 value).
  set (bd' := update p (set_fades str c) bd).
  set (tree' := update [i'] (set_text (tostring bd')) tree).
  assert (Hset : _set_brush_hardness fromstring tostring str value (Some view)
                 = Some (fromXML (tostring tree') view)).
  { unfold _set_brush_hardness, set_body. rewrite Htree, Hparams.
    rewrite set_loop_skips by exact Hskip.
    rewrite set_loop_step, HL. reflexivity. }
  rewrite Hset. unfold _get_brush_hardness, get_body, toXML, fromXML. simpl.
  rewrite fromstring_tostring. unfold tree'.
  rewrite (findall_param_update tree pre' post' i' pa _ Hparams).
  rewrite get_loop_skips by exact Hskip.
  rewrite get_loop_step.
  apply locate_located in HL as (Hn & Ht & Hp & Ha & Hf).
  assert (HL' : locate (set_text (tostring bd') pa)
                = Located bd' p (set_fades str c o)).
  { apply locate_located. rewrite get_set_text, text_set_text.
    repeat split; auto.
    - unfold bd'. rewrite get_update; [exact Ha|].
      intros x. apply get_set_fades_type.
    - unfold bd'. apply find_mask_generator_update; auto.
      + intros x. apply tag_set_fades.
      + intros x. apply children_set_fades. }
  rewrite HL'. unfold hfade_of. rewrite set_fades_hfade.
  rewrite float_of_str_str. reflexivity.
Qed.

End RoundTrip.

End HardnessFacts.

(** ** The reference serialisation reads back what it writes *)
Module RefCodecFacts.

Import ET RefCodec.

Lemma append_assoc (a b c : string) : ((a ++ b) ++ c = a ++ (b ++ c))%string.
Proof. induction a as [|ch a IH]; simpl; [reflexivity | now rewrite IH]. Qed.

Lemma append_nil_r (a : string) : (a ++ "" = a)%string.
Proof. induction a as [|ch a IH]; simpl; [reflexivity | now rewrite IH]. Qed.

Lemma read_write_nat (n : nat) (r : string) :
  read_nat (write_nat n ++ r) = Some (n, r).
Proof. induction n as [|n IH]; simpl; [reflexivity | now rewrite IH]. Qed.

Lemma take_append (x r : string) : take (String.length x) (x ++ r) = Some (x, r).
Proof. induction x as [|ch x IH]; simpl; [reflexivity | now rewrite IH]. Qed.

Lemma read_write_str (x r : string) : read_str (write_str x ++ r) = Some (x, r).
Proof.
  unfold read_str, write_str. rewrite append_assoc, read_write_nat.
  apply take_append.
Qed.

Lemma read_write_many {A : Type} (wr : A -> string) (rd : reader A)
    (l : list A) :
  Forall (fun a => forall r, rd (wr a ++ r) = Some (a, r)) l ->
  forall r, read_many rd (List.length l) (write_many wr l ++ r) = Some (l, r).
Proof.
  induction 1 as [|a l Ha Hl IH]; intros r; simpl; [reflexivity|].
  rewrite append_assoc, Ha, IH. reflexivity.
Qed.

Lemma read_write_attr (kv : string * string) (r : string) :
  read_attr (write_attr kv ++ r) = Some (kv, r).
Proof.
  destruct kv as [k v]. unfold read_attr, write_attr. simpl.
  rewrite append_assoc, !read_write_str. reflexivity.
Qed.

Lemma write_elem_unfold (t : string) (a : list (string * string)) (x : string)
    (cs : list Element) :
  write_elem (Elem t a x cs)
  = (write_str t ++ write_nat (List.length a) ++ write_many write_attr a
     ++ write_str x ++ write_nat (List.length cs) ++ write_many write_elem cs)%string.
Proof.
  simpl. do 5 f_equal. induction cs as [|c r IH]; simpl; [reflexivity|].
  now rewrite IH.
Qed.

Lemma read_write_elem :
  forall (fuel : nat) (e : Element) (r : string),
    (depth e <= fuel)%nat -> read_elem fuel (write_elem e ++ r) = Some (e, r).
Proof.
  induction fuel as [|f IH]; intros [t a x cs] r Hd.
  - simpl in Hd. lia.
  - rewrite write_elem_unfold. cbn [read_elem].
    rewrite !append_assoc, read_write_str, read_write_nat.
    rewrite (read_write_many write_attr read_attr a)
      by (apply Forall_forall; intros kv _ r0; apply read_write_attr).
    rewrite read_write_str, read_write_nat.
    rewrite (read_write_many write_elem (read_elem f) cs); [reflexivity|].
    simpl in Hd. apply le_S_n in Hd. apply list_max_le in Hd.
    rewrite Forall_map in Hd. apply Forall_forall. intros c Hc r0.
    apply IH. rewrite Forall_forall in Hd. exact (Hd c Hc).
Qed.

Lemma fromstring_tostring (e : Element) : fromstring (tostring e) = Some e.
Proof.
  unfold fromstring, tostring. rewrite read_write_nat.
  rewrite <- (append_nil_r (write_elem e)).
  rewrite read_write_elem by lia. reflexivity.
Qed.

Lemma tostring_not_empty (e : Element) : tostring e <> "".
Proof. unfold tostring. destruct (depth e); discriminate. Qed.

Lemma read_write_pos (p : positive) (r : string) :
  read_pos (write_pos p ++ r) = Some (p, r).
Proof. induction p as [p IH|p IH|]; simpl; [now rewrite IH.. | reflexivity]. Qed.

Lemma read_write_bool (b : bool) (r : string) :
  read_bool (write_bool b ++ r) = Some (b, r).
Proof. destruct b; reflexivity. Qed.

Lemma read_write_Z (z : Z) (r : string) : read_Z (write_Z z ++ r) = Some (z, r).
Proof. destruct z; simpl; [reflexivity | now rewrite read_write_pos..]. Qed.

Lemma float_of_str_str (x : PyFloat.float) : float_of_str (str x) = Some x.
Proof.
  destruct x as [s|s| |s m e]; simpl.
  - rewrite <- (append_nil_r (write_bool s)), read_write_bool. reflexivity.
  - rewrite <- (append_nil_r (write_bool s)), read_write_bool. reflexivity.
  - reflexivity.
  - rewrite read_write_bool, read_write_pos.
    rewrite <- (append_nil_r (write_Z e)), read_write_Z. reflexivity.
Qed.

End RefCodecFacts.

(** ** The theorems on the sample presets *)
Section SampleFacts.

Import ET ETFacts RefCodec RefCodecFacts.

Lemma other_brushdef_nodes (p : path) (x : Element) :
  subtree p Sample.other_brushdef = Some x -> tag x <> "MaskGenerator".
Proof.
  intros H. apply in_iter_subtree in H. simpl in H.
  destruct H as [H | [H | []]]; injection H as <- <-; discriminate.
Qed.

(** C3 as the specification states it fails on a brush definition without
    any [MaskGenerator] element: the element [NotAMaskGenerator] is
    returned, not [None]. *)
Lemma find_mask_generator_counterexample :
  (forall p x, subtree p Sample.other_brushdef = Some x ->
               tag x <> "MaskGenerator")
  /\ _find_mask_generator Sample.other_brushdef
     = Some ([0%nat], Sample.other_node)
  /\ _find_mask_generator Sample.other_brushdef <> None.
Proof.
  split; [exact other_brushdef_nodes|]. split; [reflexivity | discriminate].
Qed.

(** C5 as the specification states it fails on a preset whose brush
    definition has no [MaskGenerator] element but one with a longer tag:
    [fromXML] is called with a changed preset. *)
Lemma set_brush_hardness_frame_counterexample :
  fromstring (toXML Sample.other_view) = Some Sample.other_preset
  /\ findall "param" Sample.other_preset = [(0%nat, Sample.other_param)]
  /\ fromstring (text Sample.other_param) = Some Sample.other_brushdef
  /\ (forall p x, subtree p Sample.other_brushdef = Some x ->
                  tag x <> "MaskGenerator")
  /\ (exists view',
        _set_brush_hardness fromstring tostring str Sample.seven
          (Some Sample.other_view) = Some view'
        /\ List.length (fromXML_calls view') = 1%nat
        /\ preset_xml view' <> preset_xml Sample.other_view)
  /\ _set_brush_hardness fromstring tostring str Sample.seven
       (Some Sample.other_view) <> Some Sample.other_view.
Proof.
  split; [apply fromstring_tostring|]. split; [reflexivity|].
  split; [apply fromstring_tostring|]. split; [exact other_brushdef_nodes|].
  split.
  - eexists. split; [vm_compute; reflexivity|].
    split; [reflexivity | discriminate].
  - vm_compute. discriminate.
Qed.

Lemma sample_holds_hardness : holds_hardness fromstring Sample.brush_param.
Proof.
  split; [reflexivity|]. split; [discriminate|].
  exists Sample.brushdef. split; [apply fromstring_tostring|].
  split; [reflexivity|].
  exists [0%nat], Sample.mask. split; reflexivity.
Qed.

Lemma hardness_round_trip_witness :
  fromstring (toXML Sample.view) = Some Sample.preset
  /\ findall "param" Sample.preset
     = ([(0%nat, Sample.paintop_param)] ++ (1%nat, Sample.brush_param) :: [])%list
  /\ holds_hardness fromstring Sample.brush_param
  /\ Forall (fun jc => ~ unparsable fromstring (snd jc))
            [(0%nat, Sample.paintop_param)]
  /\ _get_brush_hardness fromstring float_of_str
       (_set_brush_hardness fromstring tostring str Sample.seven
          (Some Sample.view))
     = Ok (Some (clamp01 Sample.seven)).
Proof.
  assert (H1 : fromstring (toXML Sample.view) = Some Sample.preset)
    by apply fromstring_tostring.
  assert (H2 : findall "param" Sample.preset
               = ([(0%nat, Sample.paintop_param)]
                    ++ (1%nat, Sample.brush_param) :: [])%list)
    by reflexivity.
  assert (H4 : Forall (fun jc => ~ unparsable fromstring (snd jc))
                      [(0%nat, Sample.paintop_param)]).
  { constructor; [|constructor]. intros (H & _). discriminate. }
  split; [exact H1|]. split; [exact H2|].
  split; [exact sample_holds_hardness|]. split; [exact H4|].
  exact (hardness_round_trip fromstring tostring str float_of_str
           fromstring_tostring tostring_not_empty float_of_str_str
           Sample.seven Sample.view Sample.preset
           [(0%nat, Sample.paintop_param)] [] 1%nat Sample.brush_param
           H1 H2 sample_holds_hardness H4).
Defined.

(** C1 as the specification states it fails on a preset whose first
    [brush_definition] param does not parse: the second param holds the
    hardness, yet nothing is written and nothing is read. *)
Lemma hardness_round_trip_counterexample :
  fromstring (toXML Sample.broken_view) = Some Sample.broken_preset
  /\ In (1%nat, Sample.brush_param) (findall "param" Sample.broken_preset)
  /\ holds_hardness fromstring Sample.brush_param
  /\ _get_brush_hardness fromstring float_of_str
       (_set_brush_hardness fromstring tostring str Sample.seven
          (Some Sample.broken_view))
     = Ok None
  /\ Ok None <> Ok (Some (clamp01 Sample.seven)).
Proof.
  split; [apply fromstring_tostring|].
  split; [right; left; reflexivity|].
  split; [apply sample_holds_hardness|].
  split; [vm_compute; reflexivity | discriminate].
Qed.

Lemma sample_located :
  locate fromstring Sample.brush_param
  = Located Sample.brushdef [0%nat] Sample.mask.
Proof.
  apply locate_located.
  split; [reflexivity|]. split; [discriminate|].
  split; [apply fromstring_tostring|]. split; reflexivity.
Qed.


Lemma set_brush_hardness_frame_witness :
  _set_brush_hardness fromstring tostring str Sample.seven
    (Some Sample.plain_view)
  = Some Sample.plain_view.
Proof.
  apply (set_brush_hardness_frame fromstring tostring str Sample.seven
           Sample.plain_view).
  intros tree Htree i param Hin.
  assert (E : fromstring (toXML Sample.plain_view) = Some Sample.plain_preset)
    by apply fromstring_tostring.
  rewrite E in Htree. injection Htree as <-.
  destruct Hin as [Hin | []]. injection Hin as <- <-.
  left. discriminate.
Defined.

End SampleFacts.

(** ** The slider *)
Module SliderFacts.

Import Slider.
Local Open Scope Q_scope.

Lemma ltb_lt (a b : Q) : PyNum.ltb a b = true <-> a < b.
Proof.
  unfold PyNum.ltb. rewrite Qlt_alt.
  destruct (Qcompare a b); split; congruence.
Qed.

Lemma ltb_ge (a b : Q) : PyNum.ltb a b = false <-> b <= a.
Proof.
  unfold PyNum.ltb. destruct (Qcompare a b) eqn:E.
  - apply Qeq_alt in E. split; [intros _; lra | reflexivity].
  - apply Qlt_alt in E. split; [discriminate | intros H; lra].
  - apply Qgt_alt in E. split; [intros _; lra | reflexivity].
Qed.

(** Python's [round] gives an integer at most one half away. *)
Lemma round_nearest (x : Q) :
  inject_Z (PyNum.round x) - (1 # 2) <= x /\ x <= inject_Z (PyNum.round x) + (1 # 2).
Proof.
  pose proof (Qfloor_le x) as Hlo. pose proof (Qlt_floor x) as Hhi.
  rewrite inject_Z_plus in Hhi. change (inject_Z 1) with 1 in Hhi.
  unfold PyNum.round.
  destruct (Qcompare (x - inject_Z (Qfloor x)) (1 # 2)) eqn:E.
  - apply Qeq_alt in E.
    destruct (Z.even (Qfloor x)); rewrite ?inject_Z_plus;
      change (inject_Z 1) with 1; split; lra.
  - apply Qlt_alt in E. split; lra.
  - apply Qgt_alt in E. rewrite inject_Z_plus.
    change (inject_Z 1) with 1. split; lra.
Qed.

End SliderFacts.

(** ** The slider under the mouse, in binary64 *)
Module WidgetFacts.

Import PyFloat Widget.

Lemma shr_1_nonneg (mrs : shr_record) :
  (0 <= shr_m mrs)%Z -> (0 <= shr_m (shr_1 mrs))%Z.
Proof.
  destruct mrs as [m r s]. simpl.
  destruct m as [|[p|p|]|p]; simpl; lia.
Qed.

Lemma iter_shr_1_nonneg (p : positive) :
  forall mrs, (0 <= shr_m mrs)%Z -> (0 <= shr_m (iter_pos shr_1 p mrs))%Z.
Proof.
  induction p as [p IH|p IH|]; intros mrs H; simpl.
  - apply IH, IH, shr_1_nonneg, H.
  - apply IH, IH, H.
  - apply shr_1_nonneg, H.
Qed.

Lemma shr_fexp_nonneg (m e : Z) (l : location) :
  (0 <= m)%Z -> (0 <= shr_m (fst (shr_fexp prec emax m e l)))%Z.
Proof.
  intros H. unfold shr_fexp, shr.
  assert (H0 : (0 <= shr_m (shr_record_of_loc m l))%Z)
    by (destruct l as [|[]]; exact H).
  destruct (fexp prec emax (Zdigits2 m + e) - e)%Z; simpl; try exact H0.
  apply iter_shr_1_nonneg, H0.
Qed.

Lemma round_nearest_even_nonneg (m : Z) (l : location) :
  (0 <= m)%Z -> (0 <= round_nearest_even m l)%Z.
Proof.
  intros H. destruct l as [|[]]; simpl; try lia.
  destruct (Z.even m); lia.
Qed.

(** Rounding a mantissa that is not negative never gives NaN. *)
Lemma binary_round_aux_number (sx : bool) (mx ex : Z) (lx : location) :
  (0 <= mx)%Z -> binary_round_aux prec emax sx mx ex lx <> S754_nan.
Proof.
  intros H. unfold binary_round_aux.
  pose proof (shr_fexp_nonneg mx ex lx H) as H1.
  destruct (shr_fexp prec emax mx ex lx) as [mrs' e']. simpl in H1.
  pose proof (shr_fexp_nonneg _ e' loc_Exact
                (round_nearest_even_nonneg _ (loc_of_shr_record mrs') H1)) as H2.
  destruct (shr_fexp prec emax
              (round_nearest_even (shr_m mrs') (loc_of_shr_record mrs')) e'
              loc_Exact) as [mrs'' e'']. simpl in H2.
  destruct (shr_m mrs'') as [|m|m]; try discriminate; try lia.
  destruct (e'' <=? emax - prec)%Z; discriminate.
Qed.

Lemma of_int_number (n : Z) : of_int n <> S754_nan.
Proof.
  unfold of_int, binary_normalize, binary_round.
  destruct n as [|p|p]; try discriminate;
    destruct (shl_align p 0 (fexp prec emax (Z.pos (digits2_pos p) + 0)));
    apply binary_round_aux_number; lia.
Qed.

(** A whole number of steps, each a finite float, is a number (perhaps an
    infinity). *)
Lemma mul_of_int_number (n : Z) (sy : bool) (my : positive) (ey : Z) :
  mul (of_int n) (S754_finite sy my ey) <> S754_nan.
Proof.
  pose proof (of_int_number n) as H. unfold mul, SFmul.
  destruct (of_int n) as [s|s| |s m e]; try discriminate; try congruence.
  apply binary_round_aux_number. lia.
Qed.

Lemma SFcompare_antisym (x y : float) :
  SFcompare y x = option_map CompOpp (SFcompare x y).
Proof.
  destruct x as [sx|sx| |sx mx ex], y as [sy|sy| |sy my ey]; simpl;
    try reflexivity;
    try (destruct sx; reflexivity); try (destruct sy; reflexivity);
    try (destruct sx, sy; reflexivity).
  destruct sx, sy; try reflexivity;
    rewrite (Z.compare_antisym ex ey);
    destruct (ex ?= ey)%Z; simpl; try reflexivity;
    rewrite (Pos.compare_cont_antisym mx my Eq); simpl;
    rewrite ?CompOpp_involutive; reflexivity.
Qed.

Lemma SFcompare_refl (x : float) : x <> S754_nan -> SFcompare x x = Some Eq.
Proof.
  destruct x as [s|s| |s m e]; intros H; simpl; try congruence;
    try (destruct s; reflexivity).
  rewrite Z.compare_refl.
  assert (Hm : Pos.compare_cont Eq m m = Eq) by apply Pos.compare_refl.
  rewrite Hm. destruct s; reflexivity.
Qed.

Lemma SFcompare_number (x y : float) :
  x <> S754_nan -> y <> S754_nan -> exists c, SFcompare x y = Some c.
Proof.
  intros Hx Hy.
  destruct x as [sx|sx| |sx mx ex], y as [sy|sy| |sy my ey]; simpl;
    try congruence; eexists; reflexivity.
Qed.

Lemma ltb_numbers (x y : float) :
  ltb x y = true -> x <> S754_nan /\ y <> S754_nan.
Proof.
  unfold ltb, SFltb.
  destruct x as [sx|sx| |sx mx ex], y as [sy|sy| |sy my ey]; simpl;
    intros H; split; congruence.
Qed.

Lemma ltb_leb (x y : float) : ltb x y = true -> leb x y = true.
Proof.
  unfold ltb, leb, SFltb, SFleb. destruct (SFcompare x y) as [[]|]; congruence.
Qed.

Lemma ltb_flip (x y : float) : ltb x y = true -> ltb y x = false.
Proof.
  unfold ltb, SFltb. rewrite (SFcompare_antisym x y).
  destruct (SFcompare x y) as [[]|]; simpl; congruence.
Qed.

Lemma not_ltb_leb (x y : float) :
  x <> S754_nan -> y <> S754_nan -> ltb x y = false -> leb y x = true.
Proof.
  intros Hx Hy. unfold ltb, leb, SFltb, SFleb.
  rewrite (SFcompare_antisym x y).
  destruct (SFcompare_number x y Hx Hy) as [c ->].
  destruct c; simpl; congruence.
Qed.

Lemma leb_refl (x : float) : x <> S754_nan -> leb x x = true.
Proof.
  intros H. unfold leb, SFleb. rewrite (SFcompare_refl x H). reflexivity.
Qed.

(** [bound] brings every number into a range that is not empty. *)
Lemma bound_between (s : SliderSpinBox) (v : float) :
  ltb (minimum s) (maximum s) = true -> v <> S754_nan ->
  leb (minimum s) (bound s v) = true /\ leb (bound s v) (maximum s) = true.
Proof.
  intros Hr Hv. destruct (ltb_numbers _ _ Hr) as [Hlo Hhi].
  unfold bound.
  destruct (ltb v (minimum s)) eqn:E1.
  - rewrite (ltb_flip _ _ Hr). split; [apply leb_refl, Hlo | apply ltb_leb, Hr].
  - destruct (ltb (maximum s) v) eqn:E2.
    + split; [apply ltb_leb, Hr | apply leb_refl, Hhi].
    + split; apply not_ltb_leb; assumption.
Qed.


(** C6 (amended).  For the mouse at a C int [x], a slider with
    [minimum < maximum], a widget of positive width and a positive finite
    single step, [_updateValueFromMouse] computes in binary64 the
    interpolation [minimum + clamp(x / width, 0, 1) * (maximum - minimum)]
    and its quotient by the step.  When the quotient is NaN, [round] raises
    [ValueError]; when it is infinite, [OverflowError]; no value is set.
    Otherwise the number of steps is the int nearest the quotient, the
    product of the steps and the step goes to [setValue], and the value the
    slider then holds lies between its minimum and its maximum.  The spin
    box is only asked not to round a number to NaN. *)
Theorem updateValueFromMouse_binary64 :
  forall (qt_round : float -> float) (s : SliderSpinBox) (x width : Z)
         (m : positive) (e : Z),
    (forall v, v <> S754_nan -> qt_round v <> S754_nan) ->
    ltb (minimum s) (maximum s) = true ->
    (- 2 ^ 31 <= x < 2 ^ 31)%Z -> (0 < width < 2 ^ 31)%Z ->
    singleStep s = S754_finite false m e ->
    let quotient := step_quotient s x width in
    match quotient with
    | S754_nan =>
        _updateValueFromMouse qt_round x width s = Raise ValueError
    | S754_infinity _ =>
        _updateValueFromMouse qt_round x width s = Raise OverflowError
    | _ =>
        let steps := PyNum.round (to_Q quotient) in
        let new_value := mul (of_int steps) (singleStep s) in
        (inject_Z steps - (1 # 2) <= to_Q quotient
         /\ to_Q quotient <= inject_Z steps + (1 # 2))%Q
        /\ new_value_from_mouse s x width = Ok new_value
        /\ _updateValueFromMouse qt_round x width s
           = Ok (setValue qt_round new_value s)
        /\ leb (minimum s) (value (setValue qt_round new_value s)) = true
        /\ leb (value (setValue qt_round new_value s)) (maximum s) = true
    end.
Proof.
  intros qt_round s x width m e Hqt Hrange Hx Hwidth Hstep quotient.
  assert (Hnew : new_value_from_mouse s x width
                 = let* steps := round quotient in
                   Ok (mul (of_int steps) (singleStep s))).
  { unfold new_value_from_mouse.
    destruct (Z.eqb_spec width 0) as [E|_]; [lia|].
    unfold float_truediv, quotient, step_quotient, interpolation.
    rewrite Hstep. reflexivity. }
  unfold _updateValueFromMouse. rewrite Hnew.
  assert (Hfin : forall steps,
            leb (minimum s)
                (value (setValue qt_round (mul (of_int steps) (singleStep s)) s))
            = true
            /\ leb (value (setValue qt_round
                             (mul (of_int steps) (singleStep s)) s))
                   (maximum s) = true).
  { intros steps. simpl. apply bound_between; [exact Hrange|].
    apply Hqt. rewrite Hstep. apply mul_of_int_number. }
  destruct quotient as [sq|sq| |sq mq eq]; try reflexivity.
  - split; [apply SliderFacts.round_nearest|].
    split; [reflexivity|]. split; [reflexivity|]. apply Hfin.
  - split; [apply SliderFacts.round_nearest|].
    split; [reflexivity|]. split; [reflexivity|]. apply Hfin.
Qed.

End WidgetFacts.

(** ** The maximal brush size *)
Module MaxFacts.

Import Slider Docker SliderFacts.
Local Open Scope Q_scope.

Ltac by_cases :=
  unfold PyNum.py_min, PyNum.py_max;
  repeat match goal with
         | |- context [PyNum.ltb ?a ?b] =>
             let E := fresh "E" in
             destruct (PyNum.ltb a b) eqn:E;
             [apply ltb_lt in E | apply ltb_ge in E]
         end;
  try lra.

Lemma max_min_in_range (x : Q) :
  100 <= PyNum.py_max 100 (PyNum.py_min 10000 x)
  /\ PyNum.py_max 100 (PyNum.py_min 10000 x) <= 10000.
Proof. split; by_cases. Qed.

Lemma min_max_in_range (lo x : Q) :
  100 <= lo -> lo <= 10000 ->
  100 <= PyNum.py_min 10000 (PyNum.py_max lo x)
  /\ PyNum.py_min 10000 (PyNum.py_max lo x) <= 10000.
Proof. intros H1 H2. split; by_cases. Qed.

Lemma clamp_loaded_in_range (v : pyval) (m : Q) :
  clamp_loaded v = Ok m -> 100 <= m /\ m <= 10000.
Proof.
  destruct v as [|b|q| |[|]|s| |]; simpl; intros H; try discriminate;
    injection H as <-;
    first [apply max_min_in_range | split; by_cases].
Qed.

Lemma max_singleShot (cb : callback) (d : Docker) :
  max_brush_size (singleShot cb d) = max_brush_size d.
Proof. reflexivity. Qed.

Lemma max_save_config (d : Docker) :
  max_brush_size (save_config d) = max_brush_size d.
Proof. unfold save_config. destruct (negb _); reflexivity. Qed.

Lemma max_on_size_slider_changed (v : Q) (d : Docker) :
  max_brush_size (on_size_slider_changed v d) = max_brush_size d.
Proof. unfold on_size_slider_changed. destruct (brushSize d); reflexivity. Qed.

Lemma max_size_slider_setMaximum (qt_round : Q -> Q) (m : Q) (d : Docker) :
  max_brush_size (size_slider_setMaximum qt_round m d) = max_brush_size d.
Proof.
  unfold size_slider_setMaximum. destruct (Qeq_bool _ _); [reflexivity|].
  rewrite max_on_size_slider_changed. reflexivity.
Qed.

Lemma load_config_in_range (file : config_file) (d d' : Docker) :
  max_in_range d -> load_config file d = Ok d' -> max_in_range d'.
Proof.
  unfold load_config, max_in_range. intros Hd.
  destruct file as [|e|[config|]]; simpl.
  - intros H. injection H as <-. exact Hd.
  - destruct e; simpl; intros H; try discriminate; injection H as <-;
      simpl; split; lra.
  - destruct (clamp_loaded _) as [m|e] eqn:E; simpl; [|discriminate].
    intros H. injection H as <-. simpl. exact (clamp_loaded_in_range _ _ E).
  - discriminate.
Qed.

Lemma validate_in_range (qt_round : Q -> Q) (d : Docker) :
  max_in_range d -> max_in_range (_validate_max_brush_size qt_round d).
Proof.
  unfold _validate_max_brush_size, max_in_range. intros Hd.
  destruct (brushSize d) as [current_size|]; [|exact Hd].
  destruct (_ && _).
  - rewrite max_save_config, max_size_slider_setMaximum. simpl. split; lra.
  - destruct (PyNum.ltb (max_brush_size d) current_size); [|exact Hd].
    rewrite max_save_config, max_size_slider_setMaximum. simpl.
    apply min_max_in_range; lra.
Qed.

Lemma expand_max_in_range (qt_round : Q -> Q) (size : Q) (d : Docker) :
  max_in_range d -> max_in_range (expand_max qt_round size d).
Proof.
  unfold expand_max, max_in_range. intros Hd.
  destruct (PyNum.ltb (max_brush_size d) size); [|exact Hd].
  destruct (negb _); [|exact Hd].
  rewrite max_save_config, max_size_slider_setMaximum. simpl.
  apply min_max_in_range; lra.
Qed.

Lemma update_size_slider_in_range (qt_round : Q -> Q) (size : option Q)
    (d : Docker) :
  max_in_range d -> max_in_range (_update_size_slider qt_round size d).
Proof.
  unfold _update_size_slider. intros Hd. destruct size as [size|]; [|exact Hd].
  pose proof (expand_max_in_range qt_round size d Hd) as H.
  destruct (option_Q_neqb _ _); exact H.
Qed.

Lemma apply_op_in_range (qt_round : Q -> Q) (d : Docker) (o : op) :
  max_in_range d -> max_in_range (apply_op qt_round d o).
Proof.
  intros Hd. destruct o; simpl.
  - apply validate_in_range, Hd.
  - apply update_size_slider_in_range, Hd.
  - unfold _update_size_from_action. destruct (brushSize d); [|exact Hd].
    apply update_size_slider_in_range, Hd.
  - unfold max_in_range. rewrite max_save_config. exact Hd.
  - exact Hd.
  - unfold max_in_range. rewrite max_on_size_slider_changed. exact Hd.
  - exact Hd.
Qed.

Lemma init_in_range (qt_round : Q -> Q) (file : config_file) (size : option Q)
    (d : Docker) :
  init qt_round file size = Ok d -> max_in_range d.
Proof.
  unfold init.
  destruct (load_config file _) as [d1|e] eqn:E; simpl; [|discriminate].
  intros H. injection H as <-.
  apply load_config_in_range in E; [|unfold max_in_range; simpl; split; lra].
  set (d2 := with_slider (new_size_slider qt_round (max_brush_size d1)) d1).
  assert (H2 : max_in_range d2) by exact E.
  unfold _update_size_from_action.
  destruct (brushSize d2); [|exact H2].
  apply update_size_slider_in_range. exact H2.
Qed.

(** C10.  Once [__init__] has built the docker, [max_brush_size] lies between
    100 and 10000, and it stays there whatever [_validate_max_brush_size],
    [_update_size_slider] and the other methods do afterwards, in any order
    and for any brush sizes reported by the host. *)
Theorem max_brush_size_in_range :
  forall (qt_round : Q -> Q) (file : config_file) (size : option Q)
         (d0 : Docker) (ops : list op),
    init qt_round file size = Ok d0 ->
    max_in_range (List.fold_left (apply_op qt_round) ops d0).
Proof.
  intros qt_round file size d0 ops Hinit.
  apply init_in_range in Hinit. revert d0 Hinit.
  induction ops as [|o r IH]; intros d Hd; simpl; [exact Hd|].
  apply IH, apply_op_in_range, Hd.
Qed.

End MaxFacts.

(** ** The debounced save *)
Module DebounceFacts.

Import Docker.

Lemma filter_remove_save_timer (t : list callback) :
  List.length (List.filter is_save_timer (remove_save_timer t))
  = Nat.pred (List.length (List.filter is_save_timer t)).
Proof.
  induction t as [|[|] r IH]; simpl; auto.
Qed.

Lemma scheduled_save_config (d : Docker) :
  scheduled_saves (save_config d)
  = if _pending_config_save d then scheduled_saves d
    else S (scheduled_saves d).
Proof.
  unfold save_config, scheduled_saves, singleShot.
  destruct (_pending_config_save d); simpl; [reflexivity|].
  rewrite filter_app, length_app. simpl. lia.
Qed.

Lemma save_config_debounced (d : Docker) :
  debounced d -> debounced (save_config d).
Proof.
  unfold debounced. intros H. rewrite scheduled_save_config.
  unfold save_config. destruct (_pending_config_save d) eqn:E; simpl.
  - rewrite E. exact H.
  - rewrite H. reflexivity.
Qed.

Lemma timeout_debounced (d : Docker) : debounced d -> debounced (timeout d).
Proof.
  unfold debounced, timeout. intros H.
  destruct (0 <? scheduled_saves d)%nat eqn:E; [|exact H].
  unfold scheduled_saves in *. simpl.
  rewrite filter_remove_save_timer, H.
  destruct (_pending_config_save d); reflexivity.
Qed.

Lemma step_debounced (d : Docker) (e : event) :
  debounced d -> debounced (step d e).
Proof.
  destruct e; [apply save_config_debounced | apply timeout_debounced].
Qed.

Lemma run_debounced (trace : list event) :
  forall d, debounced d -> debounced (run trace d).
Proof.
  induction trace as [|e r IH]; intros d H; simpl; [exact H|].
  apply IH, step_debounced, H.
Qed.

Lemma writes_save_config (d : Docker) : writes (save_config d) = writes d.
Proof. unfold save_config. destruct (negb _); reflexivity. Qed.

(** What one event does to the number of writes and of pending saves. *)
Lemma step_count (d : Docker) (e : event) :
  (writes (step d e) + scheduled_saves (step d e)
   <= writes d + scheduled_saves d + (if is_Save e then 1 else 0))%nat.
Proof.
  destruct e; simpl.
  - rewrite writes_save_config, scheduled_save_config.
    destruct (_pending_config_save d); lia.
  - unfold timeout. destruct (0 <? scheduled_saves d)%nat eqn:E; [|lia].
    apply Nat.ltb_lt in E. unfold writes, scheduled_saves in *. simpl.
    rewrite filter_remove_save_timer. lia.
Qed.

Lemma run_count (trace : list event) :
  forall d,
    (writes (run trace d) + scheduled_saves (run trace d)
     <= writes d + scheduled_saves d + saves trace)%nat.
Proof.
  induction trace as [|e r IH]; intros d; simpl; [unfold saves; simpl; lia|].
  specialize (IH (step d e)). pose proof (step_count d e) as H.
  unfold run in *. unfold saves in *. simpl.
  destruct (is_Save e); simpl in *; lia.
Qed.

(** With nothing pending and no call of [save_config], nothing is written. *)
Lemma run_idle (trace : list event) :
  forall d, saves trace = 0%nat -> scheduled_saves d = 0%nat ->
            run trace d = d.
Proof.
  induction trace as [|e r IH]; intros d Hs H0; [reflexivity|].
  destruct e; [discriminate|]. simpl.
  assert (Hd : timeout d = d) by (unfold timeout; rewrite H0; reflexivity).
  rewrite Hd. apply IH; assumption.
Qed.

Lemma timeout_writes (d : Docker) :
  debounced d ->
  (writes (timeout d) <= S (writes d))%nat /\ scheduled_saves (timeout d) = 0%nat.
Proof.
  unfold debounced, timeout. intros H.
  destruct (0 <? scheduled_saves d)%nat eqn:E.
  - unfold writes, scheduled_saves in *. simpl.
    rewrite filter_remove_save_timer, H.
    destruct (_pending_config_save d); simpl; split; lia.
  - apply Nat.ltb_ge in E. split; lia.
Qed.

(** C8.  From a docker with no save pending, after any sequence of calls of
    [save_config] and time-outs: at most one [_do_save_config] is scheduled,
    and one is scheduled exactly when [_pending_config_save] is set; a call
    of [save_config] with the flag set changes nothing; [_do_save_config]
    clears the flag; there are never more writes, done or scheduled, than
    calls of [save_config]; and after a time-out no further write happens
    before [save_config] is called again. *)
Theorem save_config_debounce :
  forall (d0 : Docker) (trace : list event),
    _pending_config_save d0 = false -> scheduled_saves d0 = 0%nat ->
    debounced (run trace d0)
    /\ (scheduled_saves (run trace d0) <= 1)%nat
    /\ (forall d, _pending_config_save d = true -> save_config d = d)
    /\ (forall d, _pending_config_save d = false ->
          save_config d = singleShot Do_save_config (with_pending true d))
    /\ (forall d, _pending_config_save (_do_save_config d) = false)
    /\ (writes (run trace d0) + scheduled_saves (run trace d0)
        <= writes d0 + saves trace)%nat
    /\ (forall quiet, saves quiet = 0%nat ->
          (writes (run (trace ++ Timeout :: quiet) d0)
           <= S (writes (run trace d0)))%nat).
Proof.
  intros d0 trace Hp H0.
  assert (Hd0 : debounced d0) by (unfold debounced; rewrite Hp; exact H0).
  pose proof (run_debounced trace d0 Hd0) as Hd.
  split; [exact Hd|]. split.
  { unfold debounced in Hd. rewrite Hd.
    destruct (_pending_config_save (run trace d0)); lia. }
  split. { intros d H. unfold save_config. rewrite H. reflexivity. }
  split. { intros d H. unfold save_config. rewrite H. reflexivity. }
  split. { reflexivity. }
  split. { pose proof (run_count trace d0). lia. }
  intros quiet Hq. unfold run. rewrite fold_left_app. simpl.
  fold (run trace d0).
  destruct (timeout_writes (run trace d0) Hd) as [Hw Hs].
  fold (run quiet (timeout (run trace d0))).
  rewrite run_idle by assumption. exact Hw.
Qed.

End DebounceFacts.

(** ** The size slider *)
Module SizeFacts.

Import Slider Docker SliderFacts.
Local Open Scope Q_scope.

Lemma ltb_inject_Z (a b : Z) : PyNum.ltb (inject_Z a) (inject_Z b) = (a <? b)%Z.
Proof.
  unfold PyNum.ltb, Qcompare, Z.ltb. simpl. rewrite !Z.mul_1_r.
  destruct (a ?= b)%Z; reflexivity.
Qed.

Lemma py_max_inject_Z (a b : Z) :
  PyNum.py_max (inject_Z a) (inject_Z b) = inject_Z (Z.max a b).
Proof.
  unfold PyNum.py_max. rewrite ltb_inject_Z.
  destruct (Z.ltb_spec a b); f_equal; lia.
Qed.

Lemma py_min_inject_Z (a b : Z) :
  PyNum.py_min (inject_Z a) (inject_Z b) = inject_Z (Z.min a b).
Proof.
  unfold PyNum.py_min. rewrite ltb_inject_Z.
  destruct (Z.ltb_spec b a); f_equal; lia.
Qed.

Lemma int_nonneg (x : Q) : 0 <= x -> PyNum.int x = Qfloor x.
Proof.
  intros H. unfold PyNum.int.
  destruct (PyNum.ltb x 0) eqn:E; [|reflexivity].
  apply ltb_lt in E. lra.
Qed.

Lemma int_between (x : Q) (a b : Z) :
  (0 <= a)%Z -> inject_Z a <= x -> x <= inject_Z b ->
  (a <= PyNum.int x <= b)%Z.
Proof.
  intros Ha Hlo Hhi.
  assert (H0 : 0 <= x).
  { apply Qle_trans with (inject_Z a); [|exact Hlo].
    change 0 with (inject_Z 0). rewrite <- Zle_Qle. exact Ha. }
  rewrite int_nonneg by exact H0. split.
  - rewrite <- (Qfloor_Z a). apply Qfloor_resp_le. exact Hlo.
  - rewrite <- (Qfloor_Z b). apply Qfloor_resp_le. exact Hhi.
Qed.

Lemma int_comp (x y : Q) : x == y -> PyNum.int x = PyNum.int y.
Proof.
  intros H. unfold PyNum.int, PyNum.ltb.
  rewrite (Qcompare_comp x y H 0 0 (Qeq_refl 0)).
  destruct (Qcompare y 0); [apply Qfloor_comp | apply Qceiling_comp
                            | apply Qfloor_comp]; exact H.
Qed.

Lemma bound_inside (s : SliderSpinBox) (M n : Z) :
  minimum s = 1 -> maximum s = inject_Z M -> (1 <= n <= M)%Z ->
  bound s (inject_Z n) = inject_Z n.
Proof.
  intros Hmin Hmax Hn. unfold bound. rewrite Hmin, Hmax.
  change 1 with (inject_Z 1). rewrite ltb_inject_Z.
  destruct (Z.ltb_spec n 1); [lia|].
  rewrite ltb_inject_Z. destruct (Z.ltb_spec M n); [lia | reflexivity].
Qed.

Lemma setMaximum_grow (qt_round : Q -> Q) (sl : SliderSpinBox) (M' k : Z) :
  (forall n, qt_round (inject_Z n) = inject_Z n) ->
  minimum sl = 1 -> value sl = inject_Z k -> (1 <= k <= M')%Z ->
  setMaximum qt_round (inject_Z M') sl
  = mkSlider 1 (inject_Z M') (singleStep sl) (inject_Z k).
Proof.
  intros Hqt Hmin Hval Hk. unfold setMaximum. simpl.
  rewrite Hqt, Hmin, Hval.
  assert (E : PyNum.py_min 1 (inject_Z M') = 1).
  { change 1 with (inject_Z 1). rewrite py_min_inject_Z. f_equal. lia. }
  rewrite E. f_equal. apply (bound_inside _ M' k); [reflexivity.. | exact Hk].
Qed.

Lemma expanded_bounds (M : Z) (size : Q) :
  (100 <= M <= 10000)%Z -> (M <= expanded M size <= 10000)%Z.
Proof.
  intros HM. unfold expanded.
  destruct (PyNum.ltb (inject_Z M) size) eqn:E; [|lia].
  apply ltb_lt in E.
  assert (H : (M <= PyNum.int size)%Z).
  { assert (H0 : 0 <= size).
    { apply Qle_trans with (inject_Z M); [|lra].
      change 0 with (inject_Z 0). rewrite <- Zle_Qle. lia. }
    rewrite int_nonneg by exact H0.
    rewrite <- (Qfloor_Z M). apply Qfloor_resp_le. lra. }
  lia.
Qed.

Lemma slider_save_config (d : Docker) :
  size_slider (save_config d) = size_slider d
  /\ last_brush_size (save_config d) = last_brush_size d
  /\ max_brush_size (save_config d) = max_brush_size d.
Proof. unfold save_config. destruct (negb _); auto. Qed.

(** The first half of [_update_size_slider] keeps docker and slider in
    step, with the maximum grown as needed. *)
Lemma expand_max_in_step (qt_round : Q -> Q) (d : Docker) (M k : Z) (size : Q) :
  (forall n, qt_round (inject_Z n) = inject_Z n) ->
  in_step d M k ->
  in_step (expand_max qt_round size d) (expanded M size) k.
Proof.
  intros Hqt (Hmax & HM & Hmin & Hsmax & Hval & Hk & Hlast).
  pose proof (expanded_bounds M size HM) as HM'.
  unfold expand_max, expanded in *. rewrite Hmax.
  destruct (PyNum.ltb (inject_Z M) size) eqn:E.
  2:{ repeat split; auto; lia. }
  change 10000 with (inject_Z 10000). change 100 with (inject_Z 100).
  rewrite py_max_inject_Z, py_min_inject_Z.
  set (M' := Z.min 10000 (Z.max 100 (PyNum.int size))) in *.
  destruct (Qeq_bool (inject_Z M') (inject_Z M)) eqn:Q; simpl.
  - apply Qeq_bool_iff in Q. unfold Qeq in Q. simpl in Q.
    assert (Q' : M' = M) by lia. rewrite Q'.
    repeat split; auto; lia.
  - destruct (slider_save_config
                (size_slider_setMaximum qt_round (inject_Z M')
                   (with_max (inject_Z M') d))) as (Hs & Hl & Hm).
    unfold in_step. rewrite Hs, Hl, Hm. clear Hs Hl Hm.
    unfold size_slider_setMaximum.
    change (size_slider (with_max (inject_Z M') d)) with (size_slider d).
    rewrite (setMaximum_grow qt_round (size_slider d) M' k Hqt Hmin Hval)
      by lia.
    cbn [value]. rewrite Hval, Qeq_bool_refl. simpl.
    repeat split; auto; lia.
Qed.

Lemma int_lower (a : Z) (x : Q) :
  (0 <= a)%Z -> inject_Z a <= x -> (a <= PyNum.int x)%Z.
Proof.
  intros Ha Hlo.
  assert (H0 : 0 <= x).
  { apply Qle_trans with (inject_Z a); [|exact Hlo].
    change 0 with (inject_Z 0). rewrite <- Zle_Qle. exact Ha. }
  rewrite int_nonneg by exact H0.
  rewrite <- (Qfloor_Z a). apply Qfloor_resp_le. exact Hlo.
Qed.

Lemma int_below (x : Q) : 0 <= x -> inject_Z (PyNum.int x) <= x.
Proof. intros H. rewrite int_nonneg by exact H. apply Qfloor_le. Qed.

Lemma int_squeeze (x v : Q) :
  0 <= x -> inject_Z (PyNum.int x) <= v -> v <= x -> PyNum.int v = PyNum.int x.
Proof.
  intros H0 Hlo Hhi.
  assert (Hi : (0 <= PyNum.int x)%Z).
  { apply int_lower; [lia | exact H0]. }
  assert (Hv : 0 <= v).
  { apply Qle_trans with (inject_Z (PyNum.int x)); [|exact Hlo].
    change 0 with (inject_Z 0). rewrite <- Zle_Qle. exact Hi. }
  apply Z.le_antisymm.
  - rewrite (int_nonneg v Hv), (int_nonneg x H0).
    apply Qfloor_resp_le. exact Hhi.
  - apply int_lower; assumption.
Qed.

Lemma bound_whole (s : SliderSpinBox) (n : Z) :
  minimum s = 1 -> (1 <= n)%Z -> inject_Z n <= maximum s ->
  bound s (inject_Z n) = inject_Z n.
Proof.
  intros Hmin Hn Hmax. unfold bound. rewrite Hmin.
  assert (E1 : PyNum.ltb (inject_Z n) 1 = false).
  { apply ltb_ge. change 1 with (inject_Z 1). rewrite <- Zle_Qle. exact Hn. }
  rewrite E1.
  assert (E2 : PyNum.ltb (maximum s) (inject_Z n) = false)
    by (apply ltb_ge; exact Hmax).
  rewrite E2. reflexivity.
Qed.

Lemma py_clamp_range (lo hi x : Q) :
  lo <= hi ->
  lo <= PyNum.py_max lo (PyNum.py_min hi x)
  /\ PyNum.py_max lo (PyNum.py_min hi x) <= hi.
Proof.
  intros H. unfold PyNum.py_max, PyNum.py_min.
  destruct (PyNum.ltb x hi) eqn:E1;
    [apply ltb_lt in E1 | apply ltb_ge in E1];
    match goal with
    | |- context [PyNum.ltb lo ?y] =>
        destruct (PyNum.ltb lo y) eqn:E2;
        [apply ltb_lt in E2 | apply ltb_ge in E2]
    end; split; lra.
Qed.

Lemma new_max_whole (s : Q) :
  PyNum.py_min 10000 (PyNum.py_max 100 (inject_Z (PyNum.int s)))
  = inject_Z (Z.min 10000 (Z.max 100 (PyNum.int s))).
Proof.
  change 10000 with (inject_Z 10000). change 100 with (inject_Z 100).
  rewrite py_max_inject_Z, py_min_inject_Z. reflexivity.
Qed.

Lemma int_whole (n : Z) : (0 <= n)%Z -> PyNum.int (inject_Z n) = n.
Proof.
  intros H. rewrite int_nonneg; [apply Qfloor_Z|].
  change 0 with (inject_Z 0). rewrite <- Zle_Qle. exact H.
Qed.

(** [setMaximum] with a whole maximum, on a slider that starts at 1: the
    value stays, or comes down to the new maximum. *)
Lemma setMaximum_whole (qt_round : Q -> Q) (sl : SliderSpinBox) (M' : Z) :
  (forall n, qt_round (inject_Z n) = inject_Z n) ->
  minimum sl = 1 -> 1 <= value sl -> (1 <= M')%Z ->
  setMaximum qt_round (inject_Z M') sl
  = mkSlider 1 (inject_Z M') (singleStep sl)
             (if PyNum.ltb (inject_Z M') (value sl) then inject_Z M'
              else value sl).
Proof.
  intros Hqt Hmin Hval HM. unfold setMaximum. simpl.
  rewrite Hqt, Hmin.
  assert (E : PyNum.py_min 1 (inject_Z M') = 1).
  { change 1 with (inject_Z 1). rewrite py_min_inject_Z. f_equal. lia. }
  rewrite E. f_equal. unfold bound. simpl.
  assert (E1 : PyNum.ltb (value sl) 1 = false) by (apply ltb_ge; exact Hval).
  rewrite E1. reflexivity.
Qed.

(** The first half of [_update_size_slider] keeps docker and slider in
    agreement, whatever the maximum was. *)
Lemma expand_max_agrees (qt_round : Q -> Q) (d : Docker) (size : Q) :
  (forall n, qt_round (inject_Z n) = inject_Z n) ->
  agrees qt_round d ->
  agrees qt_round (expand_max qt_round size d)
  /\ (if PyNum.ltb (max_brush_size d) size
      then max_brush_size (expand_max qt_round size d)
           == PyNum.py_min 10000
                (PyNum.py_max 100 (inject_Z (PyNum.int size)))
      else max_brush_size (expand_max qt_round size d) = max_brush_size d).
Proof.
  intros Hqt Hagrees.
  pose proof Hagrees as (Hlo & Hhi & Hmin & Hsmax & Hv1 & Hvm & Hlast).
  unfold expand_max.
  destruct (PyNum.ltb (max_brush_size d) size) eqn:E.
  2:{ split; [exact Hagrees | reflexivity]. }
  apply ltb_lt in E. rewrite new_max_whole.
  set (M' := Z.min 10000 (Z.max 100 (PyNum.int size))).
  assert (HM' : (100 <= M' <= 10000)%Z) by (unfold M'; lia).
  assert (HM1 : 100 <= inject_Z M')
    by (change 100 with (inject_Z 100); rewrite <- Zle_Qle; lia).
  assert (HM2 : inject_Z M' <= 10000)
    by (change 10000 with (inject_Z 10000); rewrite <- Zle_Qle; lia).
  (* a whole value below the old maximum is below the new one *)
  assert (Hwhole : forall k, value (size_slider d) = inject_Z k ->
                             value (size_slider d) <= inject_Z M').
  { intros k Hk. rewrite Hk in *. rewrite <- Zle_Qle.
    assert (H0 : (1 <= k)%Z)
      by (rewrite Zle_Qle; change (inject_Z 1) with 1; exact Hv1).
    assert (H1 : (k <= PyNum.int size)%Z) by (apply int_lower; [lia | lra]).
    assert (H2 : (k <= 10000)%Z).
    { rewrite Zle_Qle. change (inject_Z 10000) with 10000. lra. }
    unfold M'. lia. }
  destruct (Qeq_bool (inject_Z M') (max_brush_size d)) eqn:Q; simpl.
  - apply Qeq_bool_iff in Q. split; [exact Hagrees | symmetry; exact Q].
  - split.
    2:{ destruct (slider_save_config
                    (size_slider_setMaximum qt_round (inject_Z M')
                       (with_max (inject_Z M') d))) as (_ & _ & ->).
        rewrite MaxFacts.max_size_slider_setMaximum. reflexivity. }
    destruct (slider_save_config
                (size_slider_setMaximum qt_round (inject_Z M')
                   (with_max (inject_Z M') d))) as (Hs & Hl & Hm).
    unfold agrees. rewrite Hs, Hl, Hm. clear Hs Hl Hm.
    unfold size_slider_setMaximum.
    change (size_slider (with_max (inject_Z M') d)) with (size_slider d).
    rewrite (setMaximum_whole qt_round (size_slider d) M' Hqt Hmin Hv1)
      by lia.
    cbn [value].
    destruct (PyNum.ltb (inject_Z M') (value (size_slider d))) eqn:Ec.
    + (* the new maximum is below the value: the slider comes down *)
      apply ltb_lt in Ec.
      assert (Hne : Qeq_bool (inject_Z M') (value (size_slider d)) = false).
      { destruct (Qeq_bool (inject_Z M') (value (size_slider d))) eqn:Q';
          [|reflexivity].
        apply Qeq_bool_iff in Q'. lra. }
      rewrite Hne. unfold on_size_slider_changed. simpl.
      destruct (brushSize d) as [b|]; simpl; rewrite Hqt.
      * split; [exact HM1|]. split; [exact HM2|]. split; [reflexivity|].
        split; [reflexivity|]. split; [lra|]. split; [lra|].
        intros c Hc. injection Hc as <-. rewrite int_whole by lia.
        reflexivity.
      * split; [exact HM1|]. split; [exact HM2|]. split; [reflexivity|].
        split; [reflexivity|]. split; [lra|]. split; [lra|].
        intros c Hc. exfalso. pose proof (Hwhole _ (Hlast c Hc)). lra.
    + apply ltb_ge in Ec. rewrite Qeq_bool_refl. simpl. rewrite Hqt.
      split; [exact HM1|]. split; [exact HM2|]. split; [reflexivity|].
      split; [reflexivity|]. split; [exact Hv1|]. split; [exact Ec|].
      exact Hlast.
Qed.

(** C7 (amended).  Take a docker whose maximal brush size is between 100
    and 10000, whole or not, and whose slider runs from 1 to that maximum
    and shows the size remembered in [last_brush_size], if one is.  After
    [_update_size_slider(s)] the maximum is the one before, or
    [min(10000, max(100, int(s)))] when [s] was above it; the slider stands
    at the whole part of [s] clamped to the range from 1 to that maximum,
    which is the whole part of [s] itself when [s] is between 1 and 10000;
    and docker and slider agree again.  The spin box is asked to leave
    whole numbers as they are and to round in order. *)
Theorem update_size_slider_shows :
  forall (qt_round : Q -> Q) (d : Docker) (s : Q),
    (forall n, qt_round (inject_Z n) = inject_Z n) ->
    (forall a b, a <= b -> qt_round a <= qt_round b) ->
    agrees qt_round d ->
    let d' := _update_size_slider qt_round (Some s) d in
    let clamped := PyNum.py_max 1 (PyNum.py_min (max_brush_size d') s) in
    (if PyNum.ltb (max_brush_size d) s
     then max_brush_size d'
          == PyNum.py_min 10000 (PyNum.py_max 100 (inject_Z (PyNum.int s)))
     else max_brush_size d' = max_brush_size d)
    /\ value (size_slider d') = inject_Z (PyNum.int clamped)
    /\ (1 <= s -> s <= 10000 ->
        value (size_slider d') = inject_Z (PyNum.int s))
    /\ agrees qt_round d'.
Proof.
  intros qt_round d s Hqt Hmono Hagrees d' clamped.
  destruct (expand_max_agrees qt_round d s Hqt Hagrees) as [H1 Hexp].
  set (d1 := expand_max qt_round s d) in *.
  pose proof H1 as (Hlo & Hhi & Hmin & Hsmax & Hv1 & Hvm & Hlast).
  assert (Hmax' : max_brush_size d' = max_brush_size d1).
  { unfold d', _update_size_slider. fold d1.
    destruct (option_Q_neqb (last_brush_size d1) (clamp_size d1 s));
      reflexivity. }
  assert (Hcl : clamped = clamp_size d1 s).
  { unfold clamped, clamp_size. rewrite Hmax'. reflexivity. }
  assert (Hc : 1 <= clamped /\ clamped <= max_brush_size d1).
  { rewrite Hcl. apply py_clamp_range. lra. }
  assert (Hn : (1 <= PyNum.int clamped)%Z).
  { apply int_lower; [lia|]. change (inject_Z 1) with 1. apply Hc. }
  assert (Hnc : inject_Z (PyNum.int clamped) <= clamped)
    by (apply int_below; lra).
  assert (Hin : inject_Z (PyNum.int clamped) <= maximum (size_slider d1)).
  { rewrite Hsmax, <- (Hqt (PyNum.int clamped)). apply Hmono. lra. }
  assert (Hvalue : value (size_slider d') = inject_Z (PyNum.int clamped)
                   /\ agrees qt_round d').
  { unfold d', _update_size_slider. fold d1. rewrite <- Hcl.
    destruct (option_Q_neqb (last_brush_size d1) clamped) eqn:E.
    - simpl. rewrite Hqt, (bound_whole _ _ Hmin Hn Hin).
      split; [reflexivity|]. unfold agrees. simpl.
      rewrite Hqt, (bound_whole _ _ Hmin Hn Hin).
      split; [exact Hlo|]. split; [exact Hhi|]. split; [exact Hmin|].
      split; [exact Hsmax|].
      split; [change 1 with (inject_Z 1); rewrite <- Zle_Qle; exact Hn|].
      split; [lra|]. intros c Hc'. injection Hc' as <-. reflexivity.
    - unfold option_Q_neqb in E.
      destruct (last_brush_size d1) as [c|] eqn:El; [|discriminate].
      apply negb_false_iff, Qeq_bool_iff in E.
      rewrite (Hlast c eq_refl), (int_comp c clamped E).
      split; [reflexivity | exact H1]. }
  split.
  { rewrite Hmax'. exact Hexp. }
  split; [exact (proj1 Hvalue)|]. split; [|exact (proj2 Hvalue)].
  intros Hs1 Hs2. destruct Hvalue as [-> _]. f_equal.
  assert (Hs0 : 0 <= s) by lra.
  apply int_squeeze; [exact Hs0 | | ].
  - assert (Hi : inject_Z (PyNum.int s) <= max_brush_size d1).
    { destruct (PyNum.ltb (max_brush_size d) s) eqn:E.
      - rewrite new_max_whole in Hexp. rewrite Hexp. rewrite <- Zle_Qle.
        assert (PyNum.int s <= 10000)%Z.
        { rewrite int_nonneg by exact Hs0.
          change 10000%Z with (Qfloor (inject_Z 10000)).
          apply Qfloor_resp_le. exact Hs2. }
        lia.
      - apply ltb_ge in E. rewrite Hexp.
        pose proof (int_below s Hs0). lra. }
    assert (Hi1 : 1 <= inject_Z (PyNum.int s)).
    { change 1 with (inject_Z 1). rewrite <- Zle_Qle.
      apply int_lower; [lia | exact Hs1]. }
    pose proof (int_below s Hs0) as Hb.
    rewrite Hcl. unfold clamp_size, PyNum.py_max, PyNum.py_min.
    destruct (PyNum.ltb s (max_brush_size d1)) eqn:E1;
      [apply ltb_lt in E1 | apply ltb_ge in E1];
      match goal with
      | |- context [PyNum.ltb 1 ?y] =>
          destruct (PyNum.ltb 1 y) eqn:E2;
          [apply ltb_lt in E2 | apply ltb_ge in E2]
      end; lra.
  - rewrite Hcl. unfold clamp_size, PyNum.py_max, PyNum.py_min.
    destruct (PyNum.ltb s (max_brush_size d1)) eqn:E1;
      [apply ltb_lt in E1 | apply ltb_ge in E1];
      match goal with
      | |- context [PyNum.ltb 1 ?y] =>
          destruct (PyNum.ltb 1 y) eqn:E2;
          [apply ltb_lt in E2 | apply ltb_ge in E2]
      end; lra.
Qed.

End SizeFacts.

(** ** The docker on the samples *)
Section DockerSamples.

Import Slider Docker SliderFacts SizeFacts DebounceFacts MaxFacts.
Local Open Scope Q_scope.

Lemma exact_whole (n : Z) : Sample.exact (inject_Z n) = inject_Z n.
Proof. reflexivity. Qed.

Lemma sample_in_step : in_step Sample.docker 1000 40.
Proof.
  unfold in_step. repeat split; try reflexivity; try lia.
  intros c H. injection H as <-. reflexivity.
Qed.

Lemma same_number (v : PyFloat.float) :
  v <> S754_nan -> Sample.same v <> S754_nan.
Proof. intros H. exact H. Qed.

Lemma updateValueFromMouse_binary64_witness :
  PyFloat.ltb (Widget.minimum Sample.hardness_widget)
              (Widget.maximum Sample.hardness_widget) = true
  /\ (- 2 ^ 31 <= 115 < 2 ^ 31)%Z /\ (0 < 200 < 2 ^ 31)%Z
  /\ Widget.singleStep Sample.hardness_widget
     = S754_finite false 4503599627370496 (-52)
  /\ Widget._updateValueFromMouse Sample.same 115 200 Sample.hardness_widget
     = Ok (Widget.mkSlider PyFloat.zero PyFloat.hundred PyFloat.one
             (PyFloat.of_int 57)).
Proof.
  assert (H1 : PyFloat.ltb (Widget.minimum Sample.hardness_widget)
                           (Widget.maximum Sample.hardness_widget) = true)
    by reflexivity.
  assert (H2 : (- 2 ^ 31 <= 115 < 2 ^ 31)%Z) by lia.
  assert (H3 : (0 < 200 < 2 ^ 31)%Z) by lia.
  assert (H4 : Widget.singleStep Sample.hardness_widget
               = S754_finite false 4503599627370496 (-52)) by reflexivity.
  pose proof (WidgetFacts.updateValueFromMouse_binary64 Sample.same
                Sample.hardness_widget 115 200 _ _ same_number H1 H2 H3 H4)
    as H.
  vm_compute in H. destruct H as (_ & _ & H & _).
  split; [exact H1|]. split; [exact H2|]. split; [exact H3|].
  split; [exact H4|]. exact H.
Defined.

(** On a slider from [-2^1023] to [2^1023] the range overflows to an
    infinity, the interpolation at the left edge is NaN, and [round]
    raises: no value is set. *)
Lemma updateValueFromMouse_counterexample :
  PyFloat.ltb (Widget.minimum Sample.wide_widget)
              (Widget.maximum Sample.wide_widget) = true
  /\ (0 < 100)%Z
  /\ PyFloat.ltb PyFloat.zero (Widget.singleStep Sample.wide_widget) = true
  /\ Widget._updateValueFromMouse Sample.same 0 100 Sample.wide_widget
     = Raise ValueError.
Proof. vm_compute. repeat split. Qed.

Lemma exact_in_order (a b : Q) : a <= b -> Sample.exact a <= Sample.exact b.
Proof. intros H. exact H. Qed.

Lemma sample_agrees : agrees Sample.exact Sample.fractional_docker.
Proof.
  unfold agrees. simpl.
  split; [discriminate|]. split; [discriminate|].
  split; [reflexivity|]. split; [reflexivity|]. split; [discriminate|].
  split; [discriminate|].
  intros c H. injection H as <-. reflexivity.
Qed.

Lemma update_size_slider_shows_witness :
  (forall n, Sample.exact (inject_Z n) = inject_Z n)
  /\ (forall a b, a <= b -> Sample.exact a <= Sample.exact b)
  /\ agrees Sample.exact Sample.fractional_docker
  /\ value (size_slider
              (_update_size_slider Sample.exact (Some (25007 # 10))
                 Sample.fractional_docker))
     = inject_Z
         (PyNum.int
            (PyNum.py_max 1
               (PyNum.py_min
                  (max_brush_size
                     (_update_size_slider Sample.exact (Some (25007 # 10))
                        Sample.fractional_docker))
                  (25007 # 10)))).
Proof.
  split; [exact exact_whole|]. split; [exact exact_in_order|].
  split; [exact sample_agrees|].
  exact (proj1 (proj2 (update_size_slider_shows Sample.exact
                         Sample.fractional_docker (25007 # 10)
                         exact_whole exact_in_order sample_agrees))).
Defined.

(** C7 as the specification states it fails for a brush of 12.5 px: the
    clamped size is 12.5 and the slider stands at 12. *)
Lemma update_size_slider_counterexample :
  let d' := _update_size_slider Sample.exact (Some (25 # 2)) Sample.docker in
  PyNum.py_max 1 (PyNum.py_min (max_brush_size d') (25 # 2)) = 25 # 2
  /\ value (size_slider d') = 12
  /\ ~ 12 == 25 # 2.
Proof.
  split; [reflexivity|]. split; [reflexivity|]. discriminate.
Qed.

Lemma save_config_debounce_witness :
  _pending_config_save Sample.docker = false
  /\ scheduled_saves Sample.docker = 0%nat
  /\ debounced (run Sample.saving Sample.docker)
  /\ (writes (run Sample.saving Sample.docker)
      + scheduled_saves (run Sample.saving Sample.docker)
      <= writes Sample.docker + saves Sample.saving)%nat.
Proof.
  assert (H1 : _pending_config_save Sample.docker = false) by reflexivity.
  assert (H2 : scheduled_saves Sample.docker = 0%nat) by reflexivity.
  pose proof (save_config_debounce Sample.docker Sample.saving H1 H2)
    as (Hd & _ & _ & _ & _ & Hc & _).
  split; [exact H1|]. split; [exact H2|]. split; [exact Hd | exact Hc].
Defined.

Lemma max_brush_size_in_range_witness :
  init Sample.exact Sample.big_config (Some (5001 # 2)) = Ok Sample.started
  /\ max_in_range
       (List.fold_left (apply_op Sample.exact) Sample.session Sample.started).
Proof.
  assert (H : init Sample.exact Sample.big_config (Some (5001 # 2))
              = Ok Sample.started) by reflexivity.
  split; [exact H|].
  exact (max_brush_size_in_range Sample.exact Sample.big_config
           (Some (5001 # 2)) Sample.started Sample.session H).
Defined.

End DockerSamples.

(** * Further properties *)

(** ** The order of the search for the mask generator *)
Section SearchOrder.

Import ET ETFacts.

Lemma find_app_first {A : Type} (f : A -> bool) (l1 l2 : list A) (x : A) :
  Forall (fun y => f y = false) l1 -> f x = true ->
  List.find f (l1 ++ x :: l2) = Some x.
Proof.
  intros H Hx. induction H as [|y r Hy Hr IH]; simpl.
  - rewrite Hx. reflexivity.
  - rewrite Hy. exact IH.
Qed.

Lemma find_all_false {A : Type} (f : A -> bool) (l : list A) :
  (forall y, In y l -> f y = false) -> List.find f l = None.
Proof.
  induction l as [|y r IH]; simpl; intros H; [reflexivity|].
  rewrite (H y (or_introl eq_refl)). apply IH. intros z Hz. apply H. now right.
Qed.

Lemma find_first_child (t : string) (cs : list Element) :
  forall (i k : nat) (c : Element),
    nth_error cs i = Some c -> tag c = t ->
    (forall j c', (j < i)%nat -> nth_error cs j = Some c' -> tag c' <> t) ->
    List.find (has_tag t)
      (List.map (fun ic => ([fst ic], snd ic)) (number_from k cs))
    = Some ([(k + i)%nat], c).
Proof.
  induction cs as [|c0 r IH]; intros i k c Hn Ht Hbefore.
  - destruct i; discriminate.
  - destruct i as [|i]; simpl in *.
    + injection Hn as ->. unfold has_tag at 1. simpl. rewrite Ht, String.eqb_refl.
      rewrite Nat.add_0_r. reflexivity.
    + unfold has_tag at 1. simpl.
      destruct (String.eqb_spec (tag c0) t) as [E|E].
      * exfalso. apply (Hbefore 0%nat c0); [lia | reflexivity | exact E].
      * rewrite (IH i (S k) c Hn Ht).
        -- do 3 f_equal. lia.
        -- intros j c' Hj Hc'. apply (Hbefore (S j) c'); [lia | exact Hc'].
Qed.

(** The first direct child tagged [MaskGenerator] is the one returned, also
    when an earlier child holds a [MaskGenerator] deeper down. *)
Theorem find_mask_generator_prefers_child :
  forall (brushdef : Element) (i : nat) (c : Element),
    nth_error (children brushdef) i = Some c ->
    tag c = "MaskGenerator" ->
    (forall j c', (j < i)%nat -> nth_error (children brushdef) j = Some c' ->
                  tag c' <> "MaskGenerator") ->
    _find_mask_generator brushdef = Some ([i], c).
Proof.
  intros brushdef i c Hn Ht Hbefore. unfold _find_mask_generator, find, child_nodes.
  rewrite (find_first_child "MaskGenerator" (children brushdef) i 0 c Hn Ht Hbefore).
  reflexivity.
Qed.

Lemma find_no_child (brushdef : Element) :
  (forall c, In c (children brushdef) -> tag c <> "MaskGenerator") ->
  find "MaskGenerator" brushdef = None.
Proof.
  intros H. unfold find. apply find_all_false. intros [p x] Hin.
  apply in_child_nodes in Hin as (i & _ & Hn). simpl in Hn.
  apply nth_error_In in Hn. unfold has_tag. simpl.
  apply String.eqb_neq. exact (H x Hn).
Qed.

(** With no direct child tagged [MaskGenerator], the descendant returned is
    the first one in document order that is tagged so. *)
Theorem find_mask_generator_document_order :
  forall (brushdef : Element) (before after : list (path * Element))
         (p : path) (x : Element),
    (forall c, In c (children brushdef) -> tag c <> "MaskGenerator") ->
    List.tl (iter brushdef) = (before ++ (p, x) :: after)%list ->
    Forall (fun n => tag (snd n) <> "MaskGenerator") before ->
    tag x = "MaskGenerator" ->
    _find_mask_generator brushdef = Some (p, x).
Proof.
  intros brushdef before after p x Hchildren Hiter Hbefore Ht.
  unfold _find_mask_generator. rewrite (find_no_child brushdef Hchildren).
  unfold find_descendant. rewrite Hiter.
  rewrite (find_app_first (has_tag "MaskGenerator") before after (p, x)).
  - reflexivity.
  - apply Forall_forall. intros n Hn. rewrite Forall_forall in Hbefore.
    unfold has_tag. apply String.eqb_neq. exact (Hbefore n Hn).
  - unfold has_tag. simpl. rewrite Ht. reflexivity.
Qed.

(** The root itself is returned when its tag ends with [MaskGenerator] and
    nothing below it is tagged [MaskGenerator]. *)
Theorem find_mask_generator_root :
  forall brushdef : Element,
    (forall p x, p <> [] -> subtree p brushdef = Some x ->
                 tag x <> "MaskGenerator") ->
    endswith (tag brushdef) "MaskGenerator" = true ->
    _find_mask_generator brushdef = Some ([], brushdef).
Proof.
  intros brushdef Hbelow Hroot. unfold _find_mask_generator.
  rewrite find_no_child.
  2:{ intros c Hc. apply In_nth_error in Hc as [i Hi].
      apply (Hbelow [i] c); [discriminate|]. simpl. rewrite Hi. reflexivity. }
  unfold find_descendant. rewrite find_all_false.
  2:{ intros [p x] Hin. apply in_tl_iter in Hin as [Hs Hp].
      unfold has_tag. simpl. apply String.eqb_neq. exact (Hbelow p x Hp Hs). }
  rewrite iter_unfold. simpl. unfold ends_with_MaskGenerator at 1. simpl.
  rewrite Hroot. reflexivity.
Qed.

End SearchOrder.

(** ** What a write of the hardness changes *)
Section WriteFacts.

Import PyFloat ET ETFacts UpdateFacts.

Variable fromstring : string -> option Element.
Variable tostring : Element -> string.
Variable str : float -> string.
Variable float_of_str : string -> option float.

Local Abbreviation locate := (locate fromstring).
Local Abbreviation holds_hardness := (holds_hardness fromstring).
Local Abbreviation unparsable := (unparsable fromstring).
Local Abbreviation get_loop := (get_loop fromstring float_of_str).
Local Abbreviation set_loop := (set_loop fromstring tostring str).
Local Abbreviation set_hardness := (_set_brush_hardness fromstring tostring str).
Local Abbreviation get_hardness := (_get_brush_hardness fromstring float_of_str).

(** The brush definition and the preset tree after a write of [value] at
    the node [p] of the definition [brushdef] of the param at [i]. *)
Local Abbreviation written_def value p brushdef :=
  (update p (set_fades str (clamp01 value)) brushdef).
Local Abbreviation written_tree value i p brushdef preset_tree :=
  (update [i] (set_text (tostring (written_def value p brushdef))) preset_tree).

Lemma set_loop_updated (value : float) (preset_tree tree' : Element)
    (params : list (nat * Element)) :
  set_loop value preset_tree params = Ok (tree', true) ->
  exists i param brushdef p brushopt,
    In (i, param) params /\ locate param = Located brushdef p brushopt /\
    tree' = written_tree value i p brushdef preset_tree.
Proof.
  induction params as [|[j c] r IH]; [discriminate|].
  rewrite set_loop_step. destruct (locate c) as [| |bd p o] eqn:E.
  - intros H. destruct (IH H) as (i & pa & bd & p & o & Hin & HL & Ht).
    exists i, pa, bd, p, o. split; [right; exact Hin | auto].
  - discriminate.
  - intros H. injection H as <-. exists j, c, bd, p, o.
    split; [left; reflexivity | auto].
Qed.

Lemma text_set (k v : string) (e : Element) : text (set k v e) = text e.
Proof. destruct e; reflexivity. Qed.

Lemma text_set_fades (c : float) (x : Element) : text (set_fades str c x) = text x.
Proof. unfold set_fades. rewrite !text_set. reflexivity. Qed.

Lemma get_set_fades_other (c : float) (x : Element) (k : string) :
  k <> "hfade" -> k <> "vfade" -> get (set_fades str c x) k = get x k.
Proof.
  intros Hh Hv. unfold set_fades.
  rewrite !get_set_other by congruence. reflexivity.
Qed.

Lemma length_update_nth {A : Type} (g : A -> A) (l : list A) :
  forall i, List.length (update_nth i g l) = List.length l.
Proof. induction l as [|a r IH]; intros [|i]; simpl; auto. Qed.

(** A node of a tree after [update] is the node at the same place before,
    either as it was or, when it lies on the way to the updated node,
    itself updated further down. *)
Lemma subtree_update_cases (f : Element -> Element) :
  (forall x, children (f x) = children x) ->
  forall (p : path) (e : Element) (q : path) (x' : Element),
    subtree q (update p f e) = Some x' ->
    exists x, subtree q e = Some x
              /\ (x' = x \/ exists r, p = (q ++ r)%list /\ x' = update r f x).
Proof.
  intros Hch. induction p as [|i p IH]; intros e q x' H.
  - simpl in H. destruct q as [|j q].
    + simpl in H. injection H as <-. exists e. split; [reflexivity|].
      right. exists []. split; reflexivity.
    + simpl in *. rewrite Hch in H. exists x'. auto.
  - destruct e as [t a x cs]. destruct q as [|j q].
    + simpl in H. injection H as <-. exists (Elem t a x cs).
      split; [reflexivity|]. right. exists (i :: p). split; reflexivity.
    + simpl in *. destruct (Nat.eq_dec i j) as [<-|Hne].
      * rewrite nth_error_update_nth in H.
        destruct (nth_error cs i) as [c|]; [|discriminate]. simpl in H.
        destruct (IH c q x' H) as (y & Hy & [-> | (r & -> & ->)]).
        -- exists y. auto.
        -- exists y. split; [exact Hy|]. right. exists r.
           split; reflexivity.
      * rewrite nth_error_update_nth_other in H by exact Hne.
        exists x'. auto.
Qed.

(** [update] removes no node. *)
Lemma subtree_update_exists (f : Element -> Element) :
  (forall x, children (f x) = children x) ->
  forall (p : path) (e : Element) (q : path) (x : Element),
    subtree q e = Some x -> exists x', subtree q (update p f e) = Some x'.
Proof.
  intros Hch. induction p as [|i p IH]; intros e q x H.
  - simpl. destruct q as [|j q].
    + exists (f e). reflexivity.
    + simpl in *. rewrite Hch. exists x. exact H.
  - destruct e as [t a y cs]. destruct q as [|j q].
    + eexists. reflexivity.
    + simpl in *. destruct (Nat.eq_dec i j) as [<-|Hne].
      * rewrite nth_error_update_nth.
        destruct (nth_error cs i) as [c|]; [|discriminate]. simpl.
        exact (IH c q x H).
      * rewrite nth_error_update_nth_other by exact Hne.
        exists x. exact H.
Qed.

(** What [update] keeps of a node on the way to the updated one. *)
Lemma update_below_outline (f : Element -> Element) (k : nat) (r : path)
    (x : Element) :
  tag (update (k :: r) f x) = tag x
  /\ attrib (update (k :: r) f x) = attrib x
  /\ text (update (k :: r) f x) = text x
  /\ List.length (children (update (k :: r) f x)) = List.length (children x).
Proof.
  destruct x as [t a y cs]. simpl. rewrite length_update_nth. auto.
Qed.

(** X4.  The write changes the two fades of one node of one brush
    definition and the text of the param that holds it, and nothing else.
    The preset root keeps its tag, attributes, text and number of children,
    and every child but the param is the same.  The new text of the param
    is the serialisation of a definition with exactly the nodes of the old
    one: every node keeps its tag, its text and the number of its children;
    every node but the mask generator node keeps its attributes; the mask
    generator node, the one [_find_mask_generator] returns, has both fades
    equal to the text of the clamped value and keeps every other
    attribute. *)
Theorem set_brush_hardness_changes_only_fades :
  forall (value : float) (preset_tree tree' : Element),
    set_loop value preset_tree (findall "param" preset_tree) = Ok (tree', true) ->
    exists (i : nat) (param brushdef brushdef' : Element) (p : path)
           (brushopt : Element),
      In (i, param) (findall "param" preset_tree)
      /\ fromstring (text param) = Some brushdef
      /\ _find_mask_generator brushdef = Some (p, brushopt)
      /\ tag tree' = tag preset_tree
      /\ attrib tree' = attrib preset_tree
      /\ text tree' = text preset_tree
      /\ List.length (children tree') = List.length (children preset_tree)
      /\ nth_error (children tree') i = Some (set_text (tostring brushdef') param)
      /\ (forall j, j <> i ->
            nth_error (children tree') j = nth_error (children preset_tree) j)
      /\ (forall q, subtree q brushdef' = None <-> subtree q brushdef = None)
      /\ (forall q x x',
            subtree q brushdef = Some x -> subtree q brushdef' = Some x' ->
            tag x' = tag x /\ text x' = text x
            /\ List.length (children x') = List.length (children x)
            /\ (q <> p -> attrib x' = attrib x)
            /\ (q = p ->
                get x' "hfade" = Some (str (clamp01 value))
                /\ get x' "vfade" = Some (str (clamp01 value)))
            /\ (forall k, k <> "hfade" -> k <> "vfade" -> get x' k = get x k)).
Proof.
  intros value tree tree' H.
  apply set_loop_updated in H as (i & param & bd & p & o & Hin & HL & ->).
  exists i, param, bd, (written_def value p bd), p, o.
  apply locate_located in HL as (_ & _ & Hp & _ & Hfind).
  assert (Hn : nth_error (children tree) i = Some param).
  { apply filter_In in Hin as [Hin _]. apply in_number_from in Hin as [_ Hn].
    rewrite Nat.sub_0_r in Hn. exact Hn. }
  assert (Hch : forall z, children (set_fades str (clamp01 value) z) = children z)
    by (intros z; apply children_set_fades).
  split; [exact Hin|]. split; [exact Hp|]. split; [exact Hfind|].
  destruct tree as [t a x cs]. simpl in Hn. simpl.
  split; [reflexivity|]. split; [reflexivity|]. split; [reflexivity|].
  split; [apply length_update_nth|].
  split; [rewrite nth_error_update_nth, Hn; reflexivity|].
  split; [intros j Hj; apply nth_error_update_nth_other; congruence|].
  split.
  - intros q. split.
    + intros Hnone. destruct (subtree q bd) as [y|] eqn:Hy; [|reflexivity].
      destruct (subtree_update_exists _ Hch p bd q y Hy) as [y' Hy'].
      congruence.
    + intros Hnone.
      destruct (subtree q (written_def value p bd)) as [y'|] eqn:Hy';
        [|reflexivity].
      destruct (subtree_update_cases _ Hch p bd q y' Hy') as (y & Hy & _).
      congruence.
  - intros q y y' Hy Hy'.
    destruct (subtree_update_cases _ Hch p bd q y' Hy')
      as (y0 & Hy0 & Hcase).
    assert (y0 = y) by congruence. subst y0.
    destruct Hcase as [-> | (r & -> & ->)].
    + split; [reflexivity|]. split; [reflexivity|]. split; [reflexivity|].
      split; [reflexivity|]. split; [|reflexivity].
      intros ->. rewrite (subtree_update _ p bd y Hy) in Hy'.
      injection Hy' as Hy'. rewrite <- Hy'.
      split; [apply set_fades_hfade | apply set_fades_vfade].
    + destruct r as [|k r].
      * simpl. rewrite tag_set_fades, text_set_fades, Hch.
        split; [reflexivity|]. split; [reflexivity|]. split; [reflexivity|].
        split; [intros Hne; exfalso; apply Hne; symmetry; apply app_nil_r|].
        split; [intros _; split;
                  [apply set_fades_hfade | apply set_fades_vfade]|].
        intros k0 Hh Hv. apply get_set_fades_other; assumption.
      * destruct (update_below_outline
                    (set_fades str (clamp01 value)) k r y)
          as (Ht & Ha & Hx & Hl).
        split; [exact Ht|]. split; [exact Hx|]. split; [exact Hl|].
        split; [intros _; exact Ha|]. split.
        -- intros Hq. exfalso.
           assert (Hlen : List.length q = List.length (q ++ k :: r)%list)
             by (rewrite <- Hq; reflexivity).
           rewrite length_app in Hlen. simpl in Hlen. lia.
        -- intros k0 _ _. unfold get. rewrite Ha. reflexivity.
Qed.

(** *** One write after another *)

Lemma dict_set_overwrite (k v w : string) (d : list (string * string)) :
  dict_set k w (dict_set k v d) = dict_set k w d.
Proof.
  induction d as [|[k0 v0] r IH]; simpl.
  - rewrite String.eqb_refl. reflexivity.
  - destruct (String.eqb k0 k) eqn:E; simpl; rewrite E; [reflexivity|].
    rewrite IH. reflexivity.
Qed.

Lemma dict_set_between (k k' a b c : string) (d : list (string * string)) :
  k <> k' ->
  dict_set k a (dict_set k' b (dict_set k c d))
  = dict_set k' b (dict_set k a d).
Proof.
  intros Hne.
  assert (E1 : String.eqb k k' = false) by (apply String.eqb_neq; exact Hne).
  assert (E2 : String.eqb k' k = false)
    by (apply String.eqb_neq; congruence).
  induction d as [|[k0 v0] r IH].
  - repeat (simpl; rewrite ?String.eqb_refl, ?E1, ?E2). reflexivity.
  - destruct (String.eqb k0 k) eqn:Ek.
    + apply String.eqb_eq in Ek. subst k0.
      repeat (simpl; rewrite ?String.eqb_refl, ?E1, ?E2). reflexivity.
    + destruct (String.eqb k0 k') eqn:Ek';
        repeat (simpl; rewrite ?String.eqb_refl, ?E1, ?E2, ?Ek, ?Ek').
      * rewrite dict_set_overwrite. reflexivity.
      * rewrite IH. reflexivity.
Qed.

Lemma set_fades_overwrite (c c' : float) (x : Element) :
  set_fades str c' (set_fades str c x) = set_fades str c' x.
Proof.
  destruct x as [t a y cs]. unfold set_fades. simpl. f_equal.
  rewrite (dict_set_between "hfade" "vfade" (str c') (str c) (str c) a)
    by discriminate.
  apply dict_set_overwrite.
Qed.

Lemma update_nth_update_nth {A : Type} (f g : A -> A) (l : list A) :
  forall i, update_nth i f (update_nth i g l) = update_nth i (fun a => f (g a)) l.
Proof. induction l as [|a r IH]; intros [|i]; simpl; f_equal; auto. Qed.

Lemma update_nth_ext {A : Type} (f g : A -> A) (l : list A) :
  (forall a, f a = g a) -> forall i, update_nth i f l = update_nth i g l.
Proof.
  intros H. induction l as [|a r IH]; intros [|i]; simpl; f_equal; auto.
Qed.

Lemma update_overwrite (f g : Element -> Element) :
  (forall x, f (g x) = f x) ->
  forall p e, update p f (update p g e) = update p f e.
Proof.
  intros H. induction p as [|i p IH]; intros e; simpl; [apply H|].
  destruct e as [t a x cs]. f_equal.
  rewrite update_nth_update_nth. apply update_nth_ext. exact IH.
Qed.

Lemma set_text_overwrite (x y : string) (e : Element) :
  set_text y (set_text x e) = set_text y e.
Proof. destruct e; reflexivity. Qed.

(** The write at a located param, as a whole. *)
Lemma set_at_located (value : float) (view : View) (preset_tree : Element)
    (pre post : list (nat * Element)) (i : nat) (param brushdef : Element)
    (p : path) (brushopt : Element) :
  fromstring (toXML view) = Some preset_tree ->
  findall "param" preset_tree = (pre ++ (i, param) :: post)%list ->
  Forall (fun jc => locate (snd jc) = Skip) pre ->
  locate param = Located brushdef p brushopt ->
  set_hardness value (Some view)
  = Some (fromXML (tostring (written_tree value i p brushdef preset_tree)) view).
Proof.
  intros Htree Hparams Hskip HL.
  unfold _set_brush_hardness, set_body. rewrite Htree, Hparams.
  rewrite set_loop_skips by exact Hskip.
  rewrite set_loop_step, HL. reflexivity.
Qed.

Section Laws.

Hypothesis fromstring_tostring : forall e, fromstring (tostring e) = Some e.
Hypothesis tostring_not_empty : forall e, tostring e <> "".

(** After the write the same param is located, with the new definition. *)
Lemma located_after_write (value : float) (param brushdef : Element)
    (p : path) (brushopt : Element) :
  locate param = Located brushdef p brushopt ->
  locate (set_text (tostring (written_def value p brushdef)) param)
  = Located (written_def value p brushdef) p
            (set_fades str (clamp01 value) brushopt).
Proof using fromstring_tostring tostring_not_empty.
  intros HL. apply locate_located in HL as (Hn & Ht & Hp & Ha & Hf).
  apply locate_located. rewrite get_set_text, text_set_text.
  split; [exact Hn|]. split; [apply tostring_not_empty|].
  split; [apply fromstring_tostring|]. split.
  - rewrite get_update; [exact Ha|]. intros x. apply get_set_fades_type.
  - apply find_mask_generator_update; auto.
    + intros x. apply tag_set_fades.
    + intros x. apply children_set_fades.
Qed.

(** The view after a write, ready for the next call. *)
Lemma view_after_write (value : float) (view : View) (preset_tree : Element)
    (pre post : list (nat * Element)) (i : nat) (param brushdef : Element)
    (p : path) (brushopt : Element) :
  findall "param" preset_tree = (pre ++ (i, param) :: post)%list ->
  locate param = Located brushdef p brushopt ->
  let tree' := written_tree value i p brushdef preset_tree in
  let view' := fromXML (tostring tree') view in
  fromstring (toXML view') = Some tree'
  /\ findall "param" tree'
     = (pre ++ (i, set_text (tostring (written_def value p brushdef)) param)
            :: post)%list
  /\ locate (set_text (tostring (written_def value p brushdef)) param)
     = Located (written_def value p brushdef) p
               (set_fades str (clamp01 value) brushopt).
Proof using fromstring_tostring tostring_not_empty.
  intros Hparams HL tree' view'. split; [apply fromstring_tostring|].
  split; [apply findall_param_update; exact Hparams|].
  apply located_after_write. exact HL.
Qed.

(** The last write wins: writing [w] after [v] leaves the preset that
    writing [w] alone leaves. *)
Theorem set_brush_hardness_last_wins :
  forall (v w : float) (view : View) (preset_tree : Element)
         (pre post : list (nat * Element)) (i : nat) (param : Element),
    fromstring (toXML view) = Some preset_tree ->
    findall "param" preset_tree = (pre ++ (i, param) :: post)%list ->
    holds_hardness param ->
    Forall (fun jc => ~ unparsable (snd jc)) pre ->
    option_map preset_xml (set_hardness w (set_hardness v (Some view)))
    = option_map preset_xml (set_hardness w (Some view)).
Proof using fromstring_tostring tostring_not_empty.
  intros v w view tree pre post i param Htree Hparams Hh Hpre.
  destruct (first_located fromstring pre post i param Hh Hpre)
    as (pre' & i' & pa & post' & bd & p & o & Heq & Hskip & HL).
  rewrite Heq in Hparams. clear Heq Hh Hpre pre post i param.
  rewrite (set_at_located v view tree pre' post' i' pa bd p o
             Htree Hparams Hskip HL).
  rewrite (set_at_located w view tree pre' post' i' pa bd p o
             Htree Hparams Hskip HL).
  destruct (view_after_write v view tree pre' post' i' pa bd p o Hparams HL)
    as (Htree1 & Hparams1 & HL1).
  rewrite (set_at_located w _ _ pre' post' i' _ _ p _
             Htree1 Hparams1 Hskip HL1).
  cbn [option_map preset_xml fromXML]. do 2 f_equal.
  rewrite (update_overwrite _ _ (set_fades_overwrite (clamp01 v) (clamp01 w))).
  rewrite (update_overwrite (set_text _) (set_text _)
             (set_text_overwrite _ _)).
  reflexivity.
Qed.

End Laws.

(** *** Reading *)

(** A [hfade] that is not a number ends the reading with [None]: the
    [vfade] of the node is not tried, and neither are the params after. *)
Theorem get_brush_hardness_bad_fade :
  forall (view : View) (preset_tree : Element)
         (pre post : list (nat * Element)) (i : nat) (param brushdef : Element)
         (p : path) (brushopt : Element) (h : string),
    fromstring (toXML view) = Some preset_tree ->
    findall "param" preset_tree = (pre ++ (i, param) :: post)%list ->
    Forall (fun jc => locate (snd jc) = Skip) pre ->
    locate param = Located brushdef p brushopt ->
    get brushopt "hfade" = Some h ->
    float_of_str h = None ->
    get_hardness (Some view) = Ok None.
Proof.
  intros view tree pre post i param bd p o h Htree Hparams Hskip HL Hh Hf.
  unfold _get_brush_hardness, get_body. rewrite Htree, Hparams.
  rewrite get_loop_skips by exact Hskip.
  rewrite get_loop_step, HL. unfold hfade_of. rewrite Hh, Hf. reflexivity.
Qed.

(** A param before the one with the hardness whose text does not parse ends
    both the reading and the writing: nothing is read, nothing is changed. *)
Theorem unparsable_param_blocks :
  forall (value : float) (view : View) (preset_tree : Element)
         (pre post : list (nat * Element)) (i : nat) (param : Element),
    fromstring (toXML view) = Some preset_tree ->
    findall "param" preset_tree = (pre ++ (i, param) :: post)%list ->
    Forall (fun jc => locate (snd jc) = Skip) pre ->
    unparsable param ->
    get_hardness (Some view) = Ok None
    /\ set_hardness value (Some view) = Some view.
Proof.
  intros value view tree pre post i param Htree Hparams Hskip Hu.
  apply locate_malformed in Hu. split.
  - unfold _get_brush_hardness, get_body. rewrite Htree, Hparams.
    rewrite get_loop_skips by exact Hskip.
    rewrite get_loop_step, Hu. reflexivity.
  - unfold _set_brush_hardness, set_body. rewrite Htree, Hparams.
    rewrite set_loop_skips by exact Hskip.
    rewrite set_loop_step, Hu. reflexivity.
Qed.

(** The clamp applied twice is the clamp, and a value strictly between 0.0
    and 1.0 goes through unchanged. *)
Theorem clamp01_idempotent :
  forall value : float,
    clamp01 (clamp01 value) = clamp01 value
    /\ (ltb zero value = true -> ltb value one = true -> clamp01 value = value).
Proof.
  intros value. unfold clamp01, py_max, py_min. split.
  - destruct (ltb value one) eqn:H1.
    + destruct (ltb zero value) eqn:H0.
      * rewrite H1, H0. reflexivity.
      * reflexivity.
    + reflexivity.
  - intros H0 H1. rewrite H1, H0. reflexivity.
Qed.

Section ReadBack.

Hypothesis fromstring_tostring : forall e, fromstring (tostring e) = Some e.
Hypothesis tostring_not_empty : forall e, tostring e <> "".
Hypothesis float_of_str_str : forall x, float_of_str (str x) = Some x.

(** Reading after a write at a located param. *)
Lemma read_after_write (value : float) (view : View) (preset_tree : Element)
    (pre post : list (nat * Element)) (i : nat) (param brushdef : Element)
    (p : path) (brushopt : Element) :
  fromstring (toXML view) = Some preset_tree ->
  findall "param" preset_tree = (pre ++ (i, param) :: post)%list ->
  Forall (fun jc => locate (snd jc) = Skip) pre ->
  locate param = Located brushdef p brushopt ->
  get_hardness (set_hardness value (Some view)) = Ok (Some (clamp01 value)).
Proof using fromstring_tostring tostring_not_empty float_of_str_str.
  intros Htree Hparams Hskip HL.
  rewrite (set_at_located value view preset_tree pre post i param brushdef p
             brushopt Htree Hparams Hskip HL).
  destruct (view_after_write fromstring_tostring tostring_not_empty
              value view preset_tree pre post i param brushdef p brushopt
              Hparams HL) as (Htree1 & Hparams1 & HL1).
  unfold _get_brush_hardness, get_body. rewrite Htree1, Hparams1.
  rewrite get_loop_skips by exact Hskip.
  rewrite get_loop_step, HL1. unfold hfade_of.
  rewrite set_fades_hfade, float_of_str_str. reflexivity.
Qed.

End ReadBack.

End WriteFacts.

(** ** The hardness slider and the brush *)
Section SyncFacts.

Import PyFloat ET HardnessSync.

Lemma in_percentages (n : Z) :
  (0 <= n <= 100)%Z -> In n Display.percentages.
Proof.
  intros H. unfold Display.percentages. apply in_map_iff.
  exists (Z.to_nat n). split; [lia|]. apply in_seq. lia.
Qed.

Lemma display_mirror_table :
  forallb (fun k => match Display.mirror k with
                    | IntOk m => ((k - 1 <=? m) && (m <=? k))%Z
                    | _ => false
                    end) Display.percentages = true.
Proof. vm_compute. reflexivity. Qed.

Lemma display_mirror_cases (n : Z) :
  (0 <= n <= 100)%Z ->
  exists m : Z, Display.mirror n = IntOk m /\ (n - 1 <= m <= n)%Z.
Proof.
  intros Hn. pose proof display_mirror_table as Hall.
  rewrite forallb_forall in Hall. specialize (Hall n (in_percentages n Hn)).
  destruct (Display.mirror n) as [m| |]; try discriminate.
  exists m. split; [reflexivity|].
  apply andb_true_iff in Hall as [H1 H2].
  apply Z.leb_le in H1. apply Z.leb_le in H2. lia.
Qed.

(** A percentage that goes to the internal scale and back comes out as
    itself or as one less, and the conversion never raises. *)
Theorem display_mirror_within_one :
  forall n : Z,
    (0 <= n <= 100)%Z ->
    exists m : Z,
      Display.mirror n = IntOk m /\ (n - 1 <= m <= n)%Z.
Proof. exact display_mirror_cases. Qed.

(** The clamp leaves the internal value of every percentage as it is. *)
Lemma clamp01_internal_value (n : Z) :
  (0 <= n <= 100)%Z ->
  clamp01 (Display.internal_value (of_int n))
  = Display.internal_value (of_int n).
Proof.
  intros Hn.
  assert (Hall : forallb
                   (fun k => (k =? 0)%Z || (k =? 100)%Z ||
                             (ltb zero (Display.internal_value (of_int k))
                              && ltb (Display.internal_value (of_int k)) one))
                   Display.percentages = true)
    by (vm_compute; reflexivity).
  rewrite forallb_forall in Hall. specialize (Hall n (in_percentages n Hn)).
  apply orb_true_iff in Hall as [Hall | Hall].
  - apply orb_true_iff in Hall as [E | E]; apply Z.eqb_eq in E; subst n;
      reflexivity.
  - apply andb_true_iff in Hall as [H0 H1].
    unfold clamp01, py_max, py_min. rewrite H1, H0. reflexivity.
Qed.

Variable fromstring : string -> option Element.
Variable tostring : Element -> string.
Variable str : float -> string.
Variable float_of_str : string -> option float.
Variable qt_round : Q -> Q.

Local Abbreviation locate := (locate fromstring).
Local Abbreviation holds_hardness := (holds_hardness fromstring).
Local Abbreviation unparsable := (unparsable fromstring).
Local Abbreviation slider_changed :=
  (on_hardness_slider_changed fromstring tostring str).
Local Abbreviation update_hardness :=
  (update_hardness_from_brush fromstring float_of_str qt_round).

(** A hardness in the preset that [float] reads as NaN or as an infinity
    makes the hardness half of [update_from_current_brush] raise; any other
    number read goes on to [_update_hardness_slider]. *)
Theorem update_hardness_not_a_number :
  forall (h : HardnessDocker) (view : View) (preset_tree : Element)
         (pre post : list (nat * Element)) (i : nat) (param brushdef : Element)
         (p : path) (brushopt : Element) (t : string) (x : float),
    active_view h = Some view ->
    fromstring (toXML view) = Some preset_tree ->
    findall "param" preset_tree = (pre ++ (i, param) :: post)%list ->
    Forall (fun jc => locate (snd jc) = Skip) pre ->
    locate param = Located brushdef p brushopt ->
    get brushopt "hfade" = Some t ->
    float_of_str t = Some x ->
    update_hardness h
    = match x with
      | S754_nan => Raise ValueError
      | S754_infinity _ => Raise OverflowError
      | _ => _update_hardness_slider qt_round (Some x) h
      end.
Proof.
  intros h view tree pre post i param bd p o t x
         Hview Htree Hparams Hskip HL Ht Hx.
  unfold update_hardness_from_brush. rewrite Hview.
  unfold _get_brush_hardness, get_body. rewrite Htree, Hparams.
  rewrite get_loop_skips by exact Hskip.
  rewrite get_loop_step, HL. unfold hfade_of. rewrite Ht, Hx. simpl.
  destruct x as [s|s| |s m e]; reflexivity.
Qed.

Section Cycle.

Hypothesis fromstring_tostring : forall e, fromstring (tostring e) = Some e.
Hypothesis tostring_not_empty : forall e, tostring e <> "".
Hypothesis float_of_str_str : forall x, float_of_str (str x) = Some x.

(** From the slider to the brush and back: after the slider has written the
    percentage [n], the brush holds [n / 100.0] unclamped, and the next
    [update_from_current_brush] leaves the docker alone when [n] comes back
    as itself and moves the slider to one less otherwise. *)
Theorem hardness_slider_cycle :
  forall (n : Z) (h : HardnessDocker) (view : View) (preset_tree : Element)
         (pre post : list (nat * Element)) (i : nat) (param : Element),
    (0 <= n <= 100)%Z ->
    active_view h = Some view ->
    fromstring (toXML view) = Some preset_tree ->
    findall "param" preset_tree = (pre ++ (i, param) :: post)%list ->
    holds_hardness param ->
    Forall (fun jc => ~ unparsable (snd jc)) pre ->
    let h1 := slider_changed n h in
    _get_brush_hardness fromstring float_of_str (active_view h1)
    = Ok (Some (Display.internal_value (of_int n)))
    /\ exists m : Z,
         Display.mirror n = IntOk m /\ (n - 1 <= m <= n)%Z
         /\ update_hardness h1
            = Ok (if (m =? n)%Z then h1
                  else {| last_hardness := Some m;
                          hardness_slider :=
                            Slider.setValue qt_round (inject_Z m) (hardness_slider h1);
                          active_view := active_view h1 |}).
Proof using fromstring_tostring tostring_not_empty float_of_str_str.
  intros n h view tree pre post i param Hn Hview Htree Hparams Hh Hpre h1.
  destruct (first_located fromstring pre post i param Hh Hpre)
    as (pre' & i' & pa & post' & bd & p & o & Heq & Hskip & HL).
  rewrite Heq in Hparams. clear Heq Hh Hpre pre post i param.
  assert (Hget : _get_brush_hardness fromstring float_of_str (active_view h1)
                 = Ok (Some (Display.internal_value (of_int n)))).
  { unfold h1, on_hardness_slider_changed. cbn [active_view]. rewrite Hview.
    rewrite (read_after_write fromstring tostring str float_of_str
               fromstring_tostring tostring_not_empty float_of_str_str
               _ view tree pre' post' i' pa bd p o Htree Hparams Hskip HL).
    rewrite clamp01_internal_value by exact Hn. reflexivity. }
  split; [exact Hget|].
  destruct (display_mirror_cases n Hn) as (m & Hm & Hrange).
  exists m. split; [exact Hm|]. split; [exact Hrange|].
  unfold update_hardness_from_brush.
  assert (Hsome : exists v', active_view h1 = Some v').
  { unfold h1, on_hardness_slider_changed. cbn [active_view]. rewrite Hview.
    rewrite (set_at_located fromstring tostring str _ view tree pre' post' i'
               pa bd p o Htree Hparams Hskip HL). eauto. }
  destruct Hsome as [v' Hv']. rewrite Hv'. rewrite <- Hv', Hget. simpl.
  unfold Display.mirror in Hm. rewrite Hm.
  unfold h1 at 1. cbn [last_hardness on_hardness_slider_changed option_Z_neqb].
  rewrite Z.eqb_sym. destruct (m =? n)%Z; reflexivity.
Qed.

End Cycle.

End SyncFacts.

(** ** The configuration file *)
Module PersistFacts.

Import Slider Docker Persist SliderFacts MaxFacts.
Local Open Scope Q_scope.

Lemma max_min_fixed (m : Q) :
  100 <= m -> m <= 10000 ->
  PyNum.py_max 100 (PyNum.py_min 10000 m) == m.
Proof.
  intros H1 H2. unfold PyNum.py_max, PyNum.py_min.
  destruct (PyNum.ltb m 10000) eqn:E1;
    [apply ltb_lt in E1 | apply ltb_ge in E1];
    match goal with
    | |- context [PyNum.ltb 100 ?x] =>
        destruct (PyNum.ltb 100 x) eqn:E2;
        [apply ltb_lt in E2 | apply ltb_ge in E2]
    end; lra.
Qed.

(** What a session saves, the next session loads: a maximum between 100 and
    10000 comes back from the configuration file as the same number. *)
Theorem load_config_of_saved :
  forall (m : Q) (d : Docker),
    100 <= m -> m <= 10000 ->
    exists d',
      load_config (config_of m) d = Ok d'
      /\ max_brush_size d' == m
      /\ timers d' = (timers d ++ [Validate_max_brush_size])%list.
Proof.
  intros m d H1 H2.
  exists (singleShot Validate_max_brush_size
            (with_max (PyNum.py_max 100 (PyNum.py_min 10000 m)) d)).
  split; [reflexivity|]. split; [|reflexivity].
  simpl. apply max_min_fixed; assumption.
Qed.

Lemma dict_get_default_missing (key : string) (default : pyval)
    (config : list (string * pyval)) :
  (forall v, ~ In (key, v) config) ->
  dict_get_default key default config = default.
Proof.
  induction config as [|[k v] r IH]; simpl; intros H; [reflexivity|].
  destruct (String.eqb_spec k key) as [E|E].
  - exfalso. apply (H v). left. rewrite E. reflexivity.
  - apply IH. intros v' Hin. apply (H v'). right. exact Hin.
Qed.

(** A file that cannot be read or decoded, and a file without the key
    [max_brush_size], give the default maximum of 1000, whatever the
    maximum was before. *)
Theorem load_config_default :
  forall (file : config_file) (d : Docker),
    file = Unreadable IOError \/ file = Unreadable JSONDecodeError \/
    (exists config, file = Loaded (JObject config)
                    /\ forall v, ~ In ("max_brush_size", v) config) ->
    exists d', load_config file d = Ok d' /\ max_brush_size d' = 1000.
Proof.
  intros file d [-> | [-> | (config & -> & Hmissing)]].
  - eexists. split; reflexivity.
  - eexists. split; reflexivity.
  - unfold load_config.
    rewrite (dict_get_default_missing _ _ _ Hmissing). simpl.
    eexists. split; reflexivity.
Qed.

(** A decoded file stops [load_config] (and with it [__init__]) with an
    exception exactly when it is no JSON object, or when the value under
    [max_brush_size] is not a number: the [except] clause only catches
    [JSONDecodeError] and [IOError]. *)
Theorem load_config_raises :
  forall (j : json) (d : Docker),
    (exists e, load_config (Loaded j) d = Raise e) <->
    match j with
    | JOther => True
    | JObject config =>
        is_number (dict_get_default "max_brush_size" (VNum 1000) config) = false
    end.
Proof.
  intros [config|] d; unfold load_config.
  - destruct (dict_get_default "max_brush_size" (VNum 1000) config)
      as [|b|q| |[|]|s| |]; simpl; split;
      try discriminate; try reflexivity;
      try (intros [e H]; discriminate); try (intros _; eexists; reflexivity).
  - simpl. split; [trivial | intros _; eexists; reflexivity].
Qed.

Lemma log_save_config (d : Docker) :
  config_writes (save_config d) = config_writes d.
Proof. unfold save_config. destruct (negb _); reflexivity. Qed.

Lemma writes_on_size_slider_changed (v : Q) (d : Docker) :
  config_writes (on_size_slider_changed v d) = config_writes d.
Proof. unfold on_size_slider_changed. destruct (brushSize d); reflexivity. Qed.

Lemma writes_size_slider_setMaximum (qt_round : Q -> Q) (m : Q) (d : Docker) :
  config_writes (size_slider_setMaximum qt_round m d) = config_writes d.
Proof.
  unfold size_slider_setMaximum. destruct (Qeq_bool _ _); [reflexivity|].
  rewrite writes_on_size_slider_changed. reflexivity.
Qed.

Lemma writes_validate (qt_round : Q -> Q) (d : Docker) :
  config_writes (_validate_max_brush_size qt_round d) = config_writes d.
Proof.
  unfold _validate_max_brush_size.
  destruct (brushSize d); [|reflexivity].
  destruct (_ && _).
  - rewrite log_save_config, writes_size_slider_setMaximum. reflexivity.
  - destruct (PyNum.ltb _ _); [|reflexivity].
    rewrite log_save_config, writes_size_slider_setMaximum. reflexivity.
Qed.

Lemma writes_update_size_slider (qt_round : Q -> Q) (size : option Q)
    (d : Docker) :
  config_writes (_update_size_slider qt_round size d) = config_writes d.
Proof.
  unfold _update_size_slider. destruct size as [size|]; [|reflexivity].
  assert (H : config_writes (expand_max qt_round size d) = config_writes d).
  { unfold expand_max. destruct (PyNum.ltb _ _); [|reflexivity].
    destruct (negb _); [|reflexivity].
    rewrite log_save_config, writes_size_slider_setMaximum. reflexivity. }
  destruct (option_Q_neqb _ _); simpl; exact H.
Qed.

Lemma apply_op_written (qt_round : Q -> Q) (d : Docker) (o : op) :
  max_in_range d -> written_in_range d ->
  written_in_range (apply_op qt_round d o).
Proof.
  unfold written_in_range. intros Hm Hw. destruct o; simpl.
  - rewrite writes_validate. exact Hw.
  - rewrite writes_update_size_slider. exact Hw.
  - unfold _update_size_from_action. destruct (brushSize d); [|exact Hw].
    rewrite writes_update_size_slider. exact Hw.
  - rewrite log_save_config. exact Hw.
  - constructor; [exact Hm | exact Hw].
  - rewrite writes_on_size_slider_changed. exact Hw.
  - exact Hw.
Qed.

Lemma init_written (qt_round : Q -> Q) (file : config_file) (size : option Q)
    (d : Docker) :
  init qt_round file size = Ok d -> config_writes d = [].
Proof.
  unfold init.
  destruct (load_config file _) as [d1|e] eqn:E; simpl; [|discriminate].
  intros H. injection H as <-.
  assert (H1 : config_writes d1 = []).
  { unfold load_config in E. destruct file as [|e|[config|]]; simpl in E.
    - injection E as <-. reflexivity.
    - destruct e; simpl in E; try discriminate; injection E as <-; reflexivity.
    - destruct (clamp_loaded _); simpl in E; [|discriminate].
      injection E as <-. reflexivity.
    - discriminate. }
  set (d2 := with_slider (new_size_slider qt_round (max_brush_size d1)) d1).
  assert (H2 : config_writes d2 = []) by exact H1.
  unfold _update_size_from_action.
  destruct (brushSize d2); [|exact H2].
  rewrite writes_update_size_slider. exact H2.
Qed.

(** Every maximum that [_do_save_config] ever writes lies between 100 and
    10000, whatever happens between [__init__] and the write. *)
Theorem config_writes_in_range :
  forall (qt_round : Q -> Q) (file : config_file) (size : option Q)
         (d0 : Docker) (ops : list op),
    init qt_round file size = Ok d0 ->
    Forall (fun m => 100 <= m /\ m <= 10000)
           (config_writes (List.fold_left (apply_op qt_round) ops d0)).
Proof.
  intros qt_round file size d0 ops Hinit.
  assert (Hm : max_in_range d0) by exact (init_in_range _ _ _ _ Hinit).
  assert (Hw : written_in_range d0).
  { unfold written_in_range. rewrite (init_written _ _ _ _ Hinit). constructor. }
  clear Hinit. revert d0 Hm Hw.
  induction ops as [|o r IH]; intros d Hm Hw; simpl; [exact Hw|].
  apply IH; [apply apply_op_in_range, Hm | apply apply_op_written; assumption].
Qed.

End PersistFacts.

(** ** More on the size slider *)
Module SizeMore.

Import Slider Docker SliderFacts SizeFacts MaxFacts.
Local Open Scope Q_scope.

Lemma max_expand_max (qt_round : Q -> Q) (size : Q) (d : Docker) :
  max_brush_size (expand_max qt_round size d)
  = if PyNum.ltb (max_brush_size d) size then
      let new_max :=
        PyNum.py_min 10000 (PyNum.py_max 100 (inject_Z (PyNum.int size))) in
      if Qeq_bool new_max (max_brush_size d) then max_brush_size d
      else new_max
    else max_brush_size d.
Proof.
  unfold expand_max.
  destruct (PyNum.ltb (max_brush_size d) size); [|reflexivity].
  cbv zeta. destruct (Qeq_bool _ (max_brush_size d)); simpl; [reflexivity|].
  rewrite max_save_config, max_size_slider_setMaximum. reflexivity.
Qed.

Lemma expand_max_stable (qt_round : Q -> Q) (size : Q) (d d' : Docker) :
  max_brush_size d' = max_brush_size (expand_max qt_round size d) ->
  expand_max qt_round size d' = d'.
Proof.
  rewrite max_expand_max. intros H. unfold expand_max.
  destruct (PyNum.ltb (max_brush_size d) size) eqn:E1.
  - cbv zeta in H.
    destruct (Qeq_bool
                (PyNum.py_min 10000
                   (PyNum.py_max 100 (inject_Z (PyNum.int size))))
                (max_brush_size d)) eqn:E2.
    + rewrite H, E1, E2. reflexivity.
    + rewrite H.
      destruct (PyNum.ltb
                  (PyNum.py_min 10000
                     (PyNum.py_max 100 (inject_Z (PyNum.int size)))) size);
        [|reflexivity].
      rewrite Qeq_bool_refl. reflexivity.
  - rewrite H, E1. reflexivity.
Qed.

Lemma update_size_slider_fixed (qt_round : Q -> Q) (s : Q) (d' : Docker) :
  expand_max qt_round s d' = d' ->
  option_Q_neqb (last_brush_size d') (clamp_size d' s) = false ->
  _update_size_slider qt_round (Some s) d' = d'.
Proof.
  intros H1 H2. unfold _update_size_slider. cbv zeta. rewrite H1, H2.
  reflexivity.
Qed.

(** Reporting the same brush size a second time changes nothing: the first
    report settles the maximum, the slider and [last_brush_size], and the
    second schedules no save. *)
Theorem update_size_slider_idempotent :
  forall (qt_round : Q -> Q) (size : option Q) (d : Docker),
    _update_size_slider qt_round size (_update_size_slider qt_round size d)
    = _update_size_slider qt_round size d.
Proof.
  intros qt_round [s|] d; [|reflexivity].
  assert (Hd : _update_size_slider qt_round (Some s) d
               = let d1 := expand_max qt_round s d in
                 let c := clamp_size d1 s in
                 if option_Q_neqb (last_brush_size d1) c
                 then with_slider
                        (setValue qt_round (inject_Z (PyNum.int c))
                           (size_slider d1))
                        (with_last (Some c) d1)
                 else d1) by reflexivity.
  cbv zeta in Hd. rewrite Hd. clear Hd.
  set (d1 := expand_max qt_round s d).
  set (c := clamp_size d1 s).
  destruct (option_Q_neqb (last_brush_size d1) c) eqn:E.
  - apply update_size_slider_fixed.
    + apply (expand_max_stable qt_round s d). reflexivity.
    + change (negb (Qeq_bool c c) = false). rewrite Qeq_bool_refl.
      reflexivity.
  - apply update_size_slider_fixed.
    + apply (expand_max_stable qt_round s d). reflexivity.
    + exact E.
Qed.

Lemma brush_save_config (d : Docker) : brushSize (save_config d) = brushSize d.
Proof. unfold save_config. destruct (negb _); reflexivity. Qed.

(** While docker and slider are in step, mirroring a reported size into the
    slider never writes back to the brush of the host. *)
Theorem update_size_slider_no_feedback :
  forall (qt_round : Q -> Q) (d : Docker) (M k : Z) (s : Q),
    (forall n, qt_round (inject_Z n) = inject_Z n) ->
    in_step d M k ->
    brushSize (_update_size_slider qt_round (Some s) d) = brushSize d.
Proof.
  intros qt_round d M k s Hqt (Hmax & HM & Hmin & Hsmax & Hval & Hk & Hlast).
  assert (H1 : brushSize (expand_max qt_round s d) = brushSize d).
  { pose proof (expanded_bounds M s HM) as HM'.
    unfold expand_max, expanded in *. rewrite Hmax.
    destruct (PyNum.ltb (inject_Z M) s); [|reflexivity].
    change 10000 with (inject_Z 10000). change 100 with (inject_Z 100).
    rewrite py_max_inject_Z, py_min_inject_Z.
    set (M' := Z.min 10000 (Z.max 100 (PyNum.int s))) in *.
    destruct (negb _); [|reflexivity].
    rewrite brush_save_config. unfold size_slider_setMaximum.
    change (size_slider (with_max (inject_Z M') d)) with (size_slider d).
    rewrite (setMaximum_grow qt_round (size_slider d) M' k Hqt Hmin Hval)
      by lia.
    cbn [value]. rewrite Hval, Qeq_bool_refl. reflexivity. }
  unfold _update_size_slider.
  destruct (option_Q_neqb _ _); [simpl|]; exact H1.
Qed.

Lemma int_le_max (c : Q) (m : Q) : c <= m -> 0 <= m -> inject_Z (PyNum.int c) <= m.
Proof.
  intros Hc Hm. unfold PyNum.int.
  destruct (PyNum.ltb c 0) eqn:E; [apply ltb_lt in E | apply ltb_ge in E].
  - apply Qle_trans with 0; [|exact Hm].
    change 0 with (inject_Z 0). rewrite <- Zle_Qle.
    rewrite <- (Qceiling_Z 0). apply Qceiling_resp_le.
    change (inject_Z 0) with 0. lra.
  - apply Qle_trans with c; [apply Qfloor_le | exact Hc].
Qed.

Lemma min_max_covers (lo x : Q) :
  x <= 10000 -> x <= PyNum.py_min 10000 (PyNum.py_max lo x).
Proof.
  intros H. unfold PyNum.py_min, PyNum.py_max.
  destruct (PyNum.ltb lo x) eqn:E1;
    [apply ltb_lt in E1 | apply ltb_ge in E1];
    match goal with
    | |- context [PyNum.ltb ?y 10000] =>
        destruct (PyNum.ltb y 10000) eqn:E2;
        [apply ltb_lt in E2 | apply ltb_ge in E2]
    end; lra.
Qed.

(** After [_validate_max_brush_size] and after [_update_size_slider] the
    whole part of a brush size of at most 10000 is within the maximum, so
    that the slider can show it. *)
Theorem max_brush_size_fits :
  forall (qt_round : Q -> Q) (d : Docker) (c : Q),
    max_in_range d -> c <= 10000 ->
    (brushSize d = Some c ->
     inject_Z (PyNum.int c)
     <= max_brush_size (_validate_max_brush_size qt_round d))
    /\ inject_Z (PyNum.int c)
       <= max_brush_size (_update_size_slider qt_round (Some c) d).
Proof.
  intros qt_round d c [Hlo Hhi] Hc.
  assert (Hint : inject_Z (PyNum.int c) <= 10000)
    by (apply int_le_max; lra).
  split.
  - intros Hb. unfold _validate_max_brush_size. rewrite Hb.
    destruct (PyNum.ltb 1000 c) eqn:E1;
      [apply ltb_lt in E1 | apply ltb_ge in E1]; simpl.
    + destruct (PyNum.ltb (max_brush_size d) c) eqn:E2;
        [apply ltb_lt in E2 | apply ltb_ge in E2].
      * rewrite max_save_config, max_size_slider_setMaximum. simpl.
        apply min_max_covers. exact Hint.
      * apply int_le_max; lra.
    + destruct (PyNum.ltb 1000 (max_brush_size d)) eqn:E3; simpl.
      * rewrite max_save_config, max_size_slider_setMaximum. simpl.
        apply int_le_max; lra.
      * destruct (PyNum.ltb (max_brush_size d) c) eqn:E2;
          [apply ltb_lt in E2 | apply ltb_ge in E2].
        -- rewrite max_save_config, max_size_slider_setMaximum. simpl.
           apply min_max_covers. exact Hint.
        -- apply int_le_max; lra.
  - assert (H : inject_Z (PyNum.int c)
                <= max_brush_size (expand_max qt_round c d)).
    { unfold expand_max.
      destruct (PyNum.ltb (max_brush_size d) c) eqn:E2;
        [apply ltb_lt in E2 | apply ltb_ge in E2].
      - destruct (Qeq_bool _ (max_brush_size d)) eqn:E3; simpl.
        + apply Qeq_bool_iff in E3. rewrite <- E3.
          apply min_max_covers. exact Hint.
        + rewrite max_save_config, max_size_slider_setMaximum. simpl.
          apply min_max_covers. exact Hint.
      - apply int_le_max; lra. }
    unfold _update_size_slider. destruct (option_Q_neqb _ _); exact H.
Qed.

End SizeMore.

(** ** The debounce of the brush size actions *)
Module ActionFacts.

Import Docker ActionDebounce.

Lemma triggered_timer (a : ActionDocker) :
  _action_debounce_timer (_on_brush_size_action_triggered a) = Some true.
Proof.
  unfold _on_brush_size_action_triggered. simpl.
  destruct (_action_debounce_timer a) as [[|]|]; reflexivity.
Qed.

Lemma burst_state (qt_round : Q -> Q) (k : nat) (a : ActionDocker) :
  action_run qt_round (List.repeat Triggered (S k)) a
  = {| docker := docker a; _action_debounce_timer := Some true;
       updates := updates a |}.
Proof.
  revert a. induction k as [|k IH]; intros a.
  - simpl. unfold _on_brush_size_action_triggered. simpl.
    destruct (_action_debounce_timer a) as [[|]|]; reflexivity.
  - change (List.repeat Triggered (S (S k)))
      with (Triggered :: List.repeat Triggered (S k)).
    unfold action_run in *. cbn [List.fold_left action_step].
    rewrite IH. reflexivity.
Qed.

Lemma action_step_count (qt_round : Q -> Q) (a : ActionDocker)
    (e : action_event) :
  (updates (action_step qt_round a e) + may_fire (action_step qt_round a e)
   <= updates a + may_fire a + (if is_Triggered e then 1 else 0))%nat.
Proof.
  destruct a as [d t u].
  destruct e; destruct t as [[|]|]; cbn; lia.
Qed.

(** However many times the brush size actions fire in a row, the slider is
    brought up to date once, when the timer runs out; and over any sequence
    of events there are never more updates than actions fired. *)
Theorem action_debounce :
  forall (qt_round : Q -> Q) (a : ActionDocker),
    (forall k : nat,
       action_run qt_round (List.repeat Triggered (S k) ++ [Elapsed; Elapsed]) a
       = {| docker := _update_size_from_action qt_round (docker a);
            _action_debounce_timer := Some false;
            updates := S (updates a) |})
    /\ (forall trace : list action_event,
          (updates (action_run qt_round trace a)
           <= updates a + may_fire a
              + List.length (List.filter is_Triggered trace))%nat).
Proof.
  intros qt_round a. split.
  - intros k. unfold action_run. rewrite fold_left_app.
    fold (action_run qt_round (List.repeat Triggered (S k)) a).
    rewrite burst_state. reflexivity.
  - intros trace.
    assert (H : (updates (action_run qt_round trace a)
                 + may_fire (action_run qt_round trace a)
                 <= updates a + may_fire a
                    + List.length (List.filter is_Triggered trace))%nat).
    { revert a. induction trace as [|e r IH]; intros a; simpl; [lia|].
      specialize (IH (action_step qt_round a e)).
      pose proof (action_step_count qt_round a e) as Hs.
      unfold action_run in *.
      destruct (is_Triggered e); simpl in *; lia. }
    lia.
Qed.

End ActionFacts.

(** ** The further properties on the samples *)
Section MoreSampleFacts.

Import ET ETFacts RefCodec RefCodecFacts.

Lemma find_mask_generator_prefers_child_witness :
  _find_mask_generator MoreSamples.nested_brushdef
  = Some ([1%nat], MoreSamples.outer_mask).
Proof.
  apply (find_mask_generator_prefers_child MoreSamples.nested_brushdef 1
           MoreSamples.outer_mask).
  - reflexivity.
  - reflexivity.
  - intros j c' Hj H. destruct j as [|j]; [|lia].
    injection H as <-. discriminate.
Defined.

Lemma find_mask_generator_document_order_witness :
  _find_mask_generator MoreSamples.deep_brushdef
  = Some ([0; 0]%nat, MoreSamples.inner_mask).
Proof.
  apply (find_mask_generator_document_order MoreSamples.deep_brushdef
           [([0%nat], MoreSamples.shape)]
           [([1%nat], Elem "Texture" [] "" [])]).
  - intros c [<- | [<- | []]]; discriminate.
  - reflexivity.
  - constructor; [discriminate | constructor].
  - reflexivity.
Defined.

Lemma find_mask_generator_root_witness :
  _find_mask_generator MoreSamples.root_brushdef
  = Some ([], MoreSamples.root_brushdef).
Proof.
  apply find_mask_generator_root.
  - intros p x Hp Hs.
    assert (Hin : In (p, x) (List.tl (iter MoreSamples.root_brushdef)))
      by (apply in_tl_iter; auto).
    simpl in Hin. destruct Hin as [Hin | []]. injection Hin as <- <-.
    discriminate.
  - reflexivity.
Defined.

Lemma sample_skip :
  Forall (fun jc => locate fromstring (snd jc) = Skip)
         [(0%nat, Sample.paintop_param)].
Proof. constructor; [reflexivity | constructor]. Qed.

Lemma sample_parsable :
  Forall (fun jc => ~ unparsable fromstring (snd jc))
         [(0%nat, Sample.paintop_param)].
Proof. constructor; [|constructor]. intros (H & _). discriminate. Qed.

Lemma sample_params :
  findall "param" Sample.preset
  = ([(0%nat, Sample.paintop_param)] ++ (1%nat, Sample.brush_param) :: [])%list.
Proof. reflexivity. Qed.

Lemma set_brush_hardness_changes_only_fades_witness :
  set_loop fromstring tostring str Sample.seven Sample.preset
    (findall "param" Sample.preset)
  = Ok (MoreSamples.written_preset, true)
  /\ exists (i : nat) (param brushdef brushdef' : Element) (p : path)
            (brushopt : Element),
       In (i, param) (findall "param" Sample.preset)
       /\ fromstring (text param) = Some brushdef
       /\ _find_mask_generator brushdef = Some (p, brushopt)
       /\ tag MoreSamples.written_preset = tag Sample.preset
       /\ attrib MoreSamples.written_preset = attrib Sample.preset
       /\ text MoreSamples.written_preset = text Sample.preset
       /\ List.length (children MoreSamples.written_preset)
          = List.length (children Sample.preset)
       /\ nth_error (children MoreSamples.written_preset) i
          = Some (set_text (tostring brushdef') param)
       /\ (forall j, j <> i ->
             nth_error (children MoreSamples.written_preset) j
             = nth_error (children Sample.preset) j)
       /\ (forall q, subtree q brushdef' = None <-> subtree q brushdef = None)
       /\ (forall q x x',
             subtree q brushdef = Some x -> subtree q brushdef' = Some x' ->
             tag x' = tag x /\ text x' = text x
             /\ List.length (children x') = List.length (children x)
             /\ (q <> p -> attrib x' = attrib x)
             /\ (q = p ->
                 get x' "hfade" = Some (str (clamp01 Sample.seven))
                 /\ get x' "vfade" = Some (str (clamp01 Sample.seven)))
             /\ (forall k, k <> "hfade" -> k <> "vfade" ->
                           get x' k = get x k)).
Proof.
  assert (H : set_loop fromstring tostring str Sample.seven Sample.preset
                (findall "param" Sample.preset)
              = Ok (MoreSamples.written_preset, true)).
  { rewrite sample_params. simpl app.
    rewrite !set_loop_step, sample_located. reflexivity. }
  split; [exact H|].
  exact (set_brush_hardness_changes_only_fades fromstring tostring str
           Sample.seven Sample.preset MoreSamples.written_preset H).
Defined.

Lemma set_brush_hardness_last_wins_witness :
  option_map preset_xml
    (_set_brush_hardness fromstring tostring str PyFloat.zero
       (_set_brush_hardness fromstring tostring str Sample.seven
          (Some Sample.view)))
  = option_map preset_xml
      (_set_brush_hardness fromstring tostring str PyFloat.zero
         (Some Sample.view)).
Proof.
  exact (set_brush_hardness_last_wins fromstring tostring str
           fromstring_tostring tostring_not_empty
           Sample.seven PyFloat.zero Sample.view Sample.preset
           [(0%nat, Sample.paintop_param)] [] 1%nat Sample.brush_param
           (fromstring_tostring Sample.preset) sample_params
           sample_holds_hardness sample_parsable).
Defined.

Lemma get_brush_hardness_bad_fade_witness :
  get Sample.mask "hfade" = Some "old"
  /\ float_of_str "old" = None
  /\ _get_brush_hardness fromstring float_of_str (Some Sample.view) = Ok None.
Proof.
  split; [reflexivity|]. split; [reflexivity|].
  exact (get_brush_hardness_bad_fade fromstring float_of_str
           Sample.view Sample.preset [(0%nat, Sample.paintop_param)] []
           1%nat Sample.brush_param Sample.brushdef [0%nat] Sample.mask "old"
           (fromstring_tostring Sample.preset) sample_params sample_skip
           sample_located eq_refl eq_refl).
Defined.

Lemma sample_unparsable : unparsable fromstring Sample.broken_param.
Proof. split; [reflexivity|]. split; [discriminate | reflexivity]. Qed.

Lemma unparsable_param_blocks_witness :
  unparsable fromstring Sample.broken_param
  /\ _get_brush_hardness fromstring float_of_str (Some Sample.broken_view)
     = Ok None
  /\ _set_brush_hardness fromstring tostring str Sample.seven
       (Some Sample.broken_view)
     = Some Sample.broken_view.
Proof.
  split; [exact sample_unparsable|].
  exact (unparsable_param_blocks fromstring tostring str float_of_str
           Sample.seven Sample.broken_view Sample.broken_preset
           [] [(1%nat, Sample.brush_param)] 0%nat Sample.broken_param
           (fromstring_tostring Sample.broken_preset) eq_refl
           (Forall_nil _) sample_unparsable).
Defined.

Lemma display_mirror_within_one_witness :
  exists m : Z,
    Display.mirror 29 = PyFloat.IntOk m /\ (29 - 1 <= m <= 29)%Z.
Proof. apply (display_mirror_within_one 29). lia. Defined.

Lemma nan_located :
  locate fromstring MoreSamples.nan_param
  = Located MoreSamples.nan_brushdef [0%nat] MoreSamples.nan_mask.
Proof.
  apply locate_located.
  split; [reflexivity|]. split; [discriminate|].
  split; [apply fromstring_tostring|]. split; reflexivity.
Qed.

Lemma update_hardness_not_a_number_witness :
  float_of_str "N" = Some S754_nan
  /\ HardnessSync.update_hardness_from_brush fromstring float_of_str
       Sample.exact MoreSamples.nan_docker
     = Raise ValueError.
Proof.
  split; [reflexivity|].
  exact (update_hardness_not_a_number fromstring float_of_str Sample.exact
           MoreSamples.nan_docker MoreSamples.nan_view MoreSamples.nan_preset
           [] [] 0%nat MoreSamples.nan_param MoreSamples.nan_brushdef
           [0%nat] MoreSamples.nan_mask "N" S754_nan
           eq_refl (fromstring_tostring MoreSamples.nan_preset) eq_refl
           (Forall_nil _) nan_located eq_refl eq_refl).
Defined.

Lemma hardness_slider_cycle_witness :
  let h1 := HardnessSync.on_hardness_slider_changed fromstring tostring str
              29 MoreSamples.hardness_docker in
  _get_brush_hardness fromstring float_of_str (HardnessSync.active_view h1)
  = Ok (Some (Display.internal_value (PyFloat.of_int 29)))
  /\ exists m : Z,
       Display.mirror 29 = PyFloat.IntOk m /\ (29 - 1 <= m <= 29)%Z
       /\ HardnessSync.update_hardness_from_brush fromstring float_of_str
            Sample.exact h1
          = Ok (if (m =? 29)%Z then h1
                else {| HardnessSync.last_hardness := Some m;
                        HardnessSync.hardness_slider :=
                          Slider.setValue Sample.exact (inject_Z m)
                            (HardnessSync.hardness_slider h1);
                        HardnessSync.active_view :=
                          HardnessSync.active_view h1 |}).
Proof.
  apply (hardness_slider_cycle fromstring tostring str float_of_str
           Sample.exact fromstring_tostring tostring_not_empty
           float_of_str_str 29 MoreSamples.hardness_docker Sample.view
           Sample.preset [(0%nat, Sample.paintop_param)] [] 1%nat
           Sample.brush_param).
  - lia.
  - reflexivity.
  - apply fromstring_tostring.
  - exact sample_params.
  - exact sample_holds_hardness.
  - exact sample_parsable.
Defined.

End MoreSampleFacts.

(** ** The further properties of the docker on the samples *)
Section MoreDockerSamples.

Import Slider Docker Persist.
Import SliderFacts PersistFacts SizeMore MaxFacts.
Local Open Scope Q_scope.

Lemma load_config_of_saved_witness :
  exists d',
    load_config (config_of (2500 # 1)) Sample.docker = Ok d'
    /\ max_brush_size d' == 2500 # 1
    /\ timers d' = (timers Sample.docker ++ [Validate_max_brush_size])%list.
Proof.
  apply (load_config_of_saved (2500 # 1) Sample.docker); discriminate.
Defined.

Lemma load_config_default_witness :
  exists d',
    load_config (Unreadable JSONDecodeError) Sample.started = Ok d'
    /\ max_brush_size d' = 1000.
Proof.
  apply (load_config_default (Unreadable JSONDecodeError) Sample.started).
  right. left. reflexivity.
Defined.

Lemma config_writes_in_range_witness :
  init Sample.exact Sample.big_config (Some (5001 # 2)) = Ok Sample.started
  /\ Forall (fun m => 100 <= m /\ m <= 10000)
       (config_writes
          (List.fold_left (apply_op Sample.exact) Sample.session
             Sample.started)).
Proof.
  assert (H : init Sample.exact Sample.big_config (Some (5001 # 2))
              = Ok Sample.started) by reflexivity.
  split; [exact H|].
  exact (config_writes_in_range Sample.exact Sample.big_config
           (Some (5001 # 2)) Sample.started Sample.session H).
Defined.

Lemma update_size_slider_no_feedback_witness :
  in_step Sample.docker 1000 40
  /\ brushSize (_update_size_slider Sample.exact (Some (25 # 2)) Sample.docker)
     = brushSize Sample.docker.
Proof.
  split; [exact sample_in_step|].
  exact (update_size_slider_no_feedback Sample.exact Sample.docker 1000 40
           (25 # 2) exact_whole sample_in_step).
Defined.

Lemma sample_max_in_range : max_in_range Sample.docker.
Proof. split; discriminate. Qed.

Lemma max_brush_size_fits_witness :
  max_in_range Sample.docker
  /\ 2500 # 1 <= 10000
  /\ inject_Z (PyNum.int (2500 # 1))
     <= max_brush_size
          (_update_size_slider Sample.exact (Some (2500 # 1)) Sample.docker).
Proof.
  assert (H : 2500 # 1 <= 10000) by discriminate.
  split; [exact sample_max_in_range|]. split; [exact H|].
  exact (proj2 (max_brush_size_fits Sample.exact Sample.docker (2500 # 1)
                  sample_max_in_range H)).
Defined.

End MoreDockerSamples.
